(** * A shallow embedding of the paged storage engine

    The development follows the Go sources [entry.go], [tieredpage.go] and
    [pagetable.go]: physical pages, page table nodes, tiered pages (the
    entry page and the recycling page) and the entry cursor.

    Conventions.
    - [int64] and [uint64] values are integers in [Z]; wrap-around is written
      out with [wrap_int64] and [wrap_uint64] where the source computes in a
      fixed width.
    - Go maps [map[uint64]T] are [gmap Z T]; [len] of a map is [size].
    - [*physicalPage] pointers are references into a heap of page objects,
      so that the page list of a tiered page and the leaves of its tree share
      the objects, as they do in the source.
    - Page table nodes are values: a loop that walks down by pointer and
      mutates the node it reaches becomes a function that returns the
      rebuilt node to the slot of its parent.  The [parent] pointer is kept
      as the identity of the parent's page.
    - Loops and recursion that are not structural take a [fuel] argument.
    - Locks are not modelled: every operation runs alone. *)

From Stdlib Require Import ZArith Lia String.
From stdpp Require Import gmap list.

Set Warnings "-register-all".
Local Open Scope Z_scope.

(** ** Fixed-width integers *)

Definition wrap_uint64 (z : Z) : Z := z mod 2 ^ 64.

Definition wrap_int64 (z : Z) : Z := (z + 2 ^ 63) mod 2 ^ 64 - 2 ^ 63.

Definition add64 (a b : Z) : Z := wrap_int64 (a + b).
Definition sub64 (a b : Z) : Z := wrap_int64 (a - b).
Definition mul64 (a b : Z) : Z := wrap_int64 (a * b).

Definition in_int64 (z : Z) : Prop := - 2 ^ 63 <= z < 2 ^ 63.

(** [len] of a slice, as an [int]. *)
Definition len {A : Type} (l : list A) : Z := Z.of_nat (length l).

(** ** Results of operations *)

Inductive error : Type :=
| EOF                 (* io.EOF *)
| ErrNegativeSeek     (* "Cannot set cursor to negative position" *)
| ErrNoFreePages      (* "ran out of free pages" *)
| ErrUnmarshal.       (* "Failed to unmarshal offset" *)

(** A call returns normally ([Ok]), returns a Go error ([Err]), panics
    ([Panic], with the reason), or the model runs out of fuel. *)
Inductive result (A : Type) : Type :=
| Ok (a : A)
| Err (e : error)
| Panic (msg : string)
| OutOfFuel.

Arguments Ok {A} a.
Arguments Err {A} e.
Arguments Panic {A} msg.
Arguments OutOfFuel {A}.

Definition bind {A B : Type} (m : result A) (k : A -> result B) : result B :=
  match m with
  | Ok a => k a
  | Err e => Err e
  | Panic msg => Panic msg
  | OutOfFuel => OutOfFuel
  end.

Declare Scope go_scope.
Delimit Scope go_scope with go.
Notation "'let!' x ':=' m 'in' k" := (bind m (fun x => k))
  (at level 10, x pattern, m at level 100, k at level 200) : go_scope.
Local Open Scope go_scope.

Definition nil_deref : string := "nil pointer dereference".
Definition index_out_of_range : string := "index out of range".
Definition slice_out_of_range : string := "slice bounds out of range".

(** ** Constants of the package

    [pageSize], [numPageEntries] and [tieredPageEntrySize] are declared in a
    file of the package that is not part of the sources at hand; they are
    parameters of the development. *)

Class Constants : Type := {
  pageSize : Z;
  numPageEntries : Z;
  tieredPageEntrySize : Z
}.

(** ** The short read of a physical page

    [physicalPage.readAt] is declared in a file of the package that is not
    part of the sources at hand, and the specification says of it only that
    it returns the bytes read and a short-read indication at the end of the
    used region.  When that indication is given is a parameter of the
    development: [shortRead buflen off n] tells whether a call with a buffer
    of [buflen] bytes at the offset [off], where [n] bytes can be read,
    reports [io.EOF].  A read that fills its buffer does not report it, and
    a read that finds nothing to read does. *)

Class ShortRead : Type := {
  shortRead : Z -> Z -> Z -> bool;
  shortRead_full : forall buflen off n : Z, buflen <= n -> shortRead buflen off n = false;
  shortRead_none : forall buflen off : Z, 0 < buflen -> shortRead buflen off 0 = true
}.

(** ** Data model *)

(** A reference to a [physicalPage] object. *)
Definition ref : Type := nat.

(** [physicalPage]: the [file] handle is the one backing file of the model. *)
Record physicalPage : Type := PhysicalPage {
  fileOff : Z;
  usedSize : Z
}.

(** [pageTable] of pagetable.go. *)
Inductive pageTable : Type := PageTable {
  height : Z;
  parent : option ref;
  childTables : gmap Z pageTable;
  childPages : gmap Z ref;
  pt_pp : ref
}.

(** [tieredPage] of tieredpage.go ([pm] and [mu] are left out). *)
Record tieredPage : Type := TieredPage {
  root : pageTable;
  tp_pp : ref;
  tp_usedSize : Z;
  pages : list ref
}.

(** [entryPage]. *)
Record entryPage : Type := EntryPage {
  ep_tp : tieredPage;
  instanceCounter : Z
}.

(** [recyclingPage]. *)
Record recyclingPage : Type := RecyclingPage {
  rp_tp : tieredPage;
  pagesToFree : list ref
}.

(** [Entry] of entry.go. *)
Record Entry : Type := MkEntry {
  ep : entryPage;
  cursorOff : Z;
  cursorPage : Z
}.

Definition entry_pages (e : Entry) : list ref := pages (ep_tp (ep e)).

(** ** The backing file *)

(** The file is a total map from byte offsets to bytes (as integers below
    256); bytes never written read as zero. *)
Definition file_write (f : Z -> Z) (pos : Z) (data : list Z) : Z -> Z :=
  fun x =>
    if (pos <=? x) && (x <? pos + len data)
    then nth (Z.to_nat (x - pos)) data 0
    else f x.

Definition file_read (f : Z -> Z) (pos n : Z) : list Z :=
  map (fun i => f (pos + Z.of_nat i)) (seq 0 (Z.to_nat n)).

(** [b[lo:hi]] on a slice whose capacity is its length. *)
Definition slice {A : Type} (l : list A) (lo hi : Z) : list A :=
  take (Z.to_nat (hi - lo)) (drop (Z.to_nat lo) l).

(** ** Go's encoding/binary, as used by the package *)

Module Binary.

(** [binary.LittleEndian.PutUint64]: the eight bytes of [x]. *)
Fixpoint le_bytes (n : nat) (x : Z) : list Z :=
  match n with
  | O => []
  | S n' => x mod 256 :: le_bytes n' (Z.shiftr x 8)
  end.

Definition PutUint64 (x : Z) : list Z := le_bytes 8 (wrap_uint64 x).

(** [binary.LittleEndian.Uint64]. *)
Fixpoint Uint64 (b : list Z) : Z :=
  match b with
  | [] => 0
  | x :: b' => Z.lor x (Z.shiftl (Uint64 b') 8)
  end.

(** [binary.PutUvarint]: seven bits per byte, low group first; a uint64
    takes at most ten bytes. *)
Fixpoint uvarint_bytes (fuel : nat) (x : Z) : list Z :=
  match fuel with
  | O => []
  | S fuel' =>
      if x >=? 128
      then Z.lor (x mod 256) 128 :: uvarint_bytes fuel' (Z.shiftr x 7)
      else [x]
  end.

(** The zig-zag step of [binary.PutVarint]. *)
Definition zigzag (x : Z) : Z :=
  let ux := wrap_uint64 (Z.shiftl (wrap_uint64 x) 1) in
  if x <? 0 then 2 ^ 64 - 1 - ux else ux.

(** [binary.PutVarint(buf, x)] on a zeroed slot [buf] of eight bytes: the
    slot afterwards, or the panic of writing past its end. *)
Definition PutVarint (x : Z) : result (list Z) :=
  let bs := uvarint_bytes 10 (zigzag x) in
  if len bs <=? 8
  then Ok (bs ++ replicate (8 - length bs) 0)
  else Panic index_out_of_range.

(** [binary.Uvarint]: the loop over the bytes of [buf], at byte [i] with
    the bits gathered so far in [x] and the shift [s]. *)
Fixpoint Uvarint_loop (buf : list Z) (i : Z) (x s : Z) : Z * Z :=
  match buf with
  | [] => (0, 0)
  | b :: buf' =>
      if i =? 10 then (0, - (i + 1))
      else if b <? 128 then
        if (i =? 9) && (b >? 1) then (0, - (i + 1))
        else (Z.lor x (wrap_uint64 (Z.shiftl b s)), i + 1)
      else Uvarint_loop buf' (i + 1)
             (Z.lor x (wrap_uint64 (Z.shiftl (Z.land b 127) s))) (s + 7)
  end.

Definition Uvarint (buf : list Z) : Z * Z := Uvarint_loop buf 0 0 0.

(** [binary.Varint]. *)
Definition Varint (buf : list Z) : Z * Z :=
  let '(ux, n) := Uvarint buf in
  let x := wrap_int64 (Z.shiftr ux 1) in
  (if Z.land ux 1 =? 0 then x else wrap_int64 (- x - 1), n).

End Binary.

(** ** The page manager and the heap of page objects

    [PageManager] is declared outside the sources at hand.  The record
    keeps what the code under study uses of it: the backing file, the flag
    [recyclePages] and the recycler [freePages]; the heap of
    [physicalPage] objects and the end of the file are carried along. *)

Record PageManager : Type := MkPageManager {
  pm_file : Z -> Z;
  pm_fileSize : Z;
  pm_heap : gmap ref physicalPage;
  pm_nextRef : ref;
  recyclePages : bool;
  freePages : recyclingPage
}.

Definition set_file (f : Z -> Z) (pm : PageManager) : PageManager :=
  MkPageManager f (pm_fileSize pm) (pm_heap pm) (pm_nextRef pm)
    (recyclePages pm) (freePages pm).

Definition set_heap (h : gmap ref physicalPage) (pm : PageManager) : PageManager :=
  MkPageManager (pm_file pm) (pm_fileSize pm) h (pm_nextRef pm)
    (recyclePages pm) (freePages pm).

Definition set_recyclePages (b : bool) (pm : PageManager) : PageManager :=
  MkPageManager (pm_file pm) (pm_fileSize pm) (pm_heap pm) (pm_nextRef pm)
    b (freePages pm).

Definition set_freePages (rp : recyclingPage) (pm : PageManager) : PageManager :=
  MkPageManager (pm_file pm) (pm_fileSize pm) (pm_heap pm) (pm_nextRef pm)
    (recyclePages pm) rp.

(** [&physicalPage{...}]: a new object on the heap. *)
Definition new_object (pg : physicalPage) (pm : PageManager) : ref * PageManager :=
  (pm_nextRef pm,
   MkPageManager (pm_file pm) (pm_fileSize pm)
     (<[pm_nextRef pm := pg]> (pm_heap pm)) (S (pm_nextRef pm))
     (recyclePages pm) (freePages pm)).

(** Reading through a page pointer; a pointer without an object is nil. *)
Definition deref (pm : PageManager) (r : ref) : result physicalPage :=
  match pm_heap pm !! r with
  | Some pg => Ok pg
  | None => Panic nil_deref
  end.

Definition set_usedSize (r : ref) (u : Z) (pm : PageManager) : PageManager :=
  set_heap (alter (fun pg => {| fileOff := fileOff pg; usedSize := u |}) r (pm_heap pm)) pm.

(** Updates of the fields of a node and of a tiered page. *)
Definition set_childTables (m : gmap Z pageTable) (pt : pageTable) : pageTable :=
  PageTable (height pt) (parent pt) m (childPages pt) (pt_pp pt).

Definition set_childPages (m : gmap Z ref) (pt : pageTable) : pageTable :=
  PageTable (height pt) (parent pt) (childTables pt) m (pt_pp pt).

Definition set_parent (p : option ref) (pt : pageTable) : pageTable :=
  PageTable (height pt) p (childTables pt) (childPages pt) (pt_pp pt).

Definition set_root (pt : pageTable) (tp : tieredPage) : tieredPage :=
  TieredPage pt (tp_pp tp) (tp_usedSize tp) (pages tp).

Definition set_tp_usedSize (u : Z) (tp : tieredPage) : tieredPage :=
  TieredPage (root tp) (tp_pp tp) u (pages tp).

Definition set_pages (ps : list ref) (tp : tieredPage) : tieredPage :=
  TieredPage (root tp) (tp_pp tp) (tp_usedSize tp) ps.

Section Engine.
Context {C : Constants} {SR : ShortRead}.

(** ** Physical pages *)

(** Modelled from the spec: [physicalPage.writeAt], which is declared
    outside the sources at hand.  It writes at most [pageSize - off] bytes
    of [p] at [fileOff + off] and raises the page's [usedSize] to
    [max usedSize (off + written)]. *)
Definition pp_writeAt (r : ref) (p : list Z) (off : Z) (pm : PageManager)
  : result (Z * PageManager) :=
  let! pg := deref pm r in
  let n := Z.max 0 (Z.min (len p) (pageSize - off)) in
  let pm1 := set_file (file_write (pm_file pm) (fileOff pg + off) (take (Z.to_nat n) p)) pm in
  Ok (n, set_usedSize r (Z.max (usedSize pg) (off + n)) pm1).

(** Modelled from the spec: [physicalPage.readAt], which is declared
    outside the sources at hand.  For a buffer of [buflen] bytes it reads at
    [fileOff + off], never crossing the page boundary nor the end of the
    used region, and returns the count with the bytes, or [io.EOF] as the
    indication of a short read; the callers at hand drop the count that
    comes with an error. *)
Definition pp_readAt (r : ref) (buflen : Z) (off : Z) (pm : PageManager)
  : result (Z * list Z) :=
  let! pg := deref pm r in
  let n := Z.max 0 (Z.min buflen (Z.min pageSize (usedSize pg) - off)) in
  if shortRead buflen off n then Err EOF
  else Ok (n, file_read (pm_file pm) (fileOff pg + off) n).

(** ** pagetable.go *)

Fixpoint mapM {A B : Type} (f : A -> result B) (l : list A) : result (list B) :=
  match l with
  | [] => Ok []
  | x :: l' => let! y := f x in let! ys := mapM f l' in Ok (y :: ys)
  end.

(** The indices [0 .. n-1] of a counting loop. *)
Definition upto (n : Z) : list Z := map Z.of_nat (seq 0 (Z.to_nat n)).

(** [pt.childPages[i].fileOff] and [pt.childTables[i].pp.fileOff]; a missing
    key yields the nil pointer. *)
Definition childOffset (pt : pageTable) (pm : PageManager) (i : Z) : result Z :=
  if height pt =? 0 then
    match childPages pt !! i with
    | Some r => let! pg := deref pm r in Ok (fileOff pg)
    | None => Panic nil_deref
    end
  else
    match childTables pt !! i with
    | Some c => let! pg := deref pm (pt_pp c) in Ok (fileOff pg)
    | None => Panic nil_deref
    end.

Definition numChildren (pt : pageTable) : Z :=
  if height pt =? 0 then Z.of_nat (size (childPages pt))
  else Z.of_nat (size (childTables pt)).

(** [marshal]. *)
Definition marshal (pt : pageTable) (pm : PageManager) : result (list Z) :=
  let numEntries := numChildren pt in
  let! offsets := mapM (childOffset pt pm) (upto numEntries) in
  let! slots := mapM Binary.PutVarint offsets in
  Ok (Binary.PutUint64 numEntries ++ concat slots).

(** [writeToDisk]. *)
Definition writeToDisk (pt : pageTable) (pm : PageManager) : result PageManager :=
  let! data := marshal pt pm in
  let! (_, pm') := pp_writeAt (pt_pp pt) data 0 pm in
  Ok pm'.

(** ** tieredpage.go *)

(** [writeTieredPageEntry]. *)
Definition writeTieredPageEntry (pp : ref) (index usedBytes pageOff : Z)
    (pm : PageManager) : result PageManager :=
  let! s1 := Binary.PutVarint usedBytes in
  let! s2 := Binary.PutVarint pageOff in
  let! (_, pm') := pp_writeAt pp (s1 ++ s2) (index * tieredPageEntrySize) pm in
  Ok pm'.

(** [maxPages]: [math.Pow] on these integers is the exact power as long as
    it stays below 2^53. *)
Definition maxPages (height : Z) : Z := numPageEntries ^ (height + 1).

Definition nextIndex (tp : tieredPage) : Z := Z.quot (tp_usedSize tp) pageSize.

Definition availablePages (rp : recyclingPage) : Z :=
  len (pagesToFree rp) + len (pages (rp_tp rp)).

(** What [recursiveTruncate] hands back: the [empty] flag, the pages to
    free, and the node, the tiered page and the manager after the call. *)
Definition truncated : Type :=
  bool * list ref * pageTable * tieredPage * PageManager.

(** The loop of [recursiveTruncate] over [pt.childPages], at counter [i]. *)
Fixpoint truncatePages (fuel : nat) (size' : Z) (i : Z) (pt : pageTable)
    (tp : tieredPage) (pm : PageManager) (pagesToFree : list ref) : result truncated :=
  match fuel with
  | O => OutOfFuel
  | S fuel' =>
      if tp_usedSize tp <=? size' then Ok (false, pagesToFree, pt, tp, pm)
      else
        match childPages pt !! i with
        | None => Panic nil_deref
        | Some r =>
            let! page := deref pm r in
            let remainingTruncation := tp_usedSize tp - size' in
            if remainingTruncation <? usedSize page then
              let pm' := set_usedSize r (usedSize page - remainingTruncation) pm in
              let tp' := set_tp_usedSize (tp_usedSize tp - remainingTruncation) tp in
              truncatePages fuel' size' (wrap_uint64 (i - 1)) pt tp' pm' pagesToFree
            else
              let pt' := set_childPages (delete i (childPages pt)) pt in
              match last (pages tp) with
              | None => Panic index_out_of_range
              | Some removedRef =>
                  let! removed := deref pm removedRef in
                  let tp1 := set_pages (removelast (pages tp)) tp in
                  if negb (fileOff removed =? fileOff page)
                  then Panic "removed pages weren't the same"
                  else
                    let pagesToFree' := pagesToFree ++ [r] in
                    let tp2 := set_tp_usedSize (tp_usedSize tp1 - usedSize page) tp1 in
                    if (size (childPages pt') =? 0)%nat
                    then Ok (true, pagesToFree', pt', tp2, pm)
                    else truncatePages fuel' size' (wrap_uint64 (i - 1)) pt' tp2 pm pagesToFree'
              end
        end
  end.

(** [recursiveTruncate], with its loop over [pt.childTables] at counter [i]. *)
Fixpoint recursiveTruncate (fuel : nat) (tp : tieredPage) (pt : pageTable)
    (size' : Z) (pm : PageManager) : result truncated :=
  match fuel with
  | O => OutOfFuel
  | S fuel' =>
      if height pt >? 0 then
        truncateTables fuel' size' (wrap_uint64 (Z.of_nat (size (childTables pt)) - 1))
          pt tp pm []
      else if height pt =? 0 then
        truncatePages fuel' size' (wrap_uint64 (Z.of_nat (size (childPages pt)) - 1))
          pt tp pm []
      else Panic "sanity check failed. height can't be a negative value."
  end
with truncateTables (fuel : nat) (size' : Z) (i : Z) (pt : pageTable)
    (tp : tieredPage) (pm : PageManager) (pagesToFree : list ref) : result truncated :=
  match fuel with
  | O => OutOfFuel
  | S fuel' =>
      if tp_usedSize tp <=? size' then Ok (false, pagesToFree, pt, tp, pm)
      else
        match childTables pt !! i with
        | None => Panic nil_deref
        | Some child =>
            let! (empty, freePages, child', tp', pm') :=
               recursiveTruncate fuel' tp child size' pm in
            let pt1 := set_childTables (<[i := child']> (childTables pt)) pt in
            let pagesToFree1 := pagesToFree ++ freePages in
            if (empty : bool) then
              let pt2 := set_childTables (delete i (childTables pt1)) pt1 in
              let pagesToFree2 := pagesToFree1 ++ [pt_pp child'] in
              let! pm'' := writeToDisk pt2 pm' in
              if (size (childTables pt2) =? 0)%nat
              then Ok (true, pagesToFree2, pt2, tp', pm'')
              else truncateTables fuel' size' (wrap_uint64 (i - 1)) pt2 tp' pm'' pagesToFree2
            else truncateTables fuel' size' (wrap_uint64 (i - 1)) pt1 tp' pm' pagesToFree1
        end
  end.

(** The loop of [defrag]. *)
Fixpoint defragLoop (fuel : nat) (tp : tieredPage) (pm : PageManager)
    (pagesToFree : list ref) : result (list ref * tieredPage * PageManager) :=
  match fuel with
  | O => OutOfFuel
  | S fuel' =>
      if (height (root tp) >? 0) && (size (childTables (root tp)) =? 1)%nat then
        match childTables (root tp) !! 0 with
        | None => Panic nil_deref
        | Some child =>
            let! childPg := deref pm (pt_pp child) in
            let! pm1 := writeTieredPageEntry (tp_pp tp) (height child) (tp_usedSize tp)
                        (fileOff childPg) pm in
            let! pm2 := writeTieredPageEntry (tp_pp tp) (height (root tp)) 0 0 pm1 in
            defragLoop fuel' (set_root (set_parent None child) tp) pm2
              (pagesToFree ++ [pt_pp (root tp)])
        end
      else Ok (pagesToFree, tp, pm)
  end.

(** [defrag]. *)
Definition defrag (fuel : nat) (tp : tieredPage) (pm : PageManager)
  : result (list ref * tieredPage * PageManager) :=
  let! rootPg := deref pm (pt_pp (root tp)) in
  let! pm1 := writeTieredPageEntry (tp_pp tp) (height (root tp)) (tp_usedSize tp)
              (fileOff rootPg) pm in
  defragLoop fuel tp pm1 [].

(** [freePage]; the deferred function resets [usedSize] of the page that
    is returned. *)
Definition freePage (fuel : nat) (rp : recyclingPage) (pm : PageManager)
  : result (ref * recyclingPage * PageManager) :=
  if availablePages rp =? 0 then Err ErrNoFreePages
  else
    match last (pagesToFree rp) with
    | Some p =>
        Ok (p, RecyclingPage (rp_tp rp) (removelast (pagesToFree rp)), set_usedSize p 0 pm)
    | None =>
        match last (pages (rp_tp rp)) with
        | None => Panic index_out_of_range
        | Some page =>
            let! (_, pagesToFree1, root', tp1, pm1) :=
               recursiveTruncate fuel (rp_tp rp) (root (rp_tp rp))
                 (tp_usedSize (rp_tp rp) - pageSize) pm in
            let tp2 := set_root root' tp1 in
            match pagesToFree1 with
            | [] => Panic index_out_of_range
            | first :: rest =>
                if negb (Nat.eqb first page)
                then Panic "sanity check failed. Truncated page doesn't match the page to return"
                else
                  let! (pagesToFree2, tp3, pm2) := defrag fuel tp2 pm1 in
                  Ok (page,
                      RecyclingPage tp3 (pagesToFree rp ++ (rest ++ pagesToFree2)),
                      set_usedSize page 0 pm2)
            end
        end
    end.

(** Modelled from the spec: [PageManager.allocatePage], which is declared
    outside the sources at hand.  It returns a page of the recycler (through
    [freePage]) when [recyclePages] allows it and the recycler has a page,
    and otherwise extends the backing file by [pageSize]. *)
Definition allocatePage (fuel : nat) (pm : PageManager) : result (ref * PageManager) :=
  if recyclePages pm && (0 <? availablePages (freePages pm)) then
    let! (r, rp', pm') := freePage fuel (freePages pm) pm in
    Ok (r, set_freePages rp' pm')
  else
    let '(r, pm') := new_object {| fileOff := pm_fileSize pm; usedSize := 0 |} pm in
    Ok (r, MkPageManager (pm_file pm') (pm_fileSize pm' + pageSize) (pm_heap pm')
             (pm_nextRef pm') (recyclePages pm') (freePages pm')).

(** Modelled from the spec: [PageManager.managedAllocatePage] is
    [allocatePage] under the lock of the manager. *)
Definition managedAllocatePage (fuel : nat) (pm : PageManager)
  : result (ref * PageManager) := allocatePage fuel pm.

(** [newPageTable] (pagetable.go). *)
Definition newPageTable (fuel : nat) (height : Z) (parent : option ref)
    (pm : PageManager) : result (pageTable * PageManager) :=
  let! (pp, pm') := allocatePage fuel pm in
  Ok (PageTable height parent ∅ ∅ pp, pm').

(** [extendPageTableTree] (pagetable.go). *)
Definition extendPageTableTree (fuel : nat) (root : pageTable) (pm : PageManager)
  : result (pageTable * PageManager) :=
  match parent root with
  | Some _ => Panic "Sanity check failed. Pt is not the root node"
  | None =>
      let! (newRoot, pm') := newPageTable fuel (height root + 1) None pm in
      Ok (set_childTables
            (<[0 := set_parent (Some (pt_pp newRoot)) root]> (childTables newRoot))
            newRoot, pm')
  end.

(** The first loop of [insertPage]: grow the tree while [index >= maxPages]. *)
Fixpoint insertPage_extend (fuel : nat) (tp : tieredPage) (index : Z)
    (pm : PageManager) : result (tieredPage * PageManager) :=
  match fuel with
  | O => OutOfFuel
  | S fuel' =>
      if index >=? maxPages (height (root tp)) then
        let! (newRoot, pm') := extendPageTableTree fuel' (root tp) pm in
        insertPage_extend fuel' (set_root newRoot tp) index pm'
      else Ok (tp, pm)
  end.

(** The second loop of [insertPage], from the node [pt] down, and the
    insertion into the leaf it ends at.  [pageIndex] is the loop variable of
    the source. *)
Fixpoint insertPage_descend (fuel : nat) (pt : pageTable) (pageIndex index : Z)
    (pp : ref) (pm : PageManager) : result (pageTable * PageManager) :=
  match fuel with
  | O => OutOfFuel
  | S fuel' =>
      if height pt >? 0 then
        let tableIndex := Z.quot pageIndex (maxPages (height pt - 1)) in
        let pageIndex' := Z.quot pageIndex numPageEntries in
        let! (pt1, pm1) :=
           match childTables pt !! tableIndex with
           | Some _ => Ok (pt, pm)
           | None =>
               let! (newPt, pm') := newPageTable fuel' (height pt - 1) (Some (pt_pp pt)) pm in
               let pt' := set_childTables (<[tableIndex := newPt]> (childTables pt)) pt in
               let! pm'' := writeToDisk pt' pm' in
               Ok (pt', pm'')
           end in
        match childTables pt1 !! tableIndex with
        | None => Panic nil_deref
        | Some child =>
            let! (child', pm2) := insertPage_descend fuel' child pageIndex' index pp pm1 in
            Ok (set_childTables (<[tableIndex := child']> (childTables pt1)) pt1, pm2)
        end
      else
        if Z.of_nat (size (childPages pt)) =? numPageEntries
        then Panic "We shouldn't insert if childPages is already full"
        else if (0 <? Z.of_nat (size (childPages pt)))
                && negb (bool_decide (is_Some
                     (childPages pt !! wrap_uint64 (Z.rem index numPageEntries - 1))))
        then Panic "Inserting shouldn't create a gap"
        else
          let pt' := set_childPages (<[Z.rem index numPageEntries := pp]> (childPages pt)) pt in
          let! pm' := writeToDisk pt' pm in
          Ok (pt', pm')
  end.

(** [insertPage]. *)
Definition insertPage (fuel : nat) (tp : tieredPage) (index : Z) (pp : ref)
    (pm : PageManager) : result (tieredPage * PageManager) :=
  let! (tp1, pm1) := insertPage_extend fuel tp index pm in
  let! (root', pm2) := insertPage_descend fuel (root tp1) index index pp pm1 in
  Ok (set_root root' tp1, pm2).

(** The loop shared by the two [addPages]: insert [page] at [index], and
    write the entry of the previous root if the root changed.  Nodes are
    told apart by the page they are stored on. *)
Definition addPage (fuel : nat) (tp : tieredPage) (index : Z) (page : ref)
    (pm : PageManager) : result (tieredPage * PageManager) :=
  let root0 := root tp in
  let! (tp1, pm1) := insertPage fuel tp index page pm in
  if negb (Nat.eqb (pt_pp root0) (pt_pp (root tp1))) then
    let bytesUsed := wrap_int64 (wrap_uint64 (maxPages (height root0) * pageSize)) in
    let! rootPg := deref pm1 (pt_pp root0) in
    let! pm2 := writeTieredPageEntry (tp_pp tp1) (height root0) bytesUsed (fileOff rootPg) pm1 in
    Ok (tp1, pm2)
  else Ok (tp1, pm1).

Fixpoint addPages_loop (fuel : nat) (setFull : bool) (tp : tieredPage) (index : Z)
    (pgs : list ref) (pm : PageManager) : result (tieredPage * PageManager) :=
  match pgs with
  | [] => Ok (tp, pm)
  | page :: pgs' =>
      let pm0 := if setFull then set_usedSize page pageSize pm else pm in
      let! (tp1, pm1) := addPage fuel tp index page pm0 in
      addPages_loop fuel setFull tp1 (wrap_uint64 (index + 1)) pgs' pm1
  end.

(** [addPages] of [entryPage]. *)
Definition ep_addPages (fuel : nat) (ep : entryPage) (pgs : list ref)
    (addedBytes : Z) (pm : PageManager) : result (entryPage * PageManager) :=
  if addedBytes =? 0 then Ok (ep, pm)
  else if negb (nextIndex (ep_tp ep) + len pgs =? len (pages (ep_tp ep)))
  then Panic "ep.pages should already contain the updated number of pages"
  else
    let! (tp1, pm1) := addPages_loop fuel false (ep_tp ep) (nextIndex (ep_tp ep)) pgs pm in
    let tp2 := set_tp_usedSize (tp_usedSize tp1 + addedBytes) tp1 in
    let! rootPg := deref pm1 (pt_pp (root tp2)) in
    let! pm2 := writeTieredPageEntry (tp_pp tp2) (height (root tp2)) (tp_usedSize tp2)
                (fileOff rootPg) pm1 in
    Ok (EntryPage tp2 (instanceCounter ep), pm2).

(** [addPages] of [recyclingPage], on the recycler [freePages] of the manager.
    Recycling is switched off for the call and switched on again when it
    returns. *)
Definition rp_addPages (fuel : nat) (pgs : list ref) (pm : PageManager)
  : result PageManager :=
  let rp := freePages pm in
  let pm0 := set_recyclePages false pm in
  let tp0 := set_pages (pages (rp_tp rp) ++ pgs) (rp_tp rp) in
  let! (tp1, pm1) := addPages_loop fuel true tp0 (nextIndex tp0) pgs pm0 in
  let tp2 := set_tp_usedSize (tp_usedSize tp1 + len pgs * pageSize) tp1 in
  let! rootPg := deref pm1 (pt_pp (root tp2)) in
  let! pm2 := writeTieredPageEntry (tp_pp tp2) (height (root tp2)) (tp_usedSize tp2)
              (fileOff rootPg) pm1 in
  Ok (set_recyclePages true (set_freePages (RecyclingPage tp2 (pagesToFree rp)) pm2)).

(** ** entry.go: seek and Seek *)

(** [seek]: the two cursor cells are passed in and the new ones returned. *)
Definition seek (e : Entry) (offset cursorPage cursorOff : Z) : result (Z * Z) :=
  let pos := add64 (add64 (mul64 cursorPage pageSize) cursorOff) offset in
  if pos <? 0 then Err ErrNegativeSeek
  else
    let cursorPageNew := Z.quot pos pageSize in
    let cursorOffNew := Z.rem pos pageSize in
    if cursorPageNew >=? len (entry_pages e)
    then Ok (len (entry_pages e), 0)
    else Ok (cursorPageNew, cursorOffNew).

Definition SeekStart : Z := 0.
Definition SeekCurrent : Z := 1.
Definition SeekEnd : Z := 2.

(** The starting point that [Seek] picks for a [whence]. *)
Definition seek_base (e : Entry) (whence : Z) : Z * Z :=
  if whence =? SeekStart then (0, 0)
  else if whence =? SeekCurrent then (cursorPage e, cursorOff e)
  else if whence =? SeekEnd then (len (entry_pages e), 0)
  else (0, 0).

(** [Seek] returns its result together with the entry after the call. *)
Definition Seek (e : Entry) (offset whence : Z) : result Z * Entry :=
  let '(pageNum, pageOff) := seek_base e whence in
  match seek e offset pageNum pageOff with
  | Ok (pageNum', pageOff') =>
      let e' := {| ep := ep e; cursorOff := pageOff'; cursorPage := pageNum' |} in
      (Ok (add64 (mul64 (cursorPage e') pageSize) (cursorOff e')), e')
  | Err err => (Err err, e)
  | Panic msg => (Panic msg, e)
  | OutOfFuel => (OutOfFuel, e)
  end.

(** ** entry.go: read *)

(** [l[i]] for an [int64] index. *)
Definition index {A : Type} (l : list A) (i : Z) : option A :=
  if i <? 0 then None else l !! Z.to_nat i.

(** What [read] leaves behind: the two results [n] and [err], the buffer
    [p] of the caller, and the two cursor cells. *)
Record readResult : Type := MkReadResult {
  rd_n : Z;
  rd_err : option error;
  rd_p : list Z;
  rd_cursorPage : Z;
  rd_cursorOff : Z
}.

(** The loop of [read].  [p] has as many bytes as its capacity; [readData]
    keeps the length of [p] in every round, as in the source. *)
Fixpoint read_loop (fuel : nat) (e : Entry) (p readData : list Z)
    (bytesToRead copyDest : Z) (cursorPage cursorOff : Z) (pm : PageManager)
  : result readResult :=
  match fuel with
  | O => OutOfFuel
  | S fuel' =>
      if (bytesToRead >? 0) && negb (cursorPage >=? len (entry_pages e)) then
        match index (entry_pages e) cursorPage with
        | None => Panic index_out_of_range
        | Some r =>
            match pp_readAt r (len readData) cursorOff pm with
            | Err err => Ok (MkReadResult 0 (Some err) p cursorPage cursorOff)
            | Panic msg => Panic msg
            | OutOfFuel => OutOfFuel
            | Ok (bytesRead, data) =>
                let readData' := data ++ drop (Z.to_nat bytesRead) readData in
                let bytesToRead' := bytesToRead - bytesRead in
                match seek e bytesRead cursorPage cursorOff with
                | Err err => Ok (MkReadResult 0 (Some err) p cursorPage cursorOff)
                | Panic msg => Panic msg
                | OutOfFuel => OutOfFuel
                | Ok (cursorPage', cursorOff') =>
                    if copyDest + bytesRead >? len p then Panic slice_out_of_range
                    else
                      let p' := take (Z.to_nat copyDest) p
                                ++ take (Z.to_nat bytesRead) readData'
                                ++ drop (Z.to_nat (copyDest + bytesRead)) p in
                      read_loop fuel' e p' readData' bytesToRead' (copyDest + bytesRead)
                        cursorPage' cursorOff' pm
                end
            end
        end
      else if copyDest =? 0
      then Ok (MkReadResult 0 (Some EOF) p cursorPage cursorOff)
      else Ok (MkReadResult copyDest None p cursorPage cursorOff)
  end.

(** [read]. *)
Definition read (fuel : nat) (e : Entry) (p : list Z) (cursorPage cursorOff : Z)
    (pm : PageManager) : result readResult :=
  if len (entry_pages e) =? 0
  then Ok (MkReadResult 0 (Some EOF) p cursorPage cursorOff)
  else read_loop fuel e p (replicate (length p) 0) (len p) 0 cursorPage cursorOff pm.

(** [Read]: the cursor cells are the fields of the entry. *)
Definition Read (fuel : nat) (e : Entry) (p : list Z) (pm : PageManager)
  : result (Z * option error * list Z * Entry) :=
  let! r := read fuel e p (cursorPage e) (cursorOff e) pm in
  Ok (rd_n r, rd_err r, rd_p r,
      {| ep := ep e; cursorOff := rd_cursorOff r; cursorPage := rd_cursorPage r |}).

(** [ReadAt]: the cursor cells are local. *)
Definition ReadAt (fuel : nat) (e : Entry) (p : list Z) (off : Z) (pm : PageManager)
  : result (Z * option error * list Z) :=
  match seek e off 0 0 with
  | Err err => Ok (0, Some err, p)
  | Panic msg => Panic msg
  | OutOfFuel => OutOfFuel
  | Ok (cursorPage, cursorOff) =>
      let! r := read fuel e p cursorPage cursorOff pm in
      Ok (rd_n r, rd_err r, rd_p r)
  end.

(** ** entry.go: write *)

Record writeResult : Type := MkWriteResult {
  wr_n : Z;
  wr_err : option error;
  wr_e : Entry;
  wr_cursorPage : Z;
  wr_cursorOff : Z;
  wr_pm : PageManager
}.

Definition set_entry_tp (tp : tieredPage) (e : Entry) : Entry :=
  {| ep := EntryPage tp (instanceCounter (ep e));
     cursorOff := cursorOff e; cursorPage := cursorPage e |}.

(** The test at the head of the loop of [write]: are we going to add a new
    page or extend the last page? *)
Definition mustAppend (e : Entry) (cursorPage cursorOff bytesToWrite : Z)
    (pm : PageManager) : result bool :=
  if cursorPage >=? len (entry_pages e) then Ok true
  else if cursorPage =? len (entry_pages e) - 1 then
    match index (entry_pages e) cursorPage with
    | None => Panic index_out_of_range
    | Some r =>
        let! pg := deref pm r in
        Ok (cursorOff + bytesToWrite >? usedSize pg)
    end
  else Ok false.

(** The loop of [write]; [bCursorPage] and [bCursorOff] are the backup of
    the cursor cells. *)
Fixpoint write_loop (fuel : nat) (p : list Z) (bCursorPage bCursorOff : Z)
    (e : Entry) (bytesToWrite byteIncrease : Z) (addedPages : list ref)
    (writeCursor : Z) (appending : bool) (cursorPage cursorOff : Z)
    (pm : PageManager)
  : result (option error * Entry * Z * list ref * Z * Z * PageManager) :=
  match fuel with
  | O => OutOfFuel
  | S fuel' =>
      if bytesToWrite >? 0 then
        let! restart :=
          if appending then Ok false
          else mustAppend e cursorPage cursorOff bytesToWrite pm in
        if (restart : bool) then
          write_loop fuel' p bCursorPage bCursorOff e (len p) 0 [] 0 true
            bCursorPage bCursorOff pm
        else if cursorPage >=? len (entry_pages e) then
          match managedAllocatePage fuel' pm with
          | Err err => Ok (Some err, e, byteIncrease, addedPages, cursorPage, cursorOff, pm)
          | Panic msg => Panic msg
          | OutOfFuel => OutOfFuel
          | Ok (newPage, pm1) =>
              let addedPages' := addedPages ++ [newPage] in
              let e' := set_entry_tp (set_pages (entry_pages e ++ [newPage]) (ep_tp (ep e))) e in
              if cursorPage >=? len (entry_pages e') then
                write_loop fuel' p bCursorPage bCursorOff e' bytesToWrite
                  (byteIncrease + pageSize) addedPages' writeCursor appending
                  cursorPage cursorOff (set_usedSize newPage pageSize pm1)
              else
                write_loop fuel' p bCursorPage bCursorOff e' bytesToWrite
                  byteIncrease addedPages' writeCursor appending cursorPage cursorOff pm1
          end
        else
          match index (entry_pages e) cursorPage with
          | None => Panic index_out_of_range
          | Some page =>
              let! pg := deref pm page in
              let usedPageSize := usedSize pg in
              let! (bytesWritten, pm1) :=
                pp_writeAt page (drop (Z.to_nat writeCursor) p) cursorOff pm in
              let! pg' := deref pm1 page in
              let byteIncrease' := byteIncrease + (usedSize pg' - usedPageSize) in
              let bytesToWrite' := bytesToWrite - bytesWritten in
              match seek e bytesWritten cursorPage cursorOff with
              | Err err => Ok (Some err, e, byteIncrease', addedPages, cursorPage, cursorOff, pm1)
              | Panic msg => Panic msg
              | OutOfFuel => OutOfFuel
              | Ok (cursorPage', cursorOff') =>
                  write_loop fuel' p bCursorPage bCursorOff e bytesToWrite' byteIncrease'
                    addedPages (writeCursor + bytesWritten) appending
                    cursorPage' cursorOff' pm1
              end
          end
      else Ok (None, e, byteIncrease, addedPages, cursorPage, cursorOff, pm)
  end.

(** [write]. *)
Definition write (fuel : nat) (e : Entry) (p : list Z) (cursorPage cursorOff : Z)
    (pm : PageManager) : result writeResult :=
  let! (err, e1, byteIncrease, addedPages, cursorPage', cursorOff', pm1) :=
    write_loop fuel p cursorPage cursorOff e (len p) 0 [] 0 false cursorPage cursorOff pm in
  match err with
  | Some err => Ok (MkWriteResult 0 (Some err) e1 cursorPage' cursorOff' pm1)
  | None =>
      match ep_addPages fuel (ep e1) addedPages byteIncrease pm1 with
      | Err err => Ok (MkWriteResult 0 (Some err) e1 cursorPage' cursorOff' pm1)
      | Panic msg => Panic msg
      | OutOfFuel => OutOfFuel
      | Ok (ep', pm2) =>
          Ok (MkWriteResult (len p) None (set_entry_tp (ep_tp ep') e1)
                cursorPage' cursorOff' pm2)
      end
  end.

(** [Write]: the cursor cells are the fields of the entry. *)
Definition Write (fuel : nat) (e : Entry) (p : list Z) (pm : PageManager)
  : result (Z * option error * Entry * PageManager) :=
  let! r := write fuel e p (cursorPage e) (cursorOff e) pm in
  Ok (wr_n r, wr_err r,
      {| ep := ep (wr_e r); cursorOff := wr_cursorOff r; cursorPage := wr_cursorPage r |},
      wr_pm r).

(** [WriteAt]: the cursor cells are local. *)
Definition WriteAt (fuel : nat) (e : Entry) (p : list Z) (off : Z) (pm : PageManager)
  : result (Z * option error * Entry * PageManager) :=
  match seek e off 0 0 with
  | Err err => Ok (0, Some err, e, pm)
  | Panic msg => Panic msg
  | OutOfFuel => OutOfFuel
  | Ok (cursorPage, cursorOff) =>
      let! r := write fuel e p cursorPage cursorOff pm in
      Ok (wr_n r, wr_err r, wr_e r, wr_pm r)
  end.

(** [Truncate]. *)
Definition Truncate (fuel : nat) (e : Entry) (size' : Z) (pm : PageManager)
  : result (Entry * PageManager) :=
  let tp := ep_tp (ep e) in
  let! (_, pagesToFree1, root', tp1, pm1) := recursiveTruncate fuel tp (root tp) size' pm in
  let tp2 := set_root root' tp1 in
  let! (pagesToFree2, tp3, pm2) := defrag fuel tp2 pm1 in
  let! pm3 := rp_addPages fuel (pagesToFree1 ++ pagesToFree2) pm2 in
  Ok (set_entry_tp tp3 e, pm3).

(** ** tieredpage.go: recovery *)

(** [unmarshalPageTable]. *)
Definition unmarshalPageTable (data : list Z) : result (list Z) :=
  if len data <? 8 then Panic "input data is too shot"
  else
    let numEntries := Binary.Uint64 (slice data 0 8) in
    if numEntries >? numPageEntries
    then Panic "Sanity check failed. numEntries > numPageEntries"
    else if len (drop 8 data) <? wrap_uint64 (numEntries * 8)
    then Panic "Sanity check failed. remaining data too short"
    else
      mapM (fun i =>
              let '(offset, bytesRead) := Binary.Varint (slice data (8 + 8 * i) (8 + 8 * i + 8)) in
              if (offset =? 0) && (bytesRead <=? 0) then Err ErrUnmarshal else Ok offset)
           (upto numEntries).

(** [readPageTable]: the buffer has [pageSize] zero bytes before the read. *)
Definition readPageTable (pp : ref) (pm : PageManager) : result (list Z) :=
  let! (n, data) := pp_readAt pp pageSize 0 pm in
  unmarshalPageTable (data ++ replicate (Z.to_nat (pageSize - n)) 0).

(** [recursiveRecovery]; the inner function is its loop over [entries]. *)
Fixpoint recursiveRecovery (fuel : nat) (parent : pageTable) (height : Z)
    (remainingBytes : Z) (pm : PageManager)
  : result (list ref * pageTable * Z * PageManager) :=
  match fuel with
  | O => OutOfFuel
  | S fuel' =>
      let! entries := readPageTable (pt_pp parent) pm in
      (fix loop (entries : list Z) (parent : pageTable) (pages : list ref)
           (remainingBytes : Z) (pm : PageManager) {struct entries}
         : result (list ref * pageTable * Z * PageManager) :=
         match entries with
         | [] => Ok (pages, parent, remainingBytes, pm)
         | offset :: entries' =>
             let '(pp, pm1) := new_object {| fileOff := offset; usedSize := pageSize |} pm in
             if height >? 0 then
               let pt := PageTable height (Some (pt_pp parent)) ∅ ∅ pp in
               let! (p, pt', remainingBytes', pm2) :=
                 recursiveRecovery fuel' pt (height - 1) remainingBytes pm1 in
               loop entries'
                 (set_childTables
                    (<[wrap_uint64 (Z.of_nat (size (childTables parent)) - 1) := pt']>
                       (childTables parent)) parent)
                 (pages ++ p) remainingBytes' pm2
             else if height =? 0 then
               let '(u, remainingBytes') :=
                 if remainingBytes >? pageSize
                 then (pageSize, remainingBytes - pageSize)
                 else (remainingBytes, 0) in
               let pm2 := set_usedSize pp u pm1 in
               loop entries'
                 (set_childPages
                    (<[wrap_uint64 (Z.of_nat (size (childPages parent)) - 1) := pp]>
                       (childPages parent)) parent)
                 (pages ++ [pp]) remainingBytes' pm2
             else Panic "Sanity check failed. Height cannot be a negative value"
         end) entries parent [] remainingBytes pm
  end.

(** [recoverTree]. *)
Definition recoverTree (fuel : nat) (tp : tieredPage) (rootOff height : Z)
    (pm : PageManager) : result (tieredPage * PageManager) :=
  let '(pp, pm1) := new_object {| fileOff := rootOff; usedSize := pageSize |} pm in
  let root0 := PageTable height None ∅ ∅ pp in
  let! (pages', root', _, pm2) := recursiveRecovery fuel root0 height (tp_usedSize tp) pm1 in
  Ok (TieredPage root' (tp_pp tp) (tp_usedSize tp) pages', pm2).

(** ** Notions used in the statements *)

(** The position [Seek] resolves, as the source computes it in [int64]. *)
Definition resolved (e : Entry) (delta whence : Z) : Z :=
  add64 (add64 (mul64 (fst (seek_base e whence)) pageSize) (snd (seek_base e whence))) delta.

(** Every page of the entry is an object on the heap. *)
Definition pages_allocated (e : Entry) (pm : PageManager) : Prop :=
  forall r, r ∈ entry_pages e -> is_Some (pm_heap pm !! r).

(** The shape [defrag] is meant to leave the root in. *)
Definition root_defragmented (tp : tieredPage) : Prop :=
  height (root tp) = 0 \/ (1 < size (childTables (root tp)))%nat.

(** *** Well-formed trees *)

(** [dense m l]: the keys of the map [m] are the prefix [0 .. len l - 1]
    of the slot indices, and slot [i] holds the [i]-th element of [l]. *)
Definition dense {A : Type} (m : gmap Z A) (l : list A) : Prop :=
  forall i : Z, m !! i = index l i.

(** The child slots of [pt] form a prefix of the slot indices. *)
Definition dense_prefix (pt : pageTable) : Prop :=
  if height pt =? 0 then exists l, dense (childPages pt) l
  else exists l, dense (childTables pt) l.

(** [wf_node N P h pt ps]: [pt] is a node of height [h] that is not
    empty, every node below it has its children in a dense prefix of at most
    [numPageEntries] slots, every child but the last is full, and [ps] are
    its data pages from left to right.  [N] holds of the pages that store
    nodes and [P] of the data pages. *)
Inductive wf_node (N P : ref -> Prop) : Z -> pageTable -> list ref -> Prop :=
| wf_leaf (pt : pageTable) (ps : list ref) :
    height pt = 0 -> N (pt_pp pt) ->
    dense (childPages pt) ps -> ps <> [] -> len ps <= numPageEntries ->
    Forall P ps ->
    wf_node N P 0 pt ps
| wf_inner (h : Z) (pt : pageTable) (cs : list pageTable) (pss : list (list ref)) :
    0 < h -> height pt = h -> N (pt_pp pt) ->
    dense (childTables pt) cs -> cs <> [] -> len cs <= numPageEntries ->
    Forall2 (wf_node N P (h - 1)) cs pss ->
    Forall (fun ps => len ps = maxPages (h - 1)) (removelast pss) ->
    wf_node N P h pt (concat pss).

(** The node has no child in the map that its height selects. *)
Definition no_children (pt : pageTable) : Prop :=
  if height pt =? 0 then childPages pt = ∅ else childTables pt = ∅.

(** The root may be empty. *)
Definition wf_root (N P : ref -> Prop) (pt : pageTable) (ps : list ref) : Prop :=
  (ps = [] /\ 0 <= height pt /\ N (pt_pp pt) /\ no_children pt)
  \/ wf_node N P (height pt) pt ps.

(** The objects of the heap lie at offsets that fit the slot of a varint. *)
Definition encodable (pm : PageManager) : Prop :=
  forall r pg, pm_heap pm !! r = Some pg -> 0 <= fileOff pg < 2 ^ 55.

Definition allocated (pm : PageManager) (r : ref) : Prop :=
  is_Some (pm_heap pm !! r).

(** [usedSize] of the page behind [r]. *)
Definition used (pm : PageManager) (r : ref) : Z :=
  match pm_heap pm !! r with
  | Some pg => usedSize pg
  | None => 0
  end.

Definition sum_used (pm : PageManager) (ps : list ref) : Z :=
  foldr (fun r acc => used pm r + acc) 0 ps.

(** What truncation to [size'] does to the pages, seen from the last page
    backwards: the [usedSize] of the tiered page afterwards, the number of
    pages removed, and the new [usedSize] of the page that is cut short. *)
Fixpoint cut (size' : Z) (U : Z) (rev_us : list Z) : Z * nat * option Z :=
  match rev_us with
  | [] => (U, 0%nat, None)
  | u :: rest =>
      if U <=? size' then (U, 0%nat, None)
      else if U - size' <? u then (size', 0%nat, Some (u - (U - size')))
      else let '(U', n, s) := cut size' (U - u) rest in (U', S n, s)
  end.

(** [pm'] has every object of [pm], at the same offset, and no other. *)
Definition same_offsets (pm pm' : PageManager) : Prop :=
  forall r, fileOff <$> (pm_heap pm' !! r) = fileOff <$> (pm_heap pm !! r).

(** [pm'] has the objects of [pm] behind the references in [P]. *)
Definition same_on (P : ref -> Prop) (pm pm' : PageManager) : Prop :=
  forall r, P r -> pm_heap pm' !! r = pm_heap pm !! r.

(** The manager after the page that truncation cuts short, the last of
    [kept], has got its new [usedSize]. *)
Definition shrunk (s : option Z) (kept : list ref) (pm : PageManager) : PageManager :=
  match s, last kept with
  | Some v, Some r => set_usedSize r v pm
  | _, _ => pm
  end.

(** The heap has the node pages [N] and the data pages [P], at encodable
    offsets. *)
Definition heap_ok (N P : ref -> Prop) (pm : PageManager) : Prop :=
  encodable pm /\ (forall r, N r -> allocated pm r) /\ (forall r, P r -> allocated pm r).

(** What holds of the result [res] of truncating, to [size'], the node [pt]
    of height [h] whose pages [ps] are the last pages of the tiered page
    [tp], after the pages [pre]: [cut] tells the new size, the number [n]
    of pages removed and the page cut short; the node keeps the other
    pages, or comes back empty; the pages to free are added to [acc], the
    last page first. *)
Definition truncate_post (N P : ref -> Prop) (size' : Z) (h : Z) (pt : pageTable)
    (ps pre acc : list ref) (tp : tieredPage) (pm : PageManager)
    (res : truncated) : Prop :=
  let '(b, freed, pt', tp', pm') := res in
  let '(U', n, s) := cut size' (tp_usedSize tp) (rev (map (used pm) ps)) in
  let k := (length ps - n)%nat in
  b = bool_decide (k = 0%nat) /\
  tp' = TieredPage (root tp) (tp_pp tp) U' (pre ++ take k ps) /\
  (k <> 0%nat -> wf_node N P h pt' (take k ps)) /\
  (k = 0%nat -> no_children pt') /\
  pt_pp pt' = pt_pp pt /\ height pt' = height pt /\ parent pt' = parent pt /\
  same_offsets pm pm' /\ same_on P (shrunk s (take k ps) pm) pm' /\
  exists freed0, freed = acc ++ freed0 /\
    (n = 0%nat -> freed0 = []) /\
    (n <> 0%nat -> hd_error freed0 = last ps) /\
    (h = 0 -> freed0 = rev (drop k ps)).

(** The same for the root [root tp] of a tiered page, which may be empty
    before and after. *)
Definition truncate_root_post (N P : ref -> Prop) (size' : Z) (tp : tieredPage)
    (pm : PageManager) (res : truncated) : Prop :=
  let '(b, freed, pt', tp', pm') := res in
  let ps := pages tp in
  let '(U', n, s) := cut size' (tp_usedSize tp) (rev (map (used pm) ps)) in
  let k := (length ps - n)%nat in
  tp' = TieredPage (root tp) (tp_pp tp) U' (take k ps) /\
  wf_root N P pt' (take k ps) /\
  pt_pp pt' = pt_pp (root tp) /\ height pt' = height (root tp) /\
  parent pt' = parent (root tp) /\
  same_offsets pm pm' /\ same_on P (shrunk s (take k ps) pm) pm' /\
  (n = 0%nat -> freed = []) /\
  (n <> 0%nat -> hd_error freed = last ps) /\
  (height (root tp) = 0 -> freed = rev (drop k ps)).

(** *** The recycler *)

(** [n] calls of [freePage], with the pages they return in order. *)
Fixpoint freePages_n (fuel : nat) (n : nat) (rp : recyclingPage) (pm : PageManager)
  : result (list ref * recyclingPage * PageManager) :=
  match n with
  | O => Ok ([], rp, pm)
  | S n' =>
      let! (p, rp', pm') := freePage fuel rp pm in
      let! (ps, rp'', pm'') := freePages_n fuel n' rp' pm' in
      Ok (p :: ps, rp'', pm'')
  end.

(** A well-formed recycler: a well-formed tree over the page list, whose
    pages are pairwise distinct and count as full, with [usedSize] the
    number of pages times [pageSize]; the descriptor page is among the node
    pages [N], which are apart from the data pages [P]. *)
Definition wf_recycler (N P : ref -> Prop) (rp : recyclingPage) (pm : PageManager) : Prop :=
  (forall r, N r -> P r -> False) /\
  wf_root N P (root (rp_tp rp)) (pages (rp_tp rp)) /\
  heap_ok N P pm /\
  N (tp_pp (rp_tp rp)) /\
  NoDup (pages (rp_tp rp)) /\
  Forall (fun r => used pm r = pageSize) (pages (rp_tp rp)) /\
  tp_usedSize (rp_tp rp) = len (pages (rp_tp rp)) * pageSize /\
  tp_usedSize (rp_tp rp) < 2 ^ 55.

(** The pages that come back when [new] is added to the recycler of [pm]
    and as many pages are taken from it. *)
Definition add_then_free (fuel : nat) (new : list ref) (pm : PageManager)
  : result (list ref) :=
  let! pm1 := rp_addPages fuel new pm in
  let! (out, _, _) := freePages_n fuel (length new) (freePages pm1) pm1 in
  Ok out.

(** *** The file under the pages *)

(** The byte offset [x] lies in the page behind [r]. *)
Definition in_page (pm : PageManager) (r : ref) (x : Z) : Prop :=
  exists pg, pm_heap pm !! r = Some pg /\ fileOff pg <= x < fileOff pg + pageSize.

(** From [pm] to [pm'] the file changed inside the pages in [R] only. *)
Definition file_same_outside (R : ref -> Prop) (pm pm' : PageManager) : Prop :=
  forall x, (forall r, R r -> ~ in_page pm r x) -> pm_file pm' x = pm_file pm x.

(** The fields of the manager other than the file and the heap. *)
Definition same_manager (pm pm' : PageManager) : Prop :=
  pm_nextRef pm' = pm_nextRef pm /\ pm_fileSize pm' = pm_fileSize pm /\
  recyclePages pm' = recyclePages pm /\ freePages pm' = freePages pm.

End Engine.


(** ** Constants for the examples

    The values of the scenarios of the specification, and small values that
    keep trees of height two within reach of evaluation. *)

Definition scenarioConstants : Constants :=
  {| pageSize := 4096; numPageEntries := 504; tieredPageEntrySize := 16 |}.

Definition smallConstants : Constants :=
  {| pageSize := 32; numPageEntries := 3; tieredPageEntrySize := 16 |}.

(** Two ways of reporting the short read: [eofAtEnd] reports [io.EOF] only
    once nothing is left to read, [eofWhenShort] whenever the buffer is not
    filled. *)
Definition eofAtEnd : ShortRead.
Proof.
  refine {| shortRead := fun buflen _ n => (0 <? buflen) && (n =? 0) |}.
  - intros buflen _ n H. destruct (Z.eqb_spec n 0) as [-> |]; [| apply andb_false_r].
    apply andb_false_iff. left. by apply Z.ltb_ge.
  - intros buflen _ H. apply andb_true_iff. split; [by apply Z.ltb_lt | done].
Defined.

Definition eofWhenShort : ShortRead.
Proof.
  refine {| shortRead := fun buflen _ n => n <? buflen |}.
  - intros buflen _ n H. by apply Z.ltb_ge.
  - intros buflen _ H. by apply Z.ltb_lt.
Defined.

(** A manager whose file has [n] pages, each with its object on the heap
    (object [i] at offset [i * pageSize]), and whose recycler has the
    descriptor page 0 and the root node page 1. *)
Definition freshHeap {C : Constants} (n : nat) : gmap ref physicalPage :=
  list_to_map (map (fun i => (i, PhysicalPage (Z.of_nat i * pageSize) 0)) (seq 0 n)).

Definition freshManager {C : Constants} (n : nat) : PageManager :=
  MkPageManager (fun _ => 0) (Z.of_nat n * pageSize) (freshHeap n) n true
    (RecyclingPage (TieredPage (PageTable 0 None ∅ ∅ 1%nat) 0%nat 0 []) []).

(** A new entry on the descriptor page 2 with the root node page 3. *)
Definition freshEntry : Entry :=
  MkEntry (EntryPage (TieredPage (PageTable 0 None ∅ ∅ 3%nat) 2%nat 0 []) 1) 0 0.

(** A tiered page whose root has height one and no child, as [Truncate(0)]
    leaves it behind when the tree had grown. *)
Definition emptyTallPage : tieredPage :=
  TieredPage (PageTable 1 None ∅ ∅ 3%nat) 2%nat 0 [].

(** An entry with the single page 4, of which ten bytes are in use, and a
    manager for it. *)
Definition onePageEntry : Entry :=
  MkEntry (EntryPage (TieredPage (PageTable 0 None ∅ {[0 := 4%nat]} 3%nat) 2%nat 10 [4%nat]) 1)
    0 0.

Definition onePageManager {C : Constants} (n : nat) : PageManager :=
  set_usedSize 4%nat 10 (freshManager n).

(** ** Further functions of the package *)

Section Codec.
Context {C : Constants} {SR : ShortRead}.

(** [Size] of pagetable.go, in [uint32]. *)
Definition Size (pt : pageTable) : Z :=
  let children := numChildren pt mod 2 ^ 32 in
  (4 + 4 + 8 * children) mod 2 ^ 32.

(** [readEntryPageEntry] of tieredpage.go.  The three results are named in
    the source, so an early return hands back what was assigned so far;
    [err] is the message of the error, if any.  The buffer has
    [tieredPageEntrySize] zero bytes before the read. *)
Definition readEntryPageEntry (pp : ref) (index : Z) (pm : PageManager)
  : result (Z * Z * option string) :=
  let! (n, data) := pp_readAt pp tieredPageEntrySize (mul64 index tieredPageEntrySize) pm in
  let entryData := data ++ replicate (Z.to_nat (tieredPageEntrySize - n)) 0 in
  let '(usedBytes, bytesRead) := Binary.Varint (slice entryData 0 8) in
  if (usedBytes =? 0) && (bytesRead <=? 0)
  then Ok (usedBytes, 0, Some "Failed to unmarshal usedBytes"%string)
  else
    let '(pageOff, bytesRead') := Binary.Varint (drop 8 entryData) in
    if (pageOff =? 0) && (bytesRead' <=? 0)
    then Ok (usedBytes, pageOff, Some "Failed to unmarshal entryData"%string)
    else Ok (usedBytes, pageOff, None).

(** The manager after [allocatePage] has taken a new page at the end of the
    file. *)
Definition grown (pm : PageManager) : PageManager :=
  MkPageManager (pm_file pm) (pm_fileSize pm + pageSize)
    (<[pm_nextRef pm := {| fileOff := pm_fileSize pm; usedSize := 0 |}]> (pm_heap pm))
    (S (pm_nextRef pm)) (recyclePages pm) (freePages pm).

(** Every page object lies inside the file. *)
Definition inside_file (pm : PageManager) : Prop :=
  forall r pg, pm_heap pm !! r = Some pg ->
    0 <= fileOff pg /\ fileOff pg + pageSize <= pm_fileSize pm.

(** The loop of [recursiveRecovery] over [entries] at height zero, where
    it does not call itself: the same steps as the loop inside
    [recursiveRecovery], under a name. *)
Fixpoint recoverLeafLoop (entries : list Z) (parent : pageTable) (pages : list ref)
    (remainingBytes : Z) (pm : PageManager)
  : result (list ref * pageTable * Z * PageManager) :=
  match entries with
  | [] => Ok (pages, parent, remainingBytes, pm)
  | offset :: entries' =>
      let '(pp, pm1) := new_object {| fileOff := offset; usedSize := pageSize |} pm in
      let '(u, remainingBytes') :=
        if remainingBytes >? pageSize
        then (pageSize, remainingBytes - pageSize)
        else (remainingBytes, 0) in
      let pm2 := set_usedSize pp u pm1 in
      recoverLeafLoop entries'
        (set_childPages
           (<[wrap_uint64 (Z.of_nat (size (childPages parent)) - 1) := pp]>
              (childPages parent)) parent)
        (pages ++ [pp]) remainingBytes' pm2
  end.

(** The slots after recovery: the first element of [l] under the key
    [2^64 - 1], and the element [k + 1] under the key [k]. *)
Definition shifted {A : Type} (m : gmap Z A) (l : list A) : Prop :=
  forall k : Z,
    m !! k = if k =? 2 ^ 64 - 1 then index l 0
             else if k <? 0 then None else index l (k + 1).

(** [fileOff] of the page behind [r]. *)
Definition offset_of (pm : PageManager) (r : ref) : Z :=
  match pm_heap pm !! r with
  | Some pg => fileOff pg
  | None => 0
  end.

(** The pages that the slots of the node [pt] point to, in slot order: its
    child pages, or the pages its child nodes are stored on. *)
Definition slot_pages (pt : pageTable) (rs : list ref) : Prop :=
  if height pt =? 0 then dense (childPages pt) rs
  else exists cs, dense (childTables pt) cs /\ rs = map pt_pp cs.

(** A slot of eight bytes that [binary.Varint] decodes to [x]. *)
Definition slot_for (x : Z) (bs : list Z) : Prop :=
  length bs = 8%nat /\ exists n, Binary.Varint bs = (x, n) /\ 0 < n.

End Codec.

(** ** More concrete states *)

(** An entry of two full pages, 4 and 5. *)
Definition twoPageEntry : Entry :=
  MkEntry (EntryPage (TieredPage (PageTable 0 None ∅ (<[1 := 5%nat]> {[0 := 4%nat]}) 3%nat)
                        2%nat 8192 [4%nat; 5%nat]) 1) 0 0.

(** A tiered page whose leaf root holds the three pages 4, 5 and 6: a full
    leaf under [smallConstants]. *)
Definition threePageTiered : tieredPage :=
  TieredPage (PageTable 0 None ∅ (<[2 := 6%nat]> (<[1 := 5%nat]> {[0 := 4%nat]})) 3%nat)
    2%nat 96 [4%nat; 5%nat; 6%nat].

(** A tiered page of height one under [smallConstants]: the root on page 3
    with the leaf on page 1 as its only child, which holds the pages 4
    and 5. *)
Definition tallTiered : tieredPage :=
  TieredPage
    (PageTable 1 None
       {[0 := PageTable 0 (Some 3%nat) ∅ (<[1 := 5%nat]> {[0 := 4%nat]}) 1%nat]} ∅ 3%nat)
    2%nat 64 [4%nat; 5%nat].

(** A manager whose file holds, at the place of page 3, the table of a
    leaf with the one entry 16384. *)
Definition leafOnDisk {C : Constants} : PageManager :=
  set_file (file_write (fun _ => 0) 12288 (Binary.PutUint64 1 ++ [128; 128; 2; 0; 0; 0; 0; 0]))
    (freshManager 4).


(** A recycler whose leaf root, on page 1, holds the one page 4, and a
    manager in which that page counts as full. *)
Definition onePageRecycler {C : Constants} : recyclingPage :=
  RecyclingPage (TieredPage (PageTable 0 None ∅ {[0 := 4%nat]} 1%nat) 0%nat pageSize [4%nat]) [].

Definition fullPageManager {C : Constants} (n : nat) : PageManager :=
  set_usedSize 4%nat pageSize (freshManager n).

(** [insertPage] for the pages [pps], one after the other, at the indices
    [index], [index + 1], and so on. *)
Fixpoint insertPages {C : Constants} (fuel : nat) (tp : tieredPage) (index : Z)
    (pps : list ref) (pm : PageManager) : result (tieredPage * PageManager) :=
  match pps with
  | [] => Ok (tp, pm)
  | pp :: rest =>
      let! (tp', pm') := insertPage fuel tp index pp pm in
      insertPages fuel tp' (index + 1) rest pm'
  end.
(** * Properties *)

(** Boolean comparisons in the hypotheses, as propositions. *)
Ltac zbool :=
  repeat match goal with
  | H : context [Z.gtb _ _] |- _ => rewrite Z.gtb_ltb in H
  | H : context [Z.geb _ _] |- _ => rewrite Z.geb_leb in H
  | H : Z.ltb _ _ = true |- _ => apply Z.ltb_lt in H
  | H : Z.ltb _ _ = false |- _ => apply Z.ltb_ge in H
  | H : Z.leb _ _ = true |- _ => apply Z.leb_le in H
  | H : Z.leb _ _ = false |- _ => apply Z.leb_gt in H
  | H : Z.eqb _ _ = true |- _ => apply Z.eqb_eq in H
  | H : Z.eqb _ _ = false |- _ => apply Z.eqb_neq in H
  end.

(** ** Fixed-width arithmetic *)

Lemma wrap_int64_range (z : Z) : in_int64 (wrap_int64 z).
Proof.
  unfold in_int64, wrap_int64.
  pose proof (Z.mod_pos_bound (z + 2 ^ 63) (2 ^ 64) ltac:(lia)). lia.
Qed.

Lemma wrap_int64_small (z : Z) : in_int64 z -> wrap_int64 z = z.
Proof.
  unfold in_int64, wrap_int64. intros H.
  rewrite Z.mod_small by lia. lia.
Qed.

Lemma wrap_int64_idemp_add (a b : Z) : wrap_int64 (wrap_int64 a + b) = wrap_int64 (a + b).
Proof.
  unfold wrap_int64.
  replace ((a + 2 ^ 63) mod 2 ^ 64 - 2 ^ 63 + b + 2 ^ 63)
    with ((a + 2 ^ 63) mod 2 ^ 64 + b) by lia.
  rewrite Zplus_mod_idemp_l. f_equal. f_equal. lia.
Qed.

Lemma wrap_uint64_small (z : Z) : 0 <= z < 2 ^ 64 -> wrap_uint64 z = z.
Proof. intros H. unfold wrap_uint64. apply Z.mod_small. lia. Qed.

Lemma wrap_uint64_pred_0 : wrap_uint64 (0 - 1) = 2 ^ 64 - 1.
Proof. reflexivity. Qed.

Lemma len_nonneg {A : Type} (l : list A) : 0 <= len l.
Proof. unfold len. lia. Qed.

Lemma len_app {A : Type} (l k : list A) : len (l ++ k) = len l + len k.
Proof. unfold len. rewrite length_app. lia. Qed.

Section SeekProperties.
Context {C : Constants} {SR : ShortRead}.

Lemma resolved_exact (e : Entry) (delta whence : Z) :
  resolved e delta whence
  = wrap_int64 (fst (seek_base e whence) * pageSize + snd (seek_base e whence) + delta).
Proof.
  unfold resolved, add64, mul64.
  rewrite wrap_int64_idemp_add.
  rewrite <- Z.add_assoc, wrap_int64_idemp_add. f_equal. lia.
Qed.

Lemma seek_spec (e : Entry) (offset cp co : Z) :
  0 < pageSize ->
  let pos := add64 (add64 (mul64 cp pageSize) co) offset in
  let n := len (entry_pages e) in
  (pos < 0 -> seek e offset cp co = Err ErrNegativeSeek) /\
  (0 <= pos -> n <= pos / pageSize -> seek e offset cp co = Ok (n, 0)) /\
  (0 <= pos -> pos / pageSize < n ->
   seek e offset cp co = Ok (pos / pageSize, pos mod pageSize)).
Proof.
  intros HP pos n. unfold seek. fold pos. fold n.
  repeat split.
  - intros H. destruct (pos <? 0) eqn:E; [done | lia].
  - intros H1 H2. destruct (pos <? 0) eqn:E; [lia |].
    rewrite Z.quot_div_nonneg by lia.
    destruct (pos / pageSize >=? n) eqn:E2; [done | lia].
  - intros H1 H2. destruct (pos <? 0) eqn:E; [lia |].
    rewrite Z.quot_div_nonneg, Z.rem_mod_nonneg by lia.
    destruct (pos / pageSize >=? n) eqn:E2; [lia | done].
Qed.

(** C6. [Seek(delta, whence)] fails exactly when the resolved byte offset is
    negative and then leaves the entry as it was; otherwise the cursor is
    clamped to [(len(pages), 0)] when the resolved page index reaches
    [len(pages)], is [(resolved / pageSize, resolved mod pageSize)] when it
    does not, and the value returned is [cursorPage * pageSize + cursorOff].
    The resolved offset is the [int64] the source computes, which is the
    mathematical sum whenever that sum is an [int64]. *)
Theorem C6_Seek_resolves_clamps_and_rejects (e : Entry) (delta whence : Z) :
  0 < pageSize ->
  whence = SeekStart \/ whence = SeekCurrent \/ whence = SeekEnd ->
  let base := if whence =? SeekStart then 0
              else if whence =? SeekCurrent then cursorPage e * pageSize + cursorOff e
              else len (entry_pages e) * pageSize in
  let r := resolved e delta whence in
  let n := len (entry_pages e) in
  let e' := snd (Seek e delta whence) in
  (in_int64 (base + delta) -> r = base + delta) /\
  (r < 0 -> fst (Seek e delta whence) = Err ErrNegativeSeek /\ e' = e) /\
  (0 <= r ->
     ep e' = ep e /\
     (n <= r / pageSize -> cursorPage e' = n /\ cursorOff e' = 0) /\
     (r / pageSize < n ->
        cursorPage e' = r / pageSize /\ cursorOff e' = r mod pageSize) /\
     fst (Seek e delta whence) = Ok (cursorPage e' * pageSize + cursorOff e')).
Proof.
  intros HP Hw base r n e'.
  assert (Hbase : fst (seek_base e whence) * pageSize + snd (seek_base e whence) = base).
  { unfold base, seek_base, SeekStart, SeekCurrent, SeekEnd in *.
    destruct Hw as [-> | [-> | ->]]; simpl; lia. }
  assert (Hs : (r < 0 -> seek e delta (fst (seek_base e whence)) (snd (seek_base e whence))
                          = Err ErrNegativeSeek) /\
               (0 <= r -> n <= r / pageSize ->
                seek e delta (fst (seek_base e whence)) (snd (seek_base e whence))
                = Ok (n, 0)) /\
               (0 <= r -> r / pageSize < n ->
                seek e delta (fst (seek_base e whence)) (snd (seek_base e whence))
                = Ok (r / pageSize, r mod pageSize))).
  { exact (seek_spec e delta (fst (seek_base e whence)) (snd (seek_base e whence)) HP). }
  destruct Hs as (Hneg & Hclamp & Hin).
  assert (Hr : in_int64 r).
  { unfold r. rewrite resolved_exact. apply wrap_int64_range. }
  pose proof (len_nonneg (entry_pages e)) as Hn. fold n in Hn.
  split; [| split].
  - intros Hrange. unfold r. rewrite resolved_exact, Hbase.
    apply wrap_int64_small, Hrange.
  - intros Hlt. unfold e', Seek.
    destruct (seek_base e whence) as [pn po]; simpl in *.
    rewrite (Hneg Hlt). done.
  - intros Hge.
    assert (Hdiv : 0 <= r / pageSize) by (apply Z.div_pos; lia).
    assert (Hmul : pageSize * (r / pageSize) <= r) by (apply Z.mul_div_le; lia).
    pose proof (Z.mod_pos_bound r pageSize HP) as Hmod.
    assert (Hnz : pageSize <> 0) by lia.
    pose proof (Z.div_mod r pageSize Hnz) as Hdm.
    unfold in_int64 in Hr.
    destruct (Z_le_gt_dec n (r / pageSize)) as [Hc | Hc].
    + specialize (Hclamp Hge Hc).
      unfold e', Seek.
      destruct (seek_base e whence) as [pn po]; simpl in *.
      rewrite Hclamp; simpl.
      repeat split; try lia.
      f_equal. unfold add64, mul64.
      assert (0 <= n * pageSize <= r) by nia.
      rewrite (wrap_int64_small (n * pageSize)) by (unfold in_int64; lia).
      rewrite wrap_int64_small by (unfold in_int64; lia). done.
    + specialize (Hin Hge ltac:(lia)).
      unfold e', Seek.
      destruct (seek_base e whence) as [pn po]; simpl in *.
      rewrite Hin; simpl.
      repeat split; try lia.
      f_equal. unfold add64, mul64.
      rewrite (wrap_int64_small (r / pageSize * pageSize)) by (unfold in_int64; nia).
      rewrite wrap_int64_small by (unfold in_int64; nia). done.
Qed.

End SeekProperties.

(** ** Reading *)

Section ReadProperties.
Context {C : Constants} {SR : ShortRead}.

Lemma index_Some {A : Type} (l : list A) (i : Z) :
  0 <= i < len l -> exists x, index l i = Some x /\ x ∈ l.
Proof.
  unfold len, index. intros H.
  destruct (i <? 0) eqn:E; [lia |].
  destruct (lookup_lt_is_Some_2 l (Z.to_nat i) ltac:(lia)) as [x Hx].
  exists x. split; [done |]. eapply list_elem_of_lookup_2, Hx.
Qed.

Lemma pp_readAt_at (r : ref) (pg : physicalPage) (buflen off : Z) (pm : PageManager) :
  pm_heap pm !! r = Some pg ->
  pp_readAt r buflen off pm
  = (let n := Z.max 0 (Z.min buflen (Z.min pageSize (usedSize pg) - off)) in
     if shortRead buflen off n then Err EOF
     else Ok (n, file_read (pm_file pm) (fileOff pg + off) n)).
Proof. intros H. unfold pp_readAt, deref. rewrite H. done. Qed.

(** A read inside the used region fills the buffer. *)
Lemma pp_readAt_ok (r : ref) (pg : physicalPage) (buflen off : Z) (pm : PageManager) :
  pm_heap pm !! r = Some pg ->
  0 <= buflen -> off + buflen <= Z.min pageSize (usedSize pg) ->
  pp_readAt r buflen off pm
  = Ok (buflen, file_read (pm_file pm) (fileOff pg + off) buflen).
Proof.
  intros H H0 Hfit. rewrite (pp_readAt_at r pg) by done. cbv zeta.
  replace (Z.max 0 (Z.min buflen (Z.min pageSize (usedSize pg) - off))) with buflen by lia.
  rewrite shortRead_full by lia. done.
Qed.

Lemma length_file_read (f : Z -> Z) (pos n : Z) :
  length (file_read f pos n) = Z.to_nat n.
Proof. unfold file_read. by rewrite length_map, length_seq. Qed.

(** One round of the loop of [read] inside the pages: what is read and where
    the cursor goes. *)
Lemma seek_inside (e : Entry) (k cp co : Z) :
  0 < pageSize -> len (entry_pages e) * pageSize < 2 ^ 63 ->
  0 <= cp < len (entry_pages e) -> 0 <= co < pageSize -> 0 <= k <= pageSize - co ->
  seek e k cp co
  = Ok (if co + k <? pageSize then (cp, co + k)
        else if cp + 1 <? len (entry_pages e) then (cp + 1, 0)
        else (len (entry_pages e), 0)).
Proof.
  intros HP Hbound Hcp Hco Hk.
  pose proof (seek_spec e k cp co HP) as (_ & Hclamp & Hin).
  assert (Hpos : add64 (add64 (mul64 cp pageSize) co) k = cp * pageSize + co + k).
  { unfold add64, mul64.
    rewrite (wrap_int64_small (cp * pageSize)) by (unfold in_int64; nia).
    rewrite (wrap_int64_small (cp * pageSize + co)) by (unfold in_int64; nia).
    apply wrap_int64_small. unfold in_int64; nia. }
  rewrite Hpos in Hclamp, Hin.
  destruct (co + k <? pageSize) eqn:E.
  - assert (Hd : (cp * pageSize + co + k) / pageSize = cp).
    { symmetry. apply (Z.div_unique _ _ cp (co + k)); lia. }
    assert (Hm : (cp * pageSize + co + k) mod pageSize = co + k).
    { symmetry. apply (Z.mod_unique _ _ cp (co + k)); lia. }
    rewrite Hin by lia. by rewrite Hd, Hm.
  - assert (k = pageSize - co) by lia. subst k.
    assert (Hd : (cp * pageSize + co + (pageSize - co)) / pageSize = cp + 1).
    { symmetry. apply (Z.div_unique _ _ (cp + 1) 0); lia. }
    assert (Hm : (cp * pageSize + co + (pageSize - co)) mod pageSize = 0).
    { symmetry. apply (Z.mod_unique _ _ (cp + 1) 0); lia. }
    destruct (cp + 1 <? len (entry_pages e)) eqn:E2.
    + rewrite Hin by lia. by rewrite Hd, Hm.
    + rewrite Hclamp by lia. done.
Qed.

End ReadProperties.

(** ** defrag *)

Section DefragProperties.
Context {C : Constants} {SR : ShortRead}.

Lemma defragLoop_root_shape (fuel : nat) :
  forall (tp : tieredPage) (pm : PageManager) (acc freed : list ref)
         (tp' : tieredPage) (pm' : PageManager),
  defragLoop fuel tp pm acc = Ok (freed, tp', pm') ->
  height (root tp') <= 0 \/ size (childTables (root tp')) <> 1%nat.
Proof.
  induction fuel as [| fuel IH]; intros tp pm acc freed tp' pm' H; [discriminate |].
  simpl in H.
  destruct ((height (root tp) >? 0) && (size (childTables (root tp)) =? 1)%nat) eqn:Hc.
  - destruct (childTables (root tp) !! 0) as [child |]; [| discriminate].
    destruct (deref pm (pt_pp child)) as [pg | | |]; simpl in H; try discriminate.
    destruct (writeTieredPageEntry _ _ _ _ pm) as [pm1 | | |]; simpl in H; try discriminate.
    destruct (writeTieredPageEntry _ _ _ _ pm1) as [pm2 | | |]; simpl in H; try discriminate.
    eapply IH, H.
  - injection H as <- <- <-.
    apply andb_false_iff in Hc as [Hc | Hc].
    + left. lia.
    + right. apply Nat.eqb_neq in Hc. done.
Qed.

(** C4, as the code has it.  After [defrag] has returned without an error
    the root has height zero (or below) or a number of children other than
    one: none, or more than one. *)
Theorem C4_defrag_leaves_no_single_child_root (fuel : nat) (tp : tieredPage)
    (pm : PageManager) (freed : list ref) (tp' : tieredPage) (pm' : PageManager) :
  defrag fuel tp pm = Ok (freed, tp', pm') ->
  height (root tp') <= 0 \/ size (childTables (root tp')) <> 1%nat.
Proof.
  unfold defrag. intros H.
  destruct (deref pm (pt_pp (root tp))) as [pg | | |]; simpl in H; try discriminate.
  destruct (writeTieredPageEntry _ _ _ _ pm) as [pm1 | | |]; simpl in H; try discriminate.
  eapply defragLoop_root_shape, H.
Qed.

End DefragProperties.

(** C4, as stated, fails on a root of height one that has lost every child:
    [defrag] returns and leaves that root in place, neither of height zero
    nor with more than one child. *)
Lemma C4_counterexample_empty_tall_root :
  exists freed pm',
    defrag (C := scenarioConstants) 1 emptyTallPage (freshManager (C := scenarioConstants) 4)
    = Ok (freed, emptyTallPage, pm')
    /\ ~ root_defragmented emptyTallPage.
Proof.
  eexists _, _. split.
  - vm_compute. reflexivity.
  - unfold root_defragmented. simpl. intros [H | H]; [discriminate | ].
    rewrite map_size_empty in H. lia.
Qed.

(** ** Varints in eight-byte slots *)

Module BinaryFacts.
Import Binary.

Lemma uvarint_bytes_length (n : nat) :
  forall (fuel : nat) (x : Z),
  (1 <= n <= fuel)%nat -> 0 <= x < 128 ^ Z.of_nat n ->
  (1 <= length (uvarint_bytes fuel x) <= n)%nat.
Proof.
  induction n as [| n IH]; intros fuel x Hn Hx; [lia |].
  destruct fuel as [| fuel]; [lia |]. simpl.
  destruct (x >=? 128) eqn:E; [| simpl; lia].
  destruct n as [| n'].
  { change (128 ^ Z.of_nat 1) with 128 in Hx. lia. }
  simpl length.
  assert (Hs : 0 <= Z.shiftr x 7 < 128 ^ Z.of_nat (S n')).
  { rewrite Z.shiftr_div_pow2 by lia. change (2 ^ 7) with 128.
    replace (Z.of_nat (S (S n'))) with (Z.of_nat (S n') + 1) in Hx by lia.
    rewrite Z.pow_add_r, Z.pow_1_r in Hx by lia.
    split; [apply Z.div_pos; lia |].
    apply Z.div_lt_upper_bound; lia. }
  specialize (IH fuel (Z.shiftr x 7) ltac:(lia) Hs). lia.
Qed.

Lemma zigzag_nonneg (x : Z) : 0 <= x < 2 ^ 63 -> zigzag x = 2 * x.
Proof.
  intros H. unfold zigzag.
  destruct (x <? 0) eqn:E; [lia |].
  rewrite (wrap_uint64_small x) by lia.
  rewrite Z.shiftl_mul_pow2 by lia.
  rewrite wrap_uint64_small; lia.
Qed.

(** File offsets that fit the eight-byte slot of a varint. *)
Lemma PutVarint_ok (x : Z) :
  0 <= x < 2 ^ 55 ->
  exists bs, PutVarint x = Ok bs /\ length bs = 8%nat.
Proof.
  intros H. unfold PutVarint.
  rewrite zigzag_nonneg by lia.
  pose proof (uvarint_bytes_length 8 10 (2 * x) ltac:(lia)) as Hl.
  change (128 ^ Z.of_nat 8) with (2 ^ 56) in Hl. specialize (Hl ltac:(lia)).
  unfold len.
  destruct (Z.of_nat (length (uvarint_bytes 10 (2 * x))) <=? 8) eqn:E; [| lia].
  eexists. split; [done |].
  rewrite length_app, length_replicate. lia.
Qed.

End BinaryFacts.

(** ** Dense maps *)

Section Dense.
Context {A : Type}.
Implicit Types (m : gmap Z A) (l : list A).

Lemma index_nil (i : Z) : index (@nil A) i = None.
Proof. unfold index. by destruct (i <? 0). Qed.

Lemma index_of_nat l (n : nat) : index l (Z.of_nat n) = l !! n.
Proof.
  unfold index. destruct (Z.of_nat n <? 0) eqn:E; [zbool; lia |]. by rewrite Nat2Z.id.
Qed.

Lemma index_app_last l (x : A) : index (l ++ [x]) (len l) = Some x.
Proof. unfold len. rewrite index_of_nat. by rewrite list_lookup_middle. Qed.

Lemma index_app_l l k (i : Z) : i < len l -> index (l ++ k) i = index l i.
Proof.
  unfold index, len. intros H. destruct (i <? 0) eqn:E; [done |].
  zbool. apply lookup_app_l. lia.
Qed.

Lemma index_ge l (i : Z) : len l <= i -> index l i = None.
Proof.
  unfold index, len. intros H. destruct (i <? 0) eqn:E; [done |].
  zbool. apply lookup_ge_None. lia.
Qed.

Lemma index_lt_Some l (i : Z) : 0 <= i < len l -> is_Some (index l i).
Proof.
  unfold index, len. intros H. destruct (i <? 0) eqn:E; [zbool; lia |].
  apply lookup_lt_is_Some. lia.
Qed.

Lemma index_Some_lt l (i : Z) (x : A) : index l i = Some x -> 0 <= i < len l.
Proof.
  unfold index, len. destruct (i <? 0) eqn:E; [done |].
  intros H. apply lookup_lt_Some in H. lia.
Qed.

Lemma dense_empty : dense (∅ : gmap Z A) [].
Proof. intros i. by rewrite lookup_empty, index_nil. Qed.

Lemma dense_nil_inv m : dense m [] -> m = ∅.
Proof. intros H. apply map_eq. intros i. by rewrite H, index_nil, lookup_empty. Qed.

Lemma dense_lookup_last m l (x : A) : dense m (l ++ [x]) -> m !! len l = Some x.
Proof. intros H. by rewrite H, index_app_last. Qed.

Lemma dense_delete_last m l (x : A) : dense m (l ++ [x]) -> dense (delete (len l) m) l.
Proof.
  intros H i. destruct (decide (i = len l)) as [-> | Hne].
  - rewrite lookup_delete_eq. symmetry. apply index_ge. lia.
  - rewrite lookup_delete_ne by done. rewrite H.
    destruct (Z_lt_le_dec i (len l)).
    + by apply index_app_l.
    + rewrite !index_ge; [done | lia | rewrite len_app; unfold len in *; simpl; lia].
Qed.

Lemma dense_insert_last m l (x : A) : dense m l -> dense (<[len l := x]> m) (l ++ [x]).
Proof.
  intros H i. destruct (decide (i = len l)) as [-> | Hne].
  - by rewrite lookup_insert_eq, index_app_last.
  - rewrite lookup_insert_ne by done. rewrite H.
    destruct (Z_lt_le_dec i (len l)).
    + symmetry. by apply index_app_l.
    + rewrite !index_ge; [done | rewrite len_app; unfold len in *; simpl; lia | lia].
Qed.

Lemma dense_replace_last m l (x y : A) :
  dense m (l ++ [x]) -> dense (<[len l := y]> m) (l ++ [y]).
Proof.
  intros H. apply dense_delete_last in H.
  rewrite <- insert_delete_eq. by apply dense_insert_last.
Qed.

Lemma dense_size m l : dense m l -> size m = length l.
Proof.
  revert m. induction l as [| x l IH] using rev_ind; intros m H.
  - rewrite (dense_nil_inv m H). apply map_size_empty.
  - pose proof (dense_lookup_last m l x H) as Hx.
    pose proof (IH _ (dense_delete_last m l x H)) as Hs.
    rewrite length_app. simpl.
    rewrite <- (insert_delete_id m (len l) x Hx).
    rewrite map_size_insert_None by apply lookup_delete_eq. lia.
Qed.

Lemma dense_lookup_ge m l (i : Z) : dense m l -> len l <= i -> m !! i = None.
Proof. intros H Hi. rewrite H. by apply index_ge. Qed.

Lemma dense_lookup_neg m l (i : Z) : dense m l -> i < 0 -> m !! i = None.
Proof. intros H Hi. rewrite H. unfold index. destruct (i <? 0) eqn:E; [done | zbool; lia]. Qed.

End Dense.

(** ** The heap and the pages on it *)

Section Heap.
Context {C : Constants} {SR : ShortRead}.
Implicit Types (pm : PageManager) (r : ref).

Lemma bind_Ok {A B : Type} (m : result A) (k : A -> result B) (a : A) :
  m = Ok a -> bind m k = k a.
Proof. by intros ->. Qed.

Lemma same_offsets_refl pm : same_offsets pm pm.
Proof. by intros r. Qed.

Lemma same_offsets_trans pm1 pm2 pm3 :
  same_offsets pm1 pm2 -> same_offsets pm2 pm3 -> same_offsets pm1 pm3.
Proof. intros H1 H2 r. by rewrite H2, H1. Qed.

Lemma same_offsets_allocated pm pm' r :
  same_offsets pm pm' -> allocated pm r -> allocated pm' r.
Proof.
  unfold allocated. intros H [pg Hpg]. specialize (H r). rewrite Hpg in H.
  destruct (pm_heap pm' !! r); [eauto | discriminate].
Qed.

Lemma same_offsets_encodable pm pm' :
  same_offsets pm pm' -> encodable pm -> encodable pm'.
Proof.
  intros H Henc r pg Hpg. specialize (H r). rewrite Hpg in H. simpl in H.
  destruct (pm_heap pm !! r) as [pg0 |] eqn:E; [| discriminate].
  injection H as H. rewrite H. eapply Henc, E.
Qed.

Lemma same_on_refl (P : ref -> Prop) pm : same_on P pm pm.
Proof. by intros r _. Qed.

Lemma same_on_trans (P : ref -> Prop) pm1 pm2 pm3 :
  same_on P pm1 pm2 -> same_on P pm2 pm3 -> same_on P pm1 pm3.
Proof. intros H1 H2 r Hr. by rewrite H2, H1. Qed.

Lemma same_on_used (P : ref -> Prop) pm pm' (ps : list ref) :
  same_on P pm pm' -> Forall P ps -> map (used pm') ps = map (used pm) ps.
Proof.
  intros H Hall. induction Hall as [| r ps Hr _ IH]; [done |].
  simpl. rewrite IH. f_equal. unfold used. by rewrite (H r Hr).
Qed.

Lemma heap_set_usedSize pm r0 (u : Z) r :
  pm_heap (set_usedSize r0 u pm) !! r
  = if decide (r0 = r)
    then (fun pg => {| fileOff := fileOff pg; usedSize := u |}) <$> (pm_heap pm !! r)
    else pm_heap pm !! r.
Proof.
  unfold set_usedSize, set_heap. simpl. destruct (decide (r0 = r)) as [-> | Hne].
  - by rewrite lookup_alter_eq.
  - by rewrite lookup_alter_ne.
Qed.

Lemma same_offsets_set_usedSize pm r0 (u : Z) : same_offsets pm (set_usedSize r0 u pm).
Proof.
  intros r. rewrite heap_set_usedSize. destruct (decide (r0 = r)); [| done].
  by destruct (pm_heap pm !! r).
Qed.

Lemma same_on_set_usedSize (P : ref -> Prop) pm r0 (u : Z) :
  ~ P r0 -> same_on P pm (set_usedSize r0 u pm).
Proof.
  intros Hn r Hr. rewrite heap_set_usedSize.
  destruct (decide (r0 = r)) as [-> | ]; [done | done].
Qed.

Lemma same_on_set_usedSize_both (P : ref -> Prop) pm pm' r0 (u : Z) :
  same_on P pm pm' -> same_on P (set_usedSize r0 u pm) (set_usedSize r0 u pm').
Proof.
  intros H r Hr. rewrite !heap_set_usedSize.
  destruct (decide (r0 = r)); by rewrite (H r Hr).
Qed.

Lemma same_on_shrunk (P : ref -> Prop) pm pm' (s : option Z) (kept : list ref) :
  same_on P pm pm' -> same_on P (shrunk s kept pm) (shrunk s kept pm').
Proof.
  intros H. unfold shrunk. destruct s; [| done].
  destruct (last kept); [| done]. by apply same_on_set_usedSize_both.
Qed.

Lemma same_offsets_shrunk pm (s : option Z) (kept : list ref) :
  same_offsets pm (shrunk s kept pm).
Proof.
  unfold shrunk. destruct s; [| apply same_offsets_refl].
  destruct (last kept); [| apply same_offsets_refl]. apply same_offsets_set_usedSize.
Qed.

Lemma deref_allocated pm r :
  allocated pm r -> exists pg, pm_heap pm !! r = Some pg /\ deref pm r = Ok pg.
Proof. intros [pg Hpg]. exists pg. split; [done |]. unfold deref. by rewrite Hpg. Qed.

Lemma used_lookup pm r (pg : physicalPage) :
  pm_heap pm !! r = Some pg -> used pm r = usedSize pg.
Proof. unfold used. by intros ->. Qed.

(** What a write through a page pointer changes. *)
Lemma pp_writeAt_ok pm r (data : list Z) (off : Z) :
  allocated pm r ->
  exists n pm', pp_writeAt r data off pm = Ok (n, pm') /\
    n = Z.max 0 (Z.min (len data) (pageSize - off)) /\
    same_offsets pm pm' /\
    (forall r', r' <> r -> pm_heap pm' !! r' = pm_heap pm !! r') /\
    pm_nextRef pm' = pm_nextRef pm /\ pm_fileSize pm' = pm_fileSize pm /\
    recyclePages pm' = recyclePages pm /\ freePages pm' = freePages pm.
Proof.
  intros [pg Hpg]. unfold pp_writeAt, deref. rewrite Hpg. simpl.
  eexists _, _. split; [done |]. split; [done |].
  split; [| split; [| done]].
  - intros r'. rewrite heap_set_usedSize. simpl.
    destruct (decide (r = r')); [| done]. by destruct (pm_heap pm !! r').
  - intros r' Hne. rewrite heap_set_usedSize. simpl.
    destruct (decide (r = r')); [congruence | done].
Qed.

Lemma mapM_ok {A B : Type} (f : A -> result B) (l : list A) :
  Forall (fun x => exists y, f x = Ok y) l ->
  exists ys, mapM f l = Ok ys /\ length ys = length l.
Proof.
  induction 1 as [| x l [y Hy] _ (ys & Hys & Hl)]; simpl.
  - by exists [].
  - rewrite Hy. simpl. rewrite Hys. simpl. exists (y :: ys). simpl. auto.
Qed.

Lemma elem_of_upto (n i : Z) : i ∈ upto n -> 0 <= i < n.
Proof.
  unfold upto. intros H. apply list_elem_of_fmap in H as (k & -> & Hk).
  apply elem_of_seq in Hk. lia.
Qed.

(** [marshal] succeeds on a node whose slots are dense and point to
    objects at encodable offsets. *)
Lemma marshal_ok pm (pt : pageTable) :
  encodable pm ->
  (height pt = 0 ->
     exists ps, dense (childPages pt) ps /\ Forall (allocated pm) ps) ->
  (height pt <> 0 ->
     exists cs, dense (childTables pt) cs /\ Forall (fun c => allocated pm (pt_pp c)) cs) ->
  exists data, marshal pt pm = Ok data.
Proof.
  intros Henc Hleaf Hinner. unfold marshal.
  assert (Hoffs : exists offsets,
             mapM (childOffset pt pm) (upto (numChildren pt)) = Ok offsets /\
             Forall (fun x => 0 <= x < 2 ^ 55) offsets).
  { assert (Hall : Forall (fun i => exists y, childOffset pt pm i = Ok y /\ 0 <= y < 2 ^ 55)
                     (upto (numChildren pt))).
    { apply Forall_forall. intros i Hi. apply elem_of_upto in Hi.
      unfold childOffset, numChildren in *.
      destruct (height pt =? 0) eqn:E; zbool.
      - destruct (Hleaf E) as (ps & Hd & Hall).
        rewrite (dense_size _ _ Hd) in Hi. rewrite Hd.
        destruct (index_lt_Some ps i ltac:(unfold len; lia)) as [r Hr]. rewrite Hr.
        assert (Hin : r ∈ ps).
        { unfold index in Hr. destruct (i <? 0); [done |].
          eapply list_elem_of_lookup_2, Hr. }
        rewrite Forall_forall in Hall. destruct (Hall r Hin) as [pg Hpg].
        unfold deref. rewrite Hpg. simpl. eexists. split; [done |]. eapply Henc, Hpg.
      - destruct (Hinner E) as (cs & Hd & Hall).
        rewrite (dense_size _ _ Hd) in Hi. rewrite Hd.
        destruct (index_lt_Some cs i ltac:(unfold len; lia)) as [c Hc]. rewrite Hc.
        assert (Hin : c ∈ cs).
        { unfold index in Hc. destruct (i <? 0); [done |].
          eapply list_elem_of_lookup_2, Hc. }
        rewrite Forall_forall in Hall. destruct (Hall c Hin) as [pg Hpg].
        unfold deref. rewrite Hpg. simpl. eexists. split; [done |]. eapply Henc, Hpg. }
    induction Hall as [| i l (y & Hy & Hrange) _ (ys & Hys & Hr)]; simpl.
    - by exists [].
    - rewrite Hy. simpl. rewrite Hys. simpl. exists (y :: ys). split; [done |].
      by constructor. }
  destruct Hoffs as (offsets & -> & Hrange). simpl.
  destruct (mapM_ok Binary.PutVarint offsets) as (slots & -> & _).
  { eapply Forall_impl; [exact Hrange |]. intros x Hx.
    destruct (BinaryFacts.PutVarint_ok x Hx) as (bs & Hbs & _). eauto. }
  simpl. eauto.
Qed.

Lemma writeToDisk_ok pm (pt : pageTable) :
  encodable pm -> allocated pm (pt_pp pt) ->
  (height pt = 0 ->
     exists ps, dense (childPages pt) ps /\ Forall (allocated pm) ps) ->
  (height pt <> 0 ->
     exists cs, dense (childTables pt) cs /\ Forall (fun c => allocated pm (pt_pp c)) cs) ->
  exists pm', writeToDisk pt pm = Ok pm' /\
    same_offsets pm pm' /\
    (forall r', r' <> pt_pp pt -> pm_heap pm' !! r' = pm_heap pm !! r') /\
    pm_nextRef pm' = pm_nextRef pm /\ pm_fileSize pm' = pm_fileSize pm /\
    recyclePages pm' = recyclePages pm /\ freePages pm' = freePages pm.
Proof.
  intros Henc Halloc Hleaf Hinner. unfold writeToDisk.
  destruct (marshal_ok pm pt Henc Hleaf Hinner) as [data ->]. simpl.
  destruct (pp_writeAt_ok pm (pt_pp pt) data 0 Halloc) as (n & pm' & -> & _ & H).
  simpl. eauto.
Qed.

End Heap.

(** ** Truncation *)

Section Cut.

Lemma cut_count_le (size' : Z) (l : list Z) :
  forall U, (snd (fst (cut size' U l)) <= length l)%nat.
Proof.
  induction l as [| u l IH]; intros U; simpl; [lia |].
  destruct (U <=? size'); simpl; [lia |].
  destruct (U - size' <? u); simpl; [lia |].
  specialize (IH (U - u)). destruct (cut size' (U - u) l) as [[U' n] s]. simpl in *. lia.
Qed.

(** If truncation stops before the last page, the size asked for is reached. *)
Lemma cut_stop (size' : Z) (l : list Z) :
  forall U, (snd (fst (cut size' U l)) < length l)%nat -> fst (fst (cut size' U l)) <= size'.
Proof.
  induction l as [| u l IH]; intros U; simpl; [lia |].
  destruct (U <=? size') eqn:E1; simpl; [intros _; zbool; lia |].
  destruct (U - size' <? u) eqn:E2; simpl; [lia |].
  specialize (IH (U - u)). destruct (cut size' (U - u) l) as [[U' n] s]. simpl in *.
  intros H. apply IH. lia.
Qed.

Lemma cut_all (size' : Z) (l : list Z) :
  forall U, snd (fst (cut size' U l)) = length l -> snd (cut size' U l) = None.
Proof.
  induction l as [| u l IH]; intros U; simpl; [done |].
  destruct (U <=? size') eqn:E1; simpl; [done |].
  destruct (U - size' <? u) eqn:E2; simpl; [done |].
  specialize (IH (U - u)). destruct (cut size' (U - u) l) as [[U' n] s]. simpl in *.
  intros H. apply IH. lia.
Qed.

(** Truncation of consistent sizes ends at [min U size']. *)
Lemma cut_min (size' : Z) (l : list Z) :
  forall U, 0 <= size' -> U = foldr Z.add 0 l ->
  fst (fst (cut size' U l)) = Z.min U size'.
Proof.
  induction l as [| u l IH]; intros U Hs HU; simpl in *; [lia |].
  destruct (U <=? size') eqn:E1; simpl; [zbool; lia |].
  destruct (U - size' <? u) eqn:E2; simpl; [zbool; lia |].
  specialize (IH (U - u) Hs ltac:(lia)).
  destruct (cut size' (U - u) l) as [[U' n] s]. simpl in *. zbool. lia.
Qed.

Lemma cut_unchanged (size' : Z) (l : list Z) (U : Z) :
  U <= size' -> cut size' U l = (U, 0%nat, None).
Proof.
  intros H. destruct l as [| u l]; simpl; [done |].
  destruct (U <=? size') eqn:E; [done | zbool; lia].
Qed.

Lemma cut_app (size' : Z) (l2 l1 : list Z) :
  forall U,
  cut size' U (l2 ++ l1)
  = let '(U2, n2, s2) := cut size' U l2 in
    if decide (n2 = length l2)
    then let '(U1, n1, s1) := cut size' U2 l1 in (U1, (n2 + n1)%nat, s1)
    else (U2, n2, s2).
Proof.
  induction l2 as [| u l2 IH]; intros U; simpl.
  - by destruct (cut size' U l1) as [[U1 n1] s1].
  - destruct (U <=? size') eqn:E1; simpl; [done |].
    destruct (U - size' <? u) eqn:E2; simpl; [done |].
    rewrite IH. destruct (cut size' (U - u) l2) as [[U2 n2] s2].
    destruct (decide (n2 = length l2)) as [-> | Hne].
    + rewrite decide_True by done. by destruct (cut size' U2 l1) as [[U1 n1] s1].
    + rewrite decide_False by lia. done.
Qed.

End Cut.

Section TruncatePages.
Context {C : Constants} {SR : ShortRead}.

Lemma set_childPages_id (pt : pageTable) : set_childPages (childPages pt) pt = pt.
Proof. by destruct pt. Qed.

Lemma set_childTables_id (pt : pageTable) : set_childTables (childTables pt) pt = pt.
Proof. by destruct pt. Qed.

Lemma last_snoc' {A : Type} (l : list A) (x : A) : last (l ++ [x]) = Some x.
Proof. apply last_snoc. Qed.

Lemma removelast_snoc {A : Type} (l : list A) (x : A) : removelast (l ++ [x]) = l.
Proof. apply removelast_last. Qed.

(** The loop over the pages of a leaf does what [cut] says: it removes
    pages from the last one backwards, cuts one page short if need be, and
    reads no slot outside the dense prefix. *)
Lemma truncatePages_spec (size' : Z) (ps : list ref) :
  forall (fuel : nat) (pt : pageTable) (tp : tieredPage) (pm : PageManager)
         (acc pre : list ref),
  dense (childPages pt) ps -> Forall (allocated pm) ps -> len ps < 2 ^ 64 ->
  pages tp = pre ++ ps ->
  (ps <> [] \/ tp_usedSize tp <= size') ->
  (length ps + 1 < fuel)%nat ->
  exists m',
    dense m' (take (length ps - snd (fst (cut size' (tp_usedSize tp) (rev (map (used pm) ps))))) ps) /\
    truncatePages fuel size' (wrap_uint64 (len ps - 1)) pt tp pm acc
    = let '(U', n, s) := cut size' (tp_usedSize tp) (rev (map (used pm) ps)) in
      let k := (length ps - n)%nat in
      Ok (bool_decide (k = 0%nat /\ ps <> []), acc ++ rev (drop k ps), set_childPages m' pt,
          TieredPage (root tp) (tp_pp tp) U' (pre ++ take k ps), shrunk s (take k ps) pm).
Proof.
  induction ps as [| r ps IH] using rev_ind;
    intros fuel pt tp pm acc pre Hd Hall Hlen Hpages Hne Hfuel.
  - destruct Hne as [Hne | HU]; [done |].
    destruct fuel as [| fuel]; [lia |]. simpl.
    exists (childPages pt). split; [done |].
    destruct (tp_usedSize tp <=? size') eqn:E; [| zbool; lia].
    rewrite set_childPages_id, !app_nil_r. rewrite app_nil_r in Hpages.
    destruct tp; simpl in *. by subst.
  - destruct fuel as [| fuel]; [lia |].
    rewrite map_app, rev_app_distr. simpl rev. simpl app.
    rewrite length_app in *. simpl length in *.
    apply Forall_app in Hall as [Hall Hr]. apply Forall_inv in Hr.
    unfold allocated in Hr. destruct Hr as [pg Hpg].
    assert (Hi : wrap_uint64 (len (ps ++ [r]) - 1) = len ps).
    { rewrite len_app in *. unfold len in *. simpl in *.
      rewrite wrap_uint64_small; lia. }
    rewrite Hi. simpl truncatePages. simpl cut.
    destruct (tp_usedSize tp <=? size') eqn:E1.
    { exists (childPages pt). simpl. rewrite Nat.sub_0_r.
      replace (length ps + 1)%nat with (length (ps ++ [r])) by (rewrite length_app; simpl; lia).
      rewrite firstn_all, drop_all, app_nil_r, set_childPages_id. split; [done |].
      rewrite bool_decide_eq_false_2.
      2: { intros [H _]. rewrite length_app in H. simpl in H. lia. }
      destruct tp; simpl in *. by subst. }
    rewrite (dense_lookup_last _ _ _ Hd).
    unfold deref at 1. rewrite Hpg. simpl bind.
    rewrite (used_lookup pm r pg Hpg).
    destruct (tp_usedSize tp - size' <? usedSize pg) eqn:E2.
    { (* the page is cut short *)
      exists (childPages pt). simpl. rewrite Nat.sub_0_r.
      replace (length ps + 1)%nat with (length (ps ++ [r])) by (rewrite length_app; simpl; lia).
      rewrite firstn_all, drop_all, app_nil_r, set_childPages_id. split; [done |].
      destruct fuel as [| fuel]; [lia |]. simpl.
      assert (E3 : (tp_usedSize tp - (tp_usedSize tp - size') <=? size') = true) by lia.
      rewrite E3.
      rewrite bool_decide_eq_false_2.
      2: { intros [H _]. rewrite length_app in H. simpl in H. lia. }
      rewrite last_snoc. unfold set_tp_usedSize. rewrite Hpages.
      repeat f_equal. lia. }
    (* the page is removed *)
    rewrite Hpages, app_assoc, last_snoc.
    unfold deref at 1. rewrite Hpg. simpl bind.
    rewrite Z.eqb_refl. simpl negb. cbv iota.
    rewrite removelast_last.
    pose proof (dense_delete_last _ _ _ Hd) as Hd'.
    rewrite (dense_size _ _ Hd').
    destruct ps as [| r0 ps0] eqn:Eps.
    { (* it was the only page *)
      simpl. exists (delete (len (@nil ref)) (childPages pt)). split; [done |].
      done. }
    rewrite <- Eps in *.
    assert (Hnz : (length ps =? 0)%nat = false).
    { apply Nat.eqb_neq. rewrite Eps. simpl. lia. }
    simpl size. unfold set_childPages at 1. simpl childPages. rewrite Hnz.
    set (pt' := set_childPages (delete (len ps) (childPages pt)) pt).
    set (tp2 := set_tp_usedSize _ _).
    assert (Hi' : wrap_uint64 (len ps - 1) = wrap_uint64 (len ps - 1)) by done.
    destruct (IH fuel pt' tp2 pm (acc ++ [r]) pre) as (m' & Hm' & Hrun); try done.
    + rewrite len_app in Hlen. unfold len in *. simpl in *. lia.
    + left. rewrite Eps. done.
    + lia.
    + simpl tp_usedSize in *.
      destruct (cut size' (tp_usedSize tp - usedSize pg) (rev (map (used pm) ps)))
        as [[U' n] s] eqn:Ecut.
      pose proof (cut_count_le size' (rev (map (used pm) ps)) (tp_usedSize tp - usedSize pg))
        as Hle.
      rewrite Ecut, length_rev, length_map in Hle. simpl in Hle, Hm'.
      exists m'. simpl.
      replace (length ps + 1 - S n)%nat with (length ps - n)%nat by lia.
      rewrite take_app_le by lia. split; [done |].
      rewrite Hrun. simpl.
      rewrite drop_app_le by lia. rewrite rev_app_distr. simpl.
      rewrite <- app_assoc. simpl.
      assert (Hb : bool_decide ((length ps - n)%nat = 0%nat /\ ps <> [])
                   = bool_decide ((length ps - n)%nat = 0%nat /\ ps ++ [r] <> [])).
      { apply bool_decide_ext. split; intros [H1 H2]; split; try done.
        - intros Habs. by destruct ps.
        - rewrite Eps. done. }
      rewrite Hb. done.
Qed.

End TruncatePages.

(** ** More fuel does not change a result *)

Section FuelMono.
Context {C : Constants} {SR : ShortRead}.

Lemma bind_not_OutOfFuel {A B : Type} (m : result A) (k : A -> result B) :
  bind m k <> OutOfFuel -> m <> OutOfFuel.
Proof. by destruct m. Qed.

Lemma truncatePages_mono (fuel : nat) :
  forall fuel' size' i pt tp pm acc,
  (fuel <= fuel')%nat ->
  truncatePages fuel size' i pt tp pm acc <> OutOfFuel ->
  truncatePages fuel' size' i pt tp pm acc = truncatePages fuel size' i pt tp pm acc.
Proof.
  induction fuel as [| fuel IH]; intros fuel' size' i pt tp pm acc Hle H; [done |].
  destruct fuel' as [| fuel']; [lia |].
  simpl in *. unfold bind in *.
  repeat (case_match; simpl in *; try done); apply IH; try lia; done.
Qed.

Lemma recursiveTruncate_mono_both (fuel : nat) :
  (forall fuel' tp pt size' pm,
     (fuel <= fuel')%nat ->
     recursiveTruncate fuel tp pt size' pm <> OutOfFuel ->
     recursiveTruncate fuel' tp pt size' pm = recursiveTruncate fuel tp pt size' pm)
  /\ (forall fuel' size' i pt tp pm acc,
     (fuel <= fuel')%nat ->
     truncateTables fuel size' i pt tp pm acc <> OutOfFuel ->
     truncateTables fuel' size' i pt tp pm acc = truncateTables fuel size' i pt tp pm acc).
Proof.
  induction fuel as [| fuel [IHr IHt]]; [split; intros; done |].
  split.
  - intros fuel' tp pt size' pm Hle H.
    destruct fuel' as [| fuel']; [lia |]. simpl in *.
    destruct (height pt >? 0).
    + apply IHt; [lia | done].
    + destruct (height pt =? 0); [| done].
      apply truncatePages_mono; [lia | done].
  - intros fuel' size' i pt tp pm acc Hle H.
    destruct fuel' as [| fuel']; [lia |]. simpl in *.
    destruct (tp_usedSize tp <=? size'); [done |].
    destruct (childTables pt !! i) as [child |]; [| done].
    pose proof (bind_not_OutOfFuel _ _ H) as Hm.
    rewrite (IHr fuel' tp child size' pm ltac:(lia) Hm).
    destruct (recursiveTruncate fuel tp child size' pm) as [[[[[b fr] c'] tp'] pm'] | | |];
      simpl in *; try done.
    destruct b.
    + destruct (writeToDisk _ pm') as [pm'' | | |]; simpl in *; try done.
      case_match; [done |]. apply IHt; [lia | done].
    + apply IHt; [lia | done].
Qed.

Lemma recursiveTruncate_mono (fuel fuel' : nat) tp pt size' pm (r : truncated) :
  (fuel <= fuel')%nat ->
  recursiveTruncate fuel tp pt size' pm = Ok r ->
  recursiveTruncate fuel' tp pt size' pm = Ok r.
Proof.
  intros Hle H. rewrite <- H.
  apply (proj1 (recursiveTruncate_mono_both fuel)); [done |]. by rewrite H.
Qed.

Lemma truncateTables_mono (fuel fuel' : nat) size' i pt tp pm acc (r : truncated) :
  (fuel <= fuel')%nat ->
  truncateTables fuel size' i pt tp pm acc = Ok r ->
  truncateTables fuel' size' i pt tp pm acc = Ok r.
Proof.
  intros Hle H. rewrite <- H.
  apply (proj2 (recursiveTruncate_mono_both fuel)); [done |]. by rewrite H.
Qed.

Lemma defragLoop_mono (fuel : nat) :
  forall fuel' tp pm acc,
  (fuel <= fuel')%nat ->
  defragLoop fuel tp pm acc <> OutOfFuel ->
  defragLoop fuel' tp pm acc = defragLoop fuel tp pm acc.
Proof.
  induction fuel as [| fuel IH]; intros fuel' tp pm acc Hle H; [done |].
  destruct fuel' as [| fuel']; [lia |]. simpl in *. unfold bind in *.
  repeat (case_match; simpl in *; try done).
  apply IH; [lia | done].
Qed.

End FuelMono.

(** ** recursiveTruncate on well-formed nodes *)

Section TruncateNode.
Context {C : Constants} {SR : ShortRead}.
Variables (N P : ref -> Prop) (size' : Z).
Hypothesis HNP : forall r, N r -> P r -> False.
Hypothesis HF : numPageEntries < 2 ^ 64.

Lemma heap_ok_same (pm pm' : PageManager) :
  same_offsets pm pm' -> heap_ok N P pm -> heap_ok N P pm'.
Proof.
  intros Hs (Henc & HN & HP). split; [| split].
  - eapply same_offsets_encodable; eauto.
  - intros r Hr. eapply same_offsets_allocated; eauto.
  - intros r Hr. eapply same_offsets_allocated; eauto.
Qed.

Lemma wf_node_height_nonneg (h : Z) (pt : pageTable) (ps : list ref) :
  wf_node N P h pt ps -> 0 <= h /\ height pt = h /\ N (pt_pp pt).
Proof. intros H. inversion H; subst; repeat split; try done; lia. Qed.

Lemma wf_node_leaf_inv (pt : pageTable) (ps : list ref) :
  wf_node N P 0 pt ps ->
  height pt = 0 /\ N (pt_pp pt) /\ dense (childPages pt) ps /\ ps <> [] /\
  len ps <= numPageEntries /\ Forall P ps.
Proof. intros H. inversion H; subst; [done | lia]. Qed.

Lemma wf_node_inner_inv (h : Z) (pt : pageTable) (ps : list ref) :
  0 <= h -> wf_node N P (h + 1) pt ps ->
  exists cs pss,
    ps = concat pss /\ height pt = h + 1 /\ N (pt_pp pt) /\
    dense (childTables pt) cs /\ cs <> [] /\ len cs <= numPageEntries /\
    Forall2 (wf_node N P h) cs pss /\
    Forall (fun ps => len ps = maxPages h) (removelast pss).
Proof.
  intros Hh H. inversion H as [| h0 pt0 cs pss]; subst; [lia |].
  replace (h + 1 - 1) with h in * by lia.
  exists cs, pss. repeat split; done.
Qed.

Lemma wf_inner' (h : Z) (pt : pageTable) (cs : list pageTable) (pss : list (list ref))
    (ps : list ref) :
  0 <= h -> height pt = h + 1 -> N (pt_pp pt) ->
  dense (childTables pt) cs -> cs <> [] -> len cs <= numPageEntries ->
  Forall2 (wf_node N P h) cs pss ->
  Forall (fun ps => len ps = maxPages h) (removelast pss) ->
  ps = concat pss ->
  wf_node N P (h + 1) pt ps.
Proof.
  intros Hh Hht HN Hd Hne Hlen Hall Hfull ->.
  apply (wf_inner N P (h + 1) pt cs pss); try done; try lia;
    replace (h + 1 - 1) with h by lia; done.
Qed.

Lemma wf_node_nonempty (h : Z) :
  0 <= h -> forall pt ps, wf_node N P h pt ps -> ps <> [].
Proof.
  intros Hh. pattern h. apply natlike_ind; [| | done].
  - intros pt ps H. by apply wf_node_leaf_inv in H as (_ & _ & _ & Hne & _).
  - clear h Hh. intros h Hh IH pt ps H.
    apply (wf_node_inner_inv h pt ps Hh) in H
      as (cs & pss & -> & _ & _ & _ & Hne & _ & Hall & _).
    destruct Hall as [| c psc cs' pss' Hc _]; [done |].
    simpl. intros Habs. apply app_eq_nil in Habs as [Habs _].
    by apply (IH c psc Hc).
Qed.

Lemma wf_node_pages (h : Z) :
  0 <= h -> forall pt ps, wf_node N P h pt ps -> Forall P ps.
Proof.
  intros Hh. pattern h. apply natlike_ind; [| | done].
  - intros pt ps H. by apply wf_node_leaf_inv in H as (_ & _ & _ & _ & _ & HP).
  - clear h Hh. intros h Hh IH pt ps H.
    apply (wf_node_inner_inv h pt ps Hh) in H
      as (cs & pss & -> & _ & _ & _ & _ & _ & Hall & _).
    induction Hall as [| c psc cs' pss' Hc _ IH']; simpl; [done |].
    apply Forall_app. split; [by apply (IH c psc) | done].
Qed.

Lemma hd_error_rev {A : Type} (l : list A) : hd_error (rev l) = last l.
Proof.
  induction l as [| x l _] using rev_ind; [done |].
  by rewrite rev_app_distr, last_snoc.
Qed.

Lemma last_drop {A : Type} (l : list A) (k : nat) :
  (k < length l)%nat -> last (drop k l) = last l.
Proof.
  intros Hk. rewrite <- (take_drop k l) at 2. rewrite last_app.
  destruct (last (drop k l)) eqn:E; [done |].
  apply last_None in E. apply (f_equal length) in E. rewrite length_drop in E. simpl in E. lia.
Qed.

(** [recursiveTruncate] on a leaf. *)
Lemma recursiveTruncate_leaf (pt : pageTable) (ps pre : list ref) (tp : tieredPage)
    (pm : PageManager) :
  wf_node N P 0 pt ps -> heap_ok N P pm -> pages tp = pre ++ ps ->
  exists fuel res, recursiveTruncate fuel tp pt size' pm = Ok res /\
    truncate_post N P size' 0 pt ps pre [] tp pm res.
Proof.
  intros Hwf (Henc & HN & HP) Hpages.
  apply wf_node_leaf_inv in Hwf as (Hh & HNpt & Hd & Hne & Hlen & HPs).
  exists (S (length ps + 2)). simpl recursiveTruncate. rewrite Hh. simpl.
  rewrite (dense_size _ _ Hd).
  destruct (truncatePages_spec size' ps (length ps + 2) pt tp pm [] pre)
    as (m' & Hm' & Hrun); try done.
  { eapply Forall_impl; [exact HPs | done]. }
  { lia. }
  { by left. }
  { lia. }
  fold (len ps). rewrite Hrun. clear Hrun.
  pose proof (cut_count_le size' (rev (map (used pm) ps)) (tp_usedSize tp)) as Hle.
  rewrite length_rev, length_map in Hle.
  unfold truncate_post.
  destruct (cut size' (tp_usedSize tp) (rev (map (used pm) ps))) as [[U' n] s].
  simpl in Hm', Hle. eexists. split; [done |].
  assert (Hlenps : (0 < length ps)%nat) by (destruct ps; [done | simpl; lia]).
  split; [| split; [done |]; split; [| split]].
  - apply bool_decide_ext. split; [by intros [? _] | by intros ?; split].
  - intros Hk. apply wf_leaf; try done.
    + intros Habs. apply (f_equal length) in Habs. rewrite length_take in Habs.
      simpl in Habs. lia.
    + unfold len in *. rewrite length_take. lia.
    + by apply Forall_take.
  - intros Hk. unfold no_children. simpl. rewrite Hh. simpl.
    rewrite Hk in Hm'. simpl in Hm'. by apply dense_nil_inv.
  - repeat split; try done.
    + apply same_offsets_shrunk.
    + exists (rev (drop (length ps - n) ps)). repeat split; try done.
      * intros ->. rewrite Nat.sub_0_r, drop_all. done.
      * intros Hn. rewrite hd_error_rev. apply last_drop. lia.
Qed.

Lemma truncateTables_unfold (fuel : nat) (i : Z) (pt : pageTable) (tp : tieredPage)
    (pm : PageManager) (acc : list ref) :
  truncateTables (S fuel) size' i pt tp pm acc
  = if tp_usedSize tp <=? size' then Ok (false, acc, pt, tp, pm)
    else
      match childTables pt !! i with
      | None => Panic nil_deref
      | Some child =>
          let! (empty, freePages, child', tp', pm') :=
             recursiveTruncate fuel tp child size' pm in
          let pt1 := set_childTables (<[i := child']> (childTables pt)) pt in
          let pagesToFree1 := acc ++ freePages in
          if (empty : bool) then
            let pt2 := set_childTables (delete i (childTables pt1)) pt1 in
            let pagesToFree2 := pagesToFree1 ++ [pt_pp child'] in
            let! pm'' := writeToDisk pt2 pm' in
            if (size (childTables pt2) =? 0)%nat
            then Ok (true, pagesToFree2, pt2, tp', pm'')
            else truncateTables fuel size' (wrap_uint64 (i - 1)) pt2 tp' pm'' pagesToFree2
          else truncateTables fuel size' (wrap_uint64 (i - 1)) pt1 tp' pm' pagesToFree1
      end.
Proof. reflexivity. Qed.

Lemma tp_eta (tp : tieredPage) (U : Z) (ps : list ref) :
  tp_usedSize tp = U -> pages tp = ps ->
  tp = TieredPage (root tp) (tp_pp tp) U ps.
Proof. destruct tp. simpl. by intros -> ->. Qed.

Lemma last_app_nonempty {A : Type} (l k : list A) : k <> [] -> last (l ++ k) = last k.
Proof.
  intros Hk. rewrite last_app. destruct (last k) eqn:E; [done |].
  by apply last_None in E.
Qed.

Lemma hd_error_app_nonempty {A : Type} (l k : list A) (x : A) :
  hd_error l = Some x -> hd_error (l ++ k) = Some x.
Proof. by destruct l. Qed.

(** The loop of [recursiveTruncate] over the child tables of a node, given
    what [recursiveTruncate] does on the children. *)
Lemma truncateTables_spec (h : Z) :
  0 <= h ->
  (forall c psc pre tp pm,
     wf_node N P h c psc -> heap_ok N P pm -> pages tp = pre ++ psc ->
     exists fuel res, recursiveTruncate fuel tp c size' pm = Ok res /\
       truncate_post N P size' h c psc pre [] tp pm res) ->
  forall (cs : list pageTable) (pss : list (list ref)) (pt : pageTable)
         (pre acc : list ref) (tp : tieredPage) (pm : PageManager),
  Forall2 (wf_node N P h) cs pss -> cs <> [] ->
  height pt = h + 1 -> N (pt_pp pt) -> dense (childTables pt) cs ->
  len cs <= numPageEntries ->
  Forall (fun ps => len ps = maxPages h) (removelast pss) ->
  heap_ok N P pm -> pages tp = pre ++ concat pss ->
  exists fuel res,
    truncateTables fuel size' (wrap_uint64 (len cs - 1)) pt tp pm acc = Ok res /\
    truncate_post N P size' (h + 1) pt (concat pss) pre acc tp pm res.
Proof.
  intros Hh Hchild cs.
  induction cs as [| c cs IH] using rev_ind;
    intros pss pt pre acc tp pm Hall Hcne Hht HNpt Hd Hlen Hfull Hok Hpages; [done |].
  clear Hcne.
  apply Forall2_app_inv_l in Hall as (pss0 & pssc & Hall0 & Hallc & ->).
  inversion Hallc as [| c0 psc l1 l2 Hc Hnil]; subst. inversion Hnil; subst. clear Hallc Hnil.
  rewrite concat_app in *. simpl concat in *. rewrite app_nil_r in *.
  rewrite removelast_last in Hfull.
  pose proof (wf_node_nonempty h Hh c psc Hc) as Hpsc.
  pose proof (wf_node_pages h Hh c psc Hc) as HPpsc.
  assert (HP0 : Forall P (concat pss0)).
  { clear -Hall0 Hh. induction Hall0 as [| c1 ps1 cs1 pss1 Hc1 _ IH']; simpl; [done |].
    apply Forall_app. split; [by apply (wf_node_pages h Hh c1) | done]. }
  assert (Hi : wrap_uint64 (len (cs ++ [c]) - 1) = len cs).
  { rewrite len_app in *. unfold len in *. simpl in *. rewrite wrap_uint64_small; lia. }
  rewrite Hi.
  assert (Hlen0 : (0 < length psc)%nat) by (destruct psc; [done | simpl; lia]).
  assert (Hrev : rev (map (used pm) (concat pss0 ++ psc))
                 = rev (map (used pm) psc) ++ rev (map (used pm) (concat pss0))).
  { by rewrite map_app, rev_app_distr. }
  destruct (Z_le_gt_dec (tp_usedSize tp) size') as [HU | HU].
  { (* nothing to truncate *)
    exists 1%nat. simpl.
    assert (E : (tp_usedSize tp <=? size') = true) by lia. rewrite E.
    eexists. split; [done |]. unfold truncate_post.
    rewrite Hrev, cut_unchanged by done.
    rewrite Nat.sub_0_r, firstn_all.
    split; [| split; [| split; [| split]]].
    - rewrite bool_decide_eq_false_2; [done |]. rewrite length_app. lia.
    - by apply tp_eta.
    - intros _. eapply (wf_inner' h pt (cs ++ [c]) (pss0 ++ [psc])); try done.
      + by destruct cs.
      + apply Forall2_app; [done | by constructor].
      + by rewrite removelast_last.
      + rewrite concat_app. simpl. by rewrite app_nil_r.
    - rewrite length_app. lia.
    - split; [done |]. split; [done |]. split; [done |].
      split; [apply same_offsets_refl |]. split; [apply same_on_refl |].
      exists []. rewrite app_nil_r. repeat split; try done; lia. }
  destruct (Hchild c psc (pre ++ concat pss0) tp pm Hc Hok) as (fc & resc & Hrunc & Hpostc).
  { by rewrite <- app_assoc. }
  destruct resc as [[[[bc freedc] c'] tp1] pm1].
  unfold truncate_post in Hpostc.
  pose proof (cut_count_le size' (rev (map (used pm) psc)) (tp_usedSize tp)) as Hle1.
  pose proof (cut_stop size' (rev (map (used pm) psc)) (tp_usedSize tp)) as Hstop1.
  pose proof (cut_all size' (rev (map (used pm) psc)) (tp_usedSize tp)) as Hall1.
  pose proof (cut_app size' (rev (map (used pm) psc)) (rev (map (used pm) (concat pss0)))
                (tp_usedSize tp)) as Hcutapp.
  rewrite <- Hrev in Hcutapp.
  destruct (cut size' (tp_usedSize tp) (rev (map (used pm) psc))) as [[U1 n1] s1] eqn:Ecut1.
  rewrite length_rev, length_map in *. simpl in Hle1, Hstop1, Hall1.
  cbn beta iota zeta in Hcutapp.
  destruct Hpostc as (Hbc & Htp1 & Hwfc & Hemptyc & Hppc & Hhc & Hparc & Hso1 & Hson1
                      & freed0c & Hfreedc & Hf0 & Hf1 & _).
  simpl in Hfreedc. subst freedc.
  pose proof (dense_lookup_last _ _ _ Hd) as Hlook.
  destruct (decide (n1 = length psc)) as [Hn1 | Hn1].
  2: { (* the last child keeps pages: the loop stops at the next test *)
    exists (S (S fc)). rewrite truncateTables_unfold.
    assert (E : (tp_usedSize tp <=? size') = false) by lia. rewrite E, Hlook.
    rewrite (recursiveTruncate_mono fc (S fc) _ _ _ _ _ ltac:(lia) Hrunc).
    cbn [bind].
    rewrite bool_decide_eq_false_2 in Hbc by lia. subst bc.
    assert (E1 : (tp_usedSize tp1 <=? size') = true).
    { rewrite Htp1. simpl. specialize (Hstop1 ltac:(lia)). lia. }
    rewrite truncateTables_unfold, E1. eexists. split; [done |]. unfold truncate_post.
    rewrite Hcutapp.
    rewrite length_app.
    replace (length (concat pss0) + length psc - n1)%nat
      with (length (concat pss0) + (length psc - n1))%nat by lia.
    rewrite take_app_add'; [| done].
    assert (Htk : take (length psc - n1) psc <> []).
    { intros Habs. apply (f_equal length) in Habs. rewrite length_take in Habs.
      simpl in Habs. lia. }
    split; [| split; [| split; [| split]]].
    - rewrite bool_decide_eq_false_2; [done | lia].
    - rewrite Htp1. by rewrite <- app_assoc.
    - intros _.
      eapply (wf_inner' h _ (cs ++ [c']) (pss0 ++ [take (length psc - n1) psc])); try done.
      + simpl. by apply (dense_replace_last _ _ c).
      + by destruct cs.
      + rewrite len_app in *. unfold len in *. simpl in *. lia.
      + apply Forall2_app; [done |]. constructor; [| done]. apply Hwfc. lia.
      + by rewrite removelast_last.
      + rewrite concat_app. simpl. by rewrite app_nil_r.
    - lia.
    - split; [done |]. split; [done |]. split; [done |].
      split; [done |]. split.
      { unfold shrunk in *. by rewrite last_app_nonempty. }
      exists freed0c. repeat split; try done.
      + intros Hn. rewrite (Hf1 Hn). symmetry. by apply last_app_nonempty.
      + lia. }
  (* the last child is emptied and removed *)
  subst n1. specialize (Hall1 eq_refl). subst s1.
  rewrite bool_decide_eq_true_2 in Hbc by lia. subst bc.
  rewrite Nat.sub_diag in *. simpl take in *. rewrite app_nil_r in Htp1.
  simpl shrunk in Hson1. unfold shrunk in Hson1. simpl in Hson1.
  pose proof (heap_ok_same pm pm1 Hso1 Hok) as Hok1.
  remember (set_childTables
              (delete (len cs) (childTables (set_childTables (<[len cs := c']> (childTables pt)) pt)))
              (set_childTables (<[len cs := c']> (childTables pt)) pt)) as pt2 eqn:Ept2.
  assert (Hd2 : dense (childTables pt2) cs).
  { rewrite Ept2. simpl. rewrite delete_insert_eq. by apply (dense_delete_last _ _ c). }
  assert (Hpt2 : pt_pp pt2 = pt_pp pt /\ height pt2 = height pt /\ parent pt2 = parent pt).
  { by rewrite Ept2. }
  destruct Hpt2 as (Hpp2 & Hh2 & Hpar2).
  pose proof Hok1 as (Henc1 & HN1 & HP1).
  destruct (writeToDisk_ok pm1 pt2) as (pm2 & Hw & Hso2 & Hother2 & _).
  { exact Henc1. }
  { apply HN1. by rewrite Hpp2. }
  { rewrite Hh2, Hht. lia. }
  { intros _. exists cs. split; [done |].
    clear -Hall0 HN1 Hh. induction Hall0 as [| c1 ps1 cs1 pss1 Hc1 _ IH']; [done |].
    constructor; [| done]. apply HN1.
    by apply wf_node_height_nonneg in Hc1 as (_ & _ & ?). }
  pose proof (heap_ok_same pm1 pm2 Hso2 Hok1) as Hok2.
  assert (Hson2 : same_on P pm pm2).
  { intros r Hr. rewrite Hother2; [by apply Hson1 |].
    intros ->. rewrite Hpp2 in Hr. by apply (HNP (pt_pp pt)). }
  assert (Hused : map (used pm2) (concat pss0) = map (used pm) (concat pss0)).
  { by apply (same_on_used P). }
  assert (Hhd : hd_error (freed0c ++ [pt_pp c']) = last psc).
  { specialize (Hf1 ltac:(lia)). destruct (last psc) as [x |] eqn:El.
    - by apply hd_error_app_nonempty.
    - by apply last_None in El. }
  destruct cs as [| c1 cs1] eqn:Ecs.
  { (* it was the only child *)
    inversion Hall0; subst. simpl concat in *. simpl in Hpages.
    exists (S fc). rewrite truncateTables_unfold.
    assert (E : (tp_usedSize tp <=? size') = false) by lia. rewrite E, Hlook.
    rewrite Hrunc. cbn [bind]. rewrite Hw. cbn [bind].
    rewrite (dense_size _ _ Hd2). simpl.
    eexists. split; [done |]. unfold truncate_post.
    simpl in Hcutapp. rewrite Hcutapp. simpl.
    rewrite Nat.add_0_r, Nat.sub_diag. simpl.
    split; [done |]. split; [done |].
    split; [done |]. split.
    { intros _. unfold no_children. simpl height. rewrite Hht.
      destruct (h + 1 =? 0) eqn:E0; [zbool; lia |].
      by apply dense_nil_inv. }
    split; [done |]. split; [done |]. split; [done |].
    split; [eapply same_offsets_trans; eauto |]. split; [done |].
    exists (freed0c ++ [pt_pp c']). rewrite <- app_assoc. repeat split; try done; lia. }
  rewrite <- Ecs in *.
  assert (Hcsne : cs <> []) by (rewrite Ecs; done).
  destruct (IH pss0 pt2 pre ((acc ++ freed0c) ++ [pt_pp c']) tp1 pm2)
    as (f0 & res0 & Hrun0 & Hpost0); try done.
  { by rewrite Hh2. }
  { by rewrite Hpp2. }
  { rewrite len_app in Hlen. unfold len in *. simpl in *. lia. }
  { clear -Hfull. destruct pss0 as [| x l] using rev_ind; [done |].
    rewrite removelast_last. apply Forall_app in Hfull as [? _]. done. }
  { rewrite Htp1. done. }
  exists (S (fc + f0)). rewrite truncateTables_unfold.
  assert (E : (tp_usedSize tp <=? size') = false) by lia. rewrite E, Hlook.
  rewrite (recursiveTruncate_mono fc (fc + f0) _ _ _ _ _ ltac:(lia) Hrunc).
  cbn [bind]. rewrite <- Ept2, Hw. cbn [bind].
  rewrite (dense_size _ _ Hd2).
  assert (Hnz : (length cs =? 0)%nat = false).
  { apply Nat.eqb_neq. rewrite Ecs. simpl. lia. }
  rewrite Hnz.
  rewrite (truncateTables_mono f0 (fc + f0) _ _ _ _ _ _ _ ltac:(lia) Hrun0).
  eexists. split; [done |].
  destruct res0 as [[[[b0 freed0] pt'] tp'] pm'].
  unfold truncate_post in Hpost0 |- *.
  rewrite Hused in Hpost0. rewrite Htp1 in Hpost0. simpl tp_usedSize in Hpost0.
  pose proof (cut_count_le size' (rev (map (used pm) (concat pss0))) U1) as Hle0.
  rewrite length_rev, length_map in Hle0.
  rewrite Hcutapp.
  destruct (cut size' U1 (rev (map (used pm) (concat pss0)))) as [[U0 n0] s0].
  simpl in Hle0.
  destruct Hpost0 as (Hb0 & Htp' & Hwf' & Hempty' & Hpp' & Hh' & Hpar' & Hso' & Hson'
                      & freed00 & Hfreed0 & _ & _ & _).
  rewrite length_app.
  replace (length (concat pss0) + length psc - (length psc + n0))%nat
    with (length (concat pss0) - n0)%nat by lia.
  rewrite take_app_le by lia.
  split; [done |]. split; [done |]. split; [done |]. split; [done |].
  split; [by rewrite Hpp' |]. split; [by rewrite Hh' |]. split; [by rewrite Hpar' |].
  split.
  { eapply same_offsets_trans; [| exact Hso']. eapply same_offsets_trans; eauto. }
  split.
  { eapply same_on_trans; [| exact Hson']. by apply same_on_shrunk. }
  exists ((freed0c ++ [pt_pp c']) ++ freed00). rewrite Hfreed0, <- !app_assoc.
  repeat split; try done.
  - lia.
  - intros _. rewrite app_assoc.
    destruct (last psc) as [x |] eqn:El; [| by apply last_None in El].
    rewrite (last_app_nonempty _ psc Hpsc), El.
    apply hd_error_app_nonempty. exact Hhd.
  - lia.
Qed.

Lemma recursiveTruncate_unfold (fuel : nat) (tp : tieredPage) (pt : pageTable)
    (pm : PageManager) :
  recursiveTruncate (S fuel) tp pt size' pm
  = if height pt >? 0 then
      truncateTables fuel size' (wrap_uint64 (Z.of_nat (size (childTables pt)) - 1))
        pt tp pm []
    else if height pt =? 0 then
      truncatePages fuel size' (wrap_uint64 (Z.of_nat (size (childPages pt)) - 1))
        pt tp pm []
    else Panic "sanity check failed. height can't be a negative value.".
Proof. reflexivity. Qed.

(** [recursiveTruncate] on a well-formed node of any height. *)
Lemma recursiveTruncate_spec (h : Z) :
  0 <= h ->
  forall pt ps pre tp pm,
  wf_node N P h pt ps -> heap_ok N P pm -> pages tp = pre ++ ps ->
  exists fuel res, recursiveTruncate fuel tp pt size' pm = Ok res /\
    truncate_post N P size' h pt ps pre [] tp pm res.
Proof.
  intros Hh. pattern h. apply natlike_ind; [| | done].
  - intros pt ps pre tp pm. apply recursiveTruncate_leaf.
  - clear h Hh. intros h Hh IH pt ps pre tp pm Hwf Hok Hpages.
    apply (wf_node_inner_inv h pt ps Hh) in Hwf
      as (cs & pss & -> & Hht & HNpt & Hd & Hne & Hlen & Hall & Hfull).
    destruct (truncateTables_spec h Hh IH cs pss pt pre [] tp pm)
      as (f & res & Hrun & Hpost); try done.
    exists (S f), res. split; [| done].
    rewrite recursiveTruncate_unfold, Hht.
    assert (E : (h + 1 >? 0) = true) by lia. rewrite E.
    rewrite (dense_size _ _ Hd). exact Hrun.
Qed.

Lemma sum_used_rev (pm : PageManager) (ps : list ref) :
  sum_used pm ps = foldr Z.add 0 (rev (map (used pm) ps)).
Proof.
  unfold sum_used. induction ps as [| r ps IH]; simpl; [done |].
  rewrite IH. clear IH. generalize (rev (map (used pm) ps)). intros l.
  induction l as [| x l IH]; simpl; lia.
Qed.

(** [recursiveTruncate] on the root of a well-formed tiered page whose
    [usedSize] is the sum of the sizes of its pages. *)
Lemma recursiveTruncate_root (tp : tieredPage) (pm : PageManager) :
  wf_root N P (root tp) (pages tp) -> heap_ok N P pm ->
  tp_usedSize tp = sum_used pm (pages tp) -> 0 <= size' ->
  exists fuel res, recursiveTruncate fuel tp (root tp) size' pm = Ok res /\
    truncate_root_post N P size' tp pm res.
Proof.
  intros [(Hnil & Hh & HNr & Hno) | Hwf] Hok HU Hs.
  - (* the empty root *)
    rewrite Hnil in HU. simpl in HU.
    exists 2%nat, (false, [], root tp, tp, pm).
    split.
    + rewrite recursiveTruncate_unfold.
      destruct (height (root tp) >? 0) eqn:E1.
      * rewrite truncateTables_unfold.
        assert (E : (tp_usedSize tp <=? size') = true) by lia. by rewrite E.
      * assert (E0 : (height (root tp) =? 0) = true) by (zbool; lia). rewrite E0.
        simpl. assert (E : (tp_usedSize tp <=? size') = true) by lia. by rewrite E.
    + unfold truncate_root_post. rewrite Hnil. simpl.
      split; [by apply tp_eta |]. split; [by left |].
      split; [done |]. split; [done |]. split; [done |].
      split; [apply same_offsets_refl |]. split; [apply same_on_refl |].
      repeat split; done.
  - pose proof (wf_node_height_nonneg _ _ _ Hwf) as (Hh & _ & HNr).
    destruct (recursiveTruncate_spec (height (root tp)) Hh (root tp) (pages tp) [] tp pm)
      as (fuel & res & Hrun & Hpost); try done.
    exists fuel, res. split; [done |].
    destruct res as [[[[b freed] pt'] tp'] pm'].
    unfold truncate_post in Hpost. unfold truncate_root_post.
    destruct (cut size' (tp_usedSize tp) (rev (map (used pm) (pages tp)))) as [[U' n] s].
    destruct Hpost as (_ & -> & Hwf' & Hempty' & Hpp' & Hh' & Hpar' & Hso & Hson
                       & freed0 & -> & Hf0 & Hf1 & Hf2).
    simpl. split; [done |]. split.
    { destruct (decide ((length (pages tp) - n)%nat = 0%nat)) as [Hk | Hk].
      - left. rewrite Hk. simpl. split; [done |]. rewrite Hh', Hpp'.
        split; [done |]. split; [done | by apply Hempty'].
      - right. rewrite Hh'. by apply Hwf'. }
    repeat split; done.
Qed.

End TruncateNode.

Section TruncateTheorem.
Context {C : Constants} {SR : ShortRead}.

(** C9. On a well-formed tiered page (dense child slots, the page list in
    the order of the leaves, [usedSize] the sum of the sizes of the pages)
    and for a size that is not negative, [recursiveTruncate] ends, with
    enough fuel, in a normal return: it reads no child slot that is not
    populated, although its counters wrap around below zero.  It stops as
    soon as [usedSize <= size]: the new [usedSize] is [min usedSize size],
    nothing changes when [usedSize <= size] held before, the pages kept are
    a prefix of the page list, and the tree is well formed again. *)
Theorem C9_recursiveTruncate_terminates_within_populated_slots
    (N P : ref -> Prop) (tp : tieredPage) (pm : PageManager) (size' : Z) :
  (forall r, N r -> P r -> False) ->
  numPageEntries < 2 ^ 64 ->
  wf_root N P (root tp) (pages tp) ->
  heap_ok N P pm ->
  tp_usedSize tp = sum_used pm (pages tp) ->
  0 <= size' ->
  exists fuel0, forall fuel, (fuel0 <= fuel)%nat ->
    exists b freed pt' tp' pm',
      recursiveTruncate fuel tp (root tp) size' pm = Ok (b, freed, pt', tp', pm') /\
      tp_usedSize tp' = Z.min (tp_usedSize tp) size' /\
      (tp_usedSize tp <= size' -> freed = [] /\ pages tp' = pages tp) /\
      (exists k, pages tp' = take k (pages tp)) /\
      wf_root N P pt' (pages tp').
Proof.
  intros HNP HF Hwf Hok HU Hs.
  destruct (recursiveTruncate_root N P size' HNP HF tp pm Hwf Hok HU Hs)
    as (fuel0 & res & Hrun & Hpost).
  exists fuel0. intros fuel Hfuel.
  destruct res as [[[[b freed] pt'] tp'] pm'].
  exists b, freed, pt', tp', pm'.
  split; [by apply (recursiveTruncate_mono fuel0 fuel) |].
  unfold truncate_root_post in Hpost.
  pose proof (cut_min size' (rev (map (used pm) (pages tp))) (tp_usedSize tp) Hs) as Hmin.
  pose proof (cut_unchanged size' (rev (map (used pm) (pages tp))) (tp_usedSize tp)) as Hsame.
  rewrite <- sum_used_rev in Hmin. specialize (Hmin HU).
  destruct (cut size' (tp_usedSize tp) (rev (map (used pm) (pages tp)))) as [[U' n] s].
  simpl in Hmin.
  destruct Hpost as (-> & Hwf' & _ & _ & _ & _ & _ & Hf0 & _).
  simpl. split; [done |]. split; [| split; [eauto | done]].
  intros Hle. specialize (Hsame Hle). injection Hsame as _ -> _.
  split; [by apply Hf0 |]. by rewrite Nat.sub_0_r, firstn_all.
Qed.

End TruncateTheorem.

(** ** defrag on well-formed trees *)

Section DefragOk.
Context {C : Constants} {SR : ShortRead}.
Variables (N P : ref -> Prop).

Lemma writeTieredPageEntry_ok (pm : PageManager) (pp : ref) (index usedBytes pageOff : Z) :
  allocated pm pp -> 0 <= usedBytes < 2 ^ 55 -> 0 <= pageOff < 2 ^ 55 ->
  exists pm', writeTieredPageEntry pp index usedBytes pageOff pm = Ok pm' /\
    same_offsets pm pm' /\
    (forall r', r' <> pp -> pm_heap pm' !! r' = pm_heap pm !! r') /\
    pm_nextRef pm' = pm_nextRef pm /\ pm_fileSize pm' = pm_fileSize pm /\
    recyclePages pm' = recyclePages pm /\ freePages pm' = freePages pm.
Proof.
  intros Halloc Hu Ho. unfold writeTieredPageEntry.
  destruct (BinaryFacts.PutVarint_ok usedBytes Hu) as (s1 & -> & _).
  destruct (BinaryFacts.PutVarint_ok pageOff Ho) as (s2 & -> & _). simpl.
  destruct (pp_writeAt_ok pm pp (s1 ++ s2) (index * tieredPageEntrySize) Halloc)
    as (n & pm' & -> & _ & H).
  simpl. eauto.
Qed.

Lemma wf_node_set_parent (h : Z) (pt : pageTable) (ps : list ref) (p : option ref) :
  wf_node N P h pt ps -> wf_node N P h (set_parent p pt) ps.
Proof.
  intros H. inversion H; subst.
  - by apply wf_leaf.
  - by eapply wf_inner.
Qed.

Lemma same_on_except (pm pm' : PageManager) (r0 : ref) :
  ~ P r0 ->
  (forall r', r' <> r0 -> pm_heap pm' !! r' = pm_heap pm !! r') ->
  same_on P pm pm'.
Proof. intros Hn H r Hr. apply H. intros ->. done. Qed.

Lemma defragLoop_unfold (fuel : nat) (tp : tieredPage) (pm : PageManager) (acc : list ref) :
  defragLoop (S fuel) tp pm acc
  = if (height (root tp) >? 0) && (size (childTables (root tp)) =? 1)%nat then
      match childTables (root tp) !! 0 with
      | None => Panic nil_deref
      | Some child =>
          let! childPg := deref pm (pt_pp child) in
          let! pm1 := writeTieredPageEntry (tp_pp tp) (height child) (tp_usedSize tp)
                        (fileOff childPg) pm in
          let! pm2 := writeTieredPageEntry (tp_pp tp) (height (root tp)) 0 0 pm1 in
          defragLoop fuel (set_root (set_parent None child) tp) pm2
            (acc ++ [pt_pp (root tp)])
      end
    else Ok (acc, tp, pm).
Proof. reflexivity. Qed.

(** The loop of [defrag] on a well-formed tree: it ends, keeps the pages
    and the size, and leaves a well-formed tree over the same pages. *)
Lemma defragLoop_ok (h : Z) :
  0 <= h ->
  forall (tp : tieredPage) (pm : PageManager) (acc ps : list ref),
  height (root tp) = h -> wf_root N P (root tp) ps -> heap_ok N P pm ->
  allocated pm (tp_pp tp) -> ~ P (tp_pp tp) -> 0 <= tp_usedSize tp < 2 ^ 55 ->
  exists fuel freed tp' pm',
    defragLoop fuel tp pm acc = Ok (freed, tp', pm') /\
    pages tp' = pages tp /\ tp_usedSize tp' = tp_usedSize tp /\ tp_pp tp' = tp_pp tp /\
    wf_root N P (root tp') ps /\ same_offsets pm pm' /\ same_on P pm pm' /\
    (h = 0 -> freed = acc /\ tp' = tp /\ pm' = pm) /\
    (exists f0, freed = acc ++ f0 /\ Forall N f0).
Proof.
  intros Hh. pattern h. apply natlike_ind; [| | done]; clear h Hh.
  - intros tp pm acc ps Hht Hwf Hok Hpp HnP HU.
    exists 1%nat, acc, tp, pm. rewrite defragLoop_unfold, Hht. simpl.
    split_and!; try done; try apply same_offsets_refl; try apply same_on_refl.
    exists []. by rewrite app_nil_r.
  - intros h Hh IH. unfold Z.succ. intros tp pm acc ps Hht Hwf Hok Hpp HnP HU.
    assert (Hexit : (size (childTables (root tp)) =? 1)%nat = false ->
              exists fuel freed tp' pm',
                defragLoop fuel tp pm acc = Ok (freed, tp', pm') /\
                pages tp' = pages tp /\ tp_usedSize tp' = tp_usedSize tp /\
                tp_pp tp' = tp_pp tp /\
                wf_root N P (root tp') ps /\ same_offsets pm pm' /\ same_on P pm pm' /\
                (h + 1 = 0 -> freed = acc /\ tp' = tp /\ pm' = pm) /\
                (exists f0, freed = acc ++ f0 /\ Forall N f0)).
    { intros E. exists 1%nat, acc, tp, pm. rewrite defragLoop_unfold, E, andb_false_r.
      split_and!; try done; try apply same_offsets_refl; try apply same_on_refl; try lia.
      exists []. by rewrite app_nil_r. }
    destruct Hwf as [(Hnil & _ & HNr & Hno) | Hwf].
    { apply Hexit. unfold no_children in Hno. rewrite Hht in Hno.
      destruct (h + 1 =? 0) eqn:E0; [zbool; lia |]. by rewrite Hno, map_size_empty. }
    rewrite Hht in Hwf.
    apply (wf_node_inner_inv N P h _ _ Hh) in Hwf
      as (cs & pss & -> & _ & HNr & Hd & Hne & Hlen & Hall & Hfull).
    destruct (size (childTables (root tp)) =? 1)%nat eqn:E1; [| by apply Hexit].
    apply Nat.eqb_eq in E1. rewrite (dense_size _ _ Hd) in E1.
    destruct cs as [| c [| c2 cs]]; try discriminate.
    inversion Hall as [| c0 psc l1 l2 Hc Hnil]; subst. inversion Hnil; subst.
    simpl concat. rewrite app_nil_r.
    pose proof (wf_node_height_nonneg N P _ _ _ Hc) as (_ & Hhc & HNc).
    pose proof Hok as (Henc & HN & HP).
    destruct (deref_allocated pm (pt_pp c) (HN _ HNc)) as (cpg & Hcpg & Hderef).
    destruct (writeTieredPageEntry_ok pm (tp_pp tp) (height c) (tp_usedSize tp) (fileOff cpg))
      as (pm1 & Hw1 & Hso1 & Hoth1 & _); try done.
    { eapply Henc, Hcpg. }
    destruct (writeTieredPageEntry_ok pm1 (tp_pp tp) (height (root tp)) 0 0)
      as (pm2 & Hw2 & Hso2 & Hoth2 & _); try done.
    { eapply same_offsets_allocated; eauto. }
    assert (Hso : same_offsets pm pm2) by (eapply same_offsets_trans; eauto).
    assert (Hson : same_on P pm pm2).
    { eapply same_on_trans; eapply same_on_except; eauto. }
    destruct (IH (set_root (set_parent None c) tp) pm2 (acc ++ [pt_pp (root tp)]) psc)
      as (fuel & freed & tp' & pm' & Hrun & Hp & Hu & Hpp' & Hwf' & Hso' & Hson' & _ & f0 & Hf0 & HNf0);
      try done.
    { right. simpl. rewrite Hhc. by apply wf_node_set_parent. }
    { eapply heap_ok_same; [| exact Hok]; done. }
    { eapply same_offsets_allocated; eauto. }
    exists (S fuel), freed, tp', pm'.
    rewrite defragLoop_unfold, Hht.
    assert (E : (h + 1 >? 0) = true) by lia. rewrite E.
    rewrite (dense_size _ _ Hd). simpl.
    rewrite Hd. unfold index. simpl.
    rewrite Hderef. cbn [bind]. rewrite Hw1. cbn [bind]. rewrite <- Hht, Hw2. cbn [bind].
    rewrite Hrun. split_and!; try done.
    + eapply same_offsets_trans; eauto.
    + eapply same_on_trans; eauto.
    + lia.
    + exists (pt_pp (root tp) :: f0). rewrite Hf0, <- app_assoc. split; [done |].
      by constructor.
Qed.

Lemma defrag_ok (tp : tieredPage) (pm : PageManager) (ps : list ref) :
  wf_root N P (root tp) ps -> heap_ok N P pm ->
  allocated pm (tp_pp tp) -> ~ P (tp_pp tp) -> 0 <= tp_usedSize tp < 2 ^ 55 ->
  exists fuel freed tp' pm',
    defrag fuel tp pm = Ok (freed, tp', pm') /\
    pages tp' = pages tp /\ tp_usedSize tp' = tp_usedSize tp /\ tp_pp tp' = tp_pp tp /\
    wf_root N P (root tp') ps /\ same_offsets pm pm' /\ same_on P pm pm' /\
    (height (root tp) = 0 -> freed = [] /\ tp' = tp) /\
    Forall N freed.
Proof.
  intros Hwf Hok Hpp HnP HU.
  assert (HNr : N (pt_pp (root tp)) /\ 0 <= height (root tp)).
  { destruct Hwf as [(_ & ? & ? & _) | Hwf]; [done |].
    by apply wf_node_height_nonneg in Hwf as (? & _ & ?). }
  destruct HNr as (HNr & Hh).
  pose proof Hok as (Henc & HN & HP).
  destruct (deref_allocated pm _ (HN _ HNr)) as (rpg & Hrpg & Hderef).
  destruct (writeTieredPageEntry_ok pm (tp_pp tp) (height (root tp)) (tp_usedSize tp)
              (fileOff rpg)) as (pm1 & Hw1 & Hso1 & Hoth1 & _); try done.
  { eapply Henc, Hrpg. }
  destruct (defragLoop_ok (height (root tp)) Hh tp pm1 [] ps)
    as (fuel & freed & tp' & pm' & Hrun & Hp & Hu & Hpp' & Hwf' & Hso' & Hson' & Hz & f0 & Hf0 & HNf0);
    try done.
  { eapply heap_ok_same; [| exact Hok]; done. }
  { eapply same_offsets_allocated; eauto. }
  exists fuel, freed, tp', pm'. unfold defrag. rewrite Hderef. cbn [bind].
  rewrite Hw1. cbn [bind]. rewrite Hrun.
  split_and!; try done.
  - eapply same_offsets_trans; eauto.
  - eapply same_on_trans; [| exact Hson']. eapply same_on_except; eauto.
  - intros Hz0. destruct (Hz Hz0) as (-> & -> & _). done.
  - by rewrite Hf0.
Qed.

End DefragOk.

(** ** The recycler *)

Section FreePage.
Context {C : Constants} {SR : ShortRead}.
Variables (N P : ref -> Prop).
Hypothesis HPS : 0 < pageSize.
Hypothesis HF : numPageEntries < 2 ^ 64.

Lemma sum_used_full (pm : PageManager) (ps : list ref) :
  Forall (fun r => used pm r = pageSize) ps -> sum_used pm ps = len ps * pageSize.
Proof.
  unfold sum_used, len. induction 1 as [| r ps Hr _ IH]; simpl; [done |].
  rewrite IH, Hr. lia.
Qed.

Lemma cut_one_full (U : Z) (us : list Z) :
  cut (U - pageSize) U (pageSize :: us) = (U - pageSize, 1%nat, None).
Proof.
  simpl. assert (E1 : (U <=? U - pageSize) = false) by lia. rewrite E1.
  assert (E2 : (U - (U - pageSize) <? pageSize) = false) by lia. rewrite E2.
  by rewrite cut_unchanged by lia.
Qed.

Lemma used_set_usedSize_eq (pm : PageManager) (r : ref) (u : Z) :
  allocated pm r -> used (set_usedSize r u pm) r = u.
Proof.
  intros [pg Hpg]. unfold used. rewrite heap_set_usedSize, decide_True by done.
  by rewrite Hpg.
Qed.

Lemma used_set_usedSize_ne (pm : PageManager) (r r' : ref) (u : Z) :
  r <> r' -> used (set_usedSize r u pm) r' = used pm r'.
Proof. intros Hne. unfold used. by rewrite heap_set_usedSize, decide_False. Qed.

Lemma used_same_on (pm pm' : PageManager) (r : ref) :
  same_on P pm pm' -> P r -> used pm' r = used pm r.
Proof. intros H Hr. unfold used. by rewrite (H r Hr). Qed.

Lemma freePage_buffer (fuel : nat) (rp : recyclingPage) (pm : PageManager)
    (b : list ref) (p : ref) :
  pagesToFree rp = b ++ [p] ->
  freePage fuel rp pm = Ok (p, RecyclingPage (rp_tp rp) b, set_usedSize p 0 pm).
Proof.
  intros Hb. unfold freePage, availablePages. rewrite Hb, len_app.
  pose proof (len_nonneg b). pose proof (len_nonneg (pages (rp_tp rp))).
  assert (E : (len b + len [p] + len (pages (rp_tp rp)) =? 0) = false).
  { apply Z.eqb_neq. change (len [p]) with 1. lia. }
  rewrite E, last_snoc, removelast_last. done.
Qed.

(** [freePage] on a well-formed recycler with an empty buffer: the last
    page of the list comes back, the tree loses exactly that page, and the
    recycler is well formed again. *)
Lemma freePage_tree (rp : recyclingPage) (pm : PageManager) (ps : list ref) (p : ref) :
  wf_recycler N P rp pm -> pagesToFree rp = [] -> pages (rp_tp rp) = ps ++ [p] ->
  exists fuel0 rp' pm',
    (forall fuel, (fuel0 <= fuel)%nat -> freePage fuel rp pm = Ok (p, rp', pm')) /\
    pages (rp_tp rp') = ps /\
    tp_usedSize (rp_tp rp') = tp_usedSize (rp_tp rp) - pageSize /\
    used pm' p = 0 /\
    wf_recycler N P rp' pm' /\
    (height (root (rp_tp rp)) = 0 ->
       pagesToFree rp' = [] /\ height (root (rp_tp rp')) = 0).
Proof.
  intros (HNP & Hwf & Hok & HNpp & Hnd & Hfull & HU & HUb) Hbuf Hpages.
  set (tp := rp_tp rp) in *.
  assert (Hsum : tp_usedSize tp = sum_used pm (pages tp)) by (by rewrite sum_used_full).
  assert (Hlenp : len (pages tp) = len ps + 1).
  { rewrite Hpages, len_app. unfold len. simpl. lia. }
  pose proof (len_nonneg ps) as Hps0.
  destruct (recursiveTruncate_root N P (tp_usedSize tp - pageSize) HNP HF tp pm Hwf Hok Hsum)
    as (f1 & res & Hrun & Hpost); [nia |].
  destruct res as [[[[b freed1] root'] tp1] pm1].
  unfold truncate_root_post in Hpost.
  assert (Hus : rev (map (used pm) (pages tp)) = pageSize :: rev (map (used pm) ps)).
  { rewrite Hpages, map_app, rev_app_distr. simpl. f_equal.
    rewrite Hpages in Hfull. apply Forall_app in Hfull as [_ Hp]. by apply Forall_inv in Hp. }
  rewrite Hus, cut_one_full in Hpost.
  assert (Htake : take (length (pages tp) - 1) (pages tp) = ps).
  { rewrite Hpages, length_app. simpl. rewrite Nat.add_sub. by rewrite take_app_length. }
  assert (Hdrop : drop (length (pages tp) - 1) (pages tp) = [p]).
  { rewrite Hpages, length_app. simpl. rewrite Nat.add_sub. by rewrite drop_app_length. }
  rewrite Htake, Hdrop in Hpost.
  destruct Hpost as (Htp1 & Hwf1 & Hpp1 & Hh1 & Hpar1 & Hso1 & Hson1 & _ & Hhd & Hleaf).
  specialize (Hhd ltac:(lia)). rewrite Hpages, last_snoc in Hhd.
  destruct freed1 as [| first rest]; [discriminate |]. injection Hhd as ->.
  unfold shrunk in Hson1.
  pose proof (heap_ok_same N P pm pm1 Hso1 Hok) as Hok1.
  pose proof Hok1 as (Henc1 & HN1 & HP1).
  destruct (defrag_ok N P (set_root root' tp1) pm1 ps)
    as (f2 & freed2 & tp3 & pm2 & Hrun2 & Hp3 & Hu3 & Hpp3 & Hwf3 & Hso2 & Hson2 & Hz2 & HNf2);
    try done.
  { rewrite Htp1. simpl. apply HN1. done. }
  { rewrite Htp1. simpl. intros HPpp. by apply (HNP (tp_pp tp)). }
  { rewrite Htp1. simpl. nia. }
  assert (HPp : P p).
  { destruct Hwf as [(Hnil & _) | Hwf].
    - rewrite Hpages in Hnil. by destruct ps.
    - pose proof (wf_node_height_nonneg N P _ _ _ Hwf) as (Hh & _).
      pose proof (wf_node_pages N P _ Hh _ _ Hwf) as HPall.
      rewrite Hpages in HPall. apply Forall_app in HPall as [_ Hp]. by apply Forall_inv in Hp. }
  assert (Hnotin : p ∉ ps).
  { rewrite Hpages in Hnd. apply NoDup_app in Hnd as (_ & Hdisj & _).
    intros Hin. apply (Hdisj p Hin). by apply list_elem_of_singleton. }
  exists (max f1 f2), (RecyclingPage tp3 (pagesToFree rp ++ (rest ++ freed2))),
    (set_usedSize p 0 pm2).
  split; [| split; [| split; [| split; [| split]]]].
  - intros fuel Hfuel. unfold freePage, availablePages. fold tp.
    assert (E : (len (pagesToFree rp) + len (pages tp) =? 0) = false).
    { pose proof (len_nonneg (pagesToFree rp)). lia. }
    assert (Hlast : last (pages tp) = Some p) by (by rewrite Hpages, last_snoc).
    rewrite E, Hbuf. simpl last. cbv iota. rewrite Hlast.
    rewrite (recursiveTruncate_mono f1 fuel _ _ _ _ _ ltac:(lia) Hrun). cbn [bind].
    rewrite Nat.eqb_refl. simpl negb. cbv iota.
    assert (Hdef : defrag fuel (set_root root' tp1) pm1 = Ok (freed2, tp3, pm2)).
    { unfold defrag in *.
      destruct (deref pm1 (pt_pp (root (set_root root' tp1)))) as [pg | | |];
        simpl in *; try done.
      destruct (writeTieredPageEntry _ _ _ _ pm1) as [pmx | | |]; simpl in *; try done.
      rewrite <- Hrun2. apply defragLoop_mono; [lia | by rewrite Hrun2]. }
    rewrite Hdef. cbn [bind]. done.
  - simpl. rewrite Hp3, Htp1. done.
  - simpl. rewrite Hu3, Htp1. done.
  - apply used_set_usedSize_eq.
    eapply same_offsets_allocated; [exact Hso2 |]. by apply HP1.
  - assert (Hso : same_offsets pm (set_usedSize p 0 pm2)).
    { eapply same_offsets_trans; [exact Hso1 |].
      eapply same_offsets_trans; [exact Hso2 |]. apply same_offsets_set_usedSize. }
    split; [done |]. simpl. rewrite Hp3, Hu3, Hpp3, Htp1. simpl.
    split; [done |]. split; [by eapply heap_ok_same |]. split; [done |].
    split; [| split; [| split]].
    + rewrite Hpages in Hnd. by apply NoDup_app in Hnd as (? & _).
    + rewrite Hpages in Hfull. apply Forall_app in Hfull as [Hfull _].
      rewrite Forall_forall in Hfull |- *. intros r Hr.
      rewrite used_set_usedSize_ne by (intros ->; done).
      assert (HPr : P r).
      { destruct Hwf1 as [(Hnil & _) | Hwf1]; [by rewrite Hnil in Hr; inversion Hr |].
        pose proof (wf_node_height_nonneg N P _ _ _ Hwf1) as (Hh & _).
        pose proof (wf_node_pages N P _ Hh _ _ Hwf1) as HPall.
        rewrite Forall_forall in HPall. by apply HPall. }
      rewrite (used_same_on pm1 pm2 r Hson2 HPr), (used_same_on pm pm1 r Hson1 HPr).
      by apply Hfull.
    + unfold len in *. nia.
    + nia.
  - intros Hz. simpl. rewrite Hbuf. simpl.
    specialize (Hleaf Hz). injection Hleaf as ->.
    destruct Hz2 as (-> & ->). { rewrite Htp1. simpl. by rewrite Hh1. }
    simpl. split; [done |]. by rewrite Hh1.
Qed.

(** Freeing from a recycler whose root is a leaf hands out the pages from
    the end of the list backwards. *)
Lemma freePages_n_leaf (new : list ref) :
  forall (rp : recyclingPage) (pm : PageManager) (ps0 : list ref),
  wf_recycler N P rp pm -> pagesToFree rp = [] -> height (root (rp_tp rp)) = 0 ->
  pages (rp_tp rp) = ps0 ++ new ->
  exists fuel0 rp' pm',
    (forall fuel, (fuel0 <= fuel)%nat ->
       freePages_n fuel (length new) rp pm = Ok (rev new, rp', pm')) /\
    pages (rp_tp rp') = ps0 /\ pagesToFree rp' = [] /\ wf_recycler N P rp' pm'.
Proof.
  induction new as [| p new IH] using rev_ind; intros rp pm ps0 Hwf Hbuf Hh Hpages.
  - exists 0%nat, rp, pm. rewrite app_nil_r in Hpages. by split_and!.
  - rewrite app_assoc in Hpages.
    destruct (freePage_tree rp pm (ps0 ++ new) p Hwf Hbuf Hpages)
      as (f1 & rp1 & pm1 & Hrun1 & Hp1 & _ & _ & Hwf1 & Hleaf).
    destruct (Hleaf Hh) as (Hbuf1 & Hh1).
    destruct (IH rp1 pm1 ps0 Hwf1 Hbuf1 Hh1 Hp1) as (f2 & rp2 & pm2 & Hrun2 & Hp2 & Hbuf2 & Hwf2).
    exists (max f1 f2), rp2, pm2. split_and!; try done.
    intros fuel Hfuel. rewrite length_app, Nat.add_1_r, rev_app_distr. simpl.
    rewrite (Hrun1 fuel ltac:(lia)). cbn [bind].
    rewrite (Hrun2 fuel ltac:(lia)). done.
Qed.

End FreePage.

(** ** What a write changes in the file *)

Section FileFrame.
Context {C : Constants} {SR : ShortRead}.

Lemma file_write_outside (f : Z -> Z) (pos : Z) (data : list Z) (x : Z) :
  x < pos \/ pos + len data <= x -> file_write f pos data x = f x.
Proof.
  intros H. unfold file_write.
  destruct ((pos <=? x) && (x <? pos + len data)) eqn:E; [| done].
  apply andb_true_iff in E as [E1 E2]. zbool. lia.
Qed.

Lemma file_same_outside_refl (R : ref -> Prop) (pm : PageManager) :
  file_same_outside R pm pm.
Proof. by intros x _. Qed.

Lemma in_page_same_offsets (pm pm' : PageManager) (r : ref) (x : Z) :
  same_offsets pm pm' -> in_page pm' r x -> in_page pm r x.
Proof.
  intros Hso (pg & Hpg & Hx). specialize (Hso r). rewrite Hpg in Hso. simpl in Hso.
  destruct (pm_heap pm !! r) as [pg0 |] eqn:E; [| discriminate].
  injection Hso as Hso. exists pg0. split; [done |]. by rewrite <- Hso.
Qed.

Lemma file_same_outside_trans (R : ref -> Prop) (pm1 pm2 pm3 : PageManager) :
  same_offsets pm1 pm2 ->
  file_same_outside R pm1 pm2 -> file_same_outside R pm2 pm3 ->
  file_same_outside R pm1 pm3.
Proof.
  intros Hso H1 H2 x Hx. rewrite H2, H1; [done | done |].
  intros r Hr Hin. apply (Hx r Hr). by eapply in_page_same_offsets.
Qed.

Lemma file_same_outside_mono (R R' : ref -> Prop) (pm pm' : PageManager) :
  (forall r, R r -> R' r) -> file_same_outside R pm pm' -> file_same_outside R' pm pm'.
Proof. intros HR H x Hx. apply H. intros r Hr. apply Hx. by apply HR. Qed.

Lemma pp_writeAt_file (pm pm' : PageManager) (r : ref) (data : list Z) (off n : Z) :
  0 <= off -> pp_writeAt r data off pm = Ok (n, pm') ->
  file_same_outside (eq r) pm pm'.
Proof.
  intros Hoff Hrun x Hx. unfold pp_writeAt, deref in Hrun.
  destruct (pm_heap pm !! r) as [pg |] eqn:Hpg; [| discriminate].
  simpl in Hrun. injection Hrun as _ <-. simpl.
  apply file_write_outside.
  assert (Hnot : ~ (fileOff pg <= x < fileOff pg + pageSize)).
  { intros Hin. apply (Hx r eq_refl). exists pg. done. }
  unfold len. rewrite length_take. unfold len in *. lia.
Qed.

Lemma writeToDisk_file (pm pm' : PageManager) (pt : pageTable) :
  writeToDisk pt pm = Ok pm' -> file_same_outside (eq (pt_pp pt)) pm pm'.
Proof.
  unfold writeToDisk. intros H.
  destruct (marshal pt pm) as [data | | |]; simpl in H; try discriminate.
  destruct (pp_writeAt (pt_pp pt) data 0 pm) as [[n pm1] | | |] eqn:E; simpl in H;
    try discriminate.
  injection H as <-. by eapply pp_writeAt_file; [| exact E].
Qed.

Lemma writeTieredPageEntry_file (pm pm' : PageManager) (pp : ref) (index u o : Z) :
  0 <= index * tieredPageEntrySize ->
  writeTieredPageEntry pp index u o pm = Ok pm' -> file_same_outside (eq pp) pm pm'.
Proof.
  unfold writeTieredPageEntry. intros Hi H.
  destruct (Binary.PutVarint u) as [s1 | | |]; simpl in H; try discriminate.
  destruct (Binary.PutVarint o) as [s2 | | |]; simpl in H; try discriminate.
  destruct (pp_writeAt pp (s1 ++ s2) _ pm) as [[n pm1] | | |] eqn:E; simpl in H;
    try discriminate.
  injection H as <-. by eapply pp_writeAt_file; [| exact E].
Qed.

End FileFrame.

(** ** Inserting into a leaf root *)

Section InsertLeaf.
Context {C : Constants} {SR : ShortRead}.
Variables (N P : ref -> Prop).
Hypothesis HNP : forall r, N r -> P r -> False.
Hypothesis HF0 : 0 < numPageEntries.
Hypothesis HF : numPageEntries < 2 ^ 64.

Lemma wf_root_leaf_inv (pt : pageTable) (ps : list ref) :
  height pt = 0 -> wf_root N P pt ps ->
  dense (childPages pt) ps /\ N (pt_pp pt) /\ Forall P ps /\ len ps <= numPageEntries.
Proof.
  intros Hh [(-> & _ & HNr & Hno) | Hwf].
  - unfold no_children in Hno. rewrite Hh in Hno. simpl in Hno. rewrite Hno.
    split_and!; try done; [apply dense_empty | unfold len; simpl; lia].
  - rewrite Hh in Hwf. by apply wf_node_leaf_inv in Hwf as (_ & ? & ? & _ & ? & ?).
Qed.

Lemma wf_root_leaf_intro (pt : pageTable) (ps : list ref) :
  height pt = 0 -> N (pt_pp pt) -> dense (childPages pt) ps ->
  len ps <= numPageEntries -> Forall P ps -> wf_root N P pt ps.
Proof.
  intros Hh HNr Hd Hlen HP. destruct ps as [| p ps].
  - left. split_and!; try done; [lia |]. unfold no_children. rewrite Hh. simpl.
    by apply dense_nil_inv.
  - right. rewrite Hh. by apply wf_leaf.
Qed.

Lemma maxPages_0 : maxPages 0 = numPageEntries.
Proof. unfold maxPages. simpl. lia. Qed.

(** [insertPage] of a page at the next index of a leaf root with room. *)
Lemma insertPage_leaf (tp : tieredPage) (pm : PageManager) (pp : ref)
    (tree_ps : list ref) :
  height (root tp) = 0 -> wf_root N P (root tp) tree_ps ->
  len tree_ps < numPageEntries -> P pp -> heap_ok N P pm ->
  exists root' pm',
    (forall fuel, insertPage (S fuel) tp (len tree_ps) pp pm = Ok (set_root root' tp, pm')) /\
    wf_root N P root' (tree_ps ++ [pp]) /\ height root' = 0 /\
    pt_pp root' = pt_pp (root tp) /\
    same_offsets pm pm' /\ same_on P pm pm' /\ same_manager pm pm' /\
    file_same_outside (eq (pt_pp (root tp))) pm pm'.
Proof.
  intros Hh Hwf Hroom HPpp Hok.
  apply (wf_root_leaf_inv _ _ Hh) in Hwf as (Hd & HNr & HPs & Hlen).
  pose proof Hok as (Henc & HNa & HPa).
  pose proof (len_nonneg tree_ps) as Hn0.
  set (root' := set_childPages (<[len tree_ps := pp]> (childPages (root tp))) (root tp)).
  assert (Hd' : dense (childPages root') (tree_ps ++ [pp])).
  { unfold root'. simpl. by apply dense_insert_last. }
  destruct (writeToDisk_ok pm root') as (pm' & Hw & Hso & Hoth & Hnr & Hfs & Hrc & Hfp);
    try done.
  { by apply HNa. }
  { intros _. exists (tree_ps ++ [pp]). split; [done |].
    apply Forall_app. split.
    - eapply Forall_impl; [exact HPs | done].
    - constructor; [by apply HPa | done]. }
  exists root', pm'. split_and!; try done.
  - intros fuel.
    unfold insertPage. simpl insertPage_extend. rewrite Hh, maxPages_0.
    assert (E1 : (len tree_ps >=? numPageEntries) = false) by lia. rewrite E1. cbn [bind].
    simpl insertPage_descend. rewrite Hh. simpl.
    rewrite (dense_size _ _ Hd). fold (len tree_ps).
    assert (E2 : (len tree_ps =? numPageEntries) = false) by lia. rewrite E2.
    rewrite Z.rem_small by lia.
    assert (E3 : (0 <? len tree_ps)
                 && negb (bool_decide (is_Some
                      (childPages (root tp) !! wrap_uint64 (len tree_ps - 1)))) = false).
    { destruct (0 <? len tree_ps) eqn:E0; [| done]. zbool. simpl.
      rewrite wrap_uint64_small by lia. rewrite Hd.
      rewrite bool_decide_eq_true_2; [done |]. apply index_lt_Some. lia. }
    rewrite E3. fold root'. rewrite Hw. done.
  - apply wf_root_leaf_intro; try done.
    + rewrite len_app. unfold len in *. simpl. lia.
    + apply Forall_app. split; [done | by constructor].
  - eapply (same_on_except P); [| exact Hoth]. intros HPr. by apply (HNP (pt_pp (root tp))).
  - by apply writeToDisk_file in Hw.
Qed.

Lemma same_on_weaken (Q Q' : ref -> Prop) (pm pm' : PageManager) :
  (forall r, Q' r -> Q r) -> same_on Q pm pm' -> same_on Q' pm pm'.
Proof. intros HQ H r Hr. apply H. by apply HQ. Qed.

Lemma same_manager_refl (pm : PageManager) : same_manager pm pm.
Proof. by repeat split. Qed.

Lemma same_manager_trans (pm1 pm2 pm3 : PageManager) :
  same_manager pm1 pm2 -> same_manager pm2 pm3 -> same_manager pm1 pm3.
Proof.
  intros (A1 & A2 & A3 & A4) (B1 & B2 & B3 & B4).
  split_and!; congruence.
Qed.

Lemma same_manager_set_usedSize (pm : PageManager) (r : ref) (u : Z) :
  same_manager pm (set_usedSize r u pm).
Proof. by repeat split. Qed.

Lemma file_set_usedSize (R : ref -> Prop) (pm : PageManager) (r : ref) (u : Z) :
  file_same_outside R pm (set_usedSize r u pm).
Proof. by intros x _. Qed.

(** [addPage] on a leaf root with room: the root stays, so the descriptor
    is not written. *)
Lemma addPage_leaf (tp : tieredPage) (pm : PageManager) (pp : ref)
    (tree_ps : list ref) :
  height (root tp) = 0 -> wf_root N P (root tp) tree_ps ->
  len tree_ps < numPageEntries -> P pp -> heap_ok N P pm ->
  exists root' pm',
    (forall fuel, addPage (S fuel) tp (len tree_ps) pp pm = Ok (set_root root' tp, pm')) /\
    wf_root N P root' (tree_ps ++ [pp]) /\ height root' = 0 /\
    pt_pp root' = pt_pp (root tp) /\
    same_offsets pm pm' /\ same_on P pm pm' /\ same_manager pm pm' /\
    file_same_outside (eq (pt_pp (root tp))) pm pm'.
Proof.
  intros Hh Hwf Hroom HPpp Hok.
  destruct (insertPage_leaf tp pm pp tree_ps Hh Hwf Hroom HPpp Hok)
    as (root' & pm' & Hrun & Hwf' & Hh' & Hpp' & Hso & Hon & Hsm & Hfs).
  exists root', pm'. split_and!; try done.
  intros fuel. unfold addPage. rewrite Hrun. cbn [bind]. simpl root.
  rewrite Hpp', Nat.eqb_refl. simpl. done.
Qed.

(** The loop of [addPages] on a leaf root with room for all of [pgs]. *)
Lemma addPages_loop_leaf (setFull : bool) (pgs : list ref) :
  forall (tp : tieredPage) (pm : PageManager) (tree_ps : list ref),
  height (root tp) = 0 -> wf_root N P (root tp) tree_ps ->
  len tree_ps + len pgs <= numPageEntries -> Forall P pgs -> heap_ok N P pm ->
  exists root' pm',
    (forall fuel,
       addPages_loop (S fuel) setFull tp (len tree_ps) pgs pm
       = Ok (set_root root' tp, pm')) /\
    wf_root N P root' (tree_ps ++ pgs) /\ height root' = 0 /\
    pt_pp root' = pt_pp (root tp) /\
    same_offsets pm pm' /\ same_manager pm pm' /\
    file_same_outside (eq (pt_pp (root tp))) pm pm' /\
    same_on (fun r => P r /\ (setFull = true -> r ∉ pgs)) pm pm' /\
    (setFull = true -> Forall (fun r => used pm' r = pageSize) pgs).
Proof.
  induction pgs as [| page pgs IH]; intros tp pm tree_ps Hh Hwf Hroom HP Hok.
  - exists (root tp), pm. simpl. rewrite app_nil_r. destruct tp.
    split_and!; done.
  - apply Forall_cons in HP as [HPpage HP].
    pose proof (len_nonneg tree_ps) as Hn0. pose proof (len_nonneg pgs) as Hn1.
    assert (Hlen : len (page :: pgs) = 1 + len pgs) by (unfold len; simpl; lia).
    set (pm0 := if setFull then set_usedSize page pageSize pm else pm).
    assert (Hso0 : same_offsets pm pm0).
    { unfold pm0. destruct setFull;
        [apply same_offsets_set_usedSize | apply same_offsets_refl]. }
    assert (Hok0 : heap_ok N P pm0) by (by apply (heap_ok_same N P pm)).
    destruct (addPage_leaf tp pm0 page tree_ps Hh Hwf ltac:(lia) HPpage Hok0)
      as (root1 & pm1 & Hrun & Hwf1 & Hh1 & Hpp1 & Hso1 & Hon1 & Hsm1 & Hfs1).
    assert (Hidx : wrap_uint64 (len tree_ps + 1) = len (tree_ps ++ [page])).
    { rewrite len_app. unfold len at 3. simpl. apply wrap_uint64_small. lia. }
    assert (Hok1 : heap_ok N P pm1) by (by apply (heap_ok_same N P pm0)).
    destruct (IH (set_root root1 tp) pm1 (tree_ps ++ [page])) as
      (root2 & pm2 & Hrun2 & Hwf2 & Hh2 & Hpp2 & Hso2 & Hsm2 & Hfs2 & Hon2 & Hfull2);
      try done.
    { rewrite len_app. unfold len at 2. simpl. lia. }
    exists root2, pm2. simpl in Hpp2.
    rewrite <- app_assoc in Hwf2. simpl in Hwf2.
    assert (Hfs0 : file_same_outside (eq (pt_pp (root tp))) pm pm0).
    { unfold pm0. destruct setFull;
        [apply file_set_usedSize | apply file_same_outside_refl]. }
    split_and!; try done.
    + intros fuel. simpl addPages_loop. fold pm0. rewrite Hrun. cbn [bind].
      rewrite Hidx. by rewrite Hrun2.
    + congruence.
    + eapply same_offsets_trans; [| exact Hso2]. by eapply same_offsets_trans.
    + eapply same_manager_trans; [| exact Hsm2]. eapply same_manager_trans; [| exact Hsm1].
      unfold pm0. destruct setFull;
        [apply same_manager_set_usedSize | apply same_manager_refl].
    + eapply file_same_outside_trans; [| | ].
      * eapply same_offsets_trans; [exact Hso0 | exact Hso1].
      * eapply file_same_outside_trans; [exact Hso0 | exact Hfs0 | exact Hfs1].
      * simpl in Hfs2. by rewrite Hpp1 in Hfs2.
    + intros r [HPr Hnot]. rewrite (Hon2 r), (Hon1 r HPr).
      * unfold pm0. destruct setFull; [| done].
        rewrite heap_set_usedSize. destruct (decide (page = r)) as [-> |]; [| done].
        exfalso. apply (Hnot eq_refl). by left.
      * split; [done |]. intros Ht Hin. apply (Hnot Ht). by right.
    + intros Ht. constructor; [| by apply Hfull2].
      destruct (decide (page ∈ pgs)) as [Hin | Hnin].
      * specialize (Hfull2 Ht). rewrite Forall_forall in Hfull2. by apply Hfull2.
      * unfold used. rewrite (Hon2 page), (Hon1 page HPpage); [| done].
        subst pm0. rewrite Ht. rewrite heap_set_usedSize.
        destruct (decide (page = page)); [| done].
        destruct (proj2 (proj2 Hok) page HPpage) as [pg Hpg]. by rewrite Hpg.
Qed.

End InsertLeaf.

(** ** The recycler: pages added and handed out again *)

Section Recycler.
Context {C : Constants} {SR : ShortRead}.
Variables (N P : ref -> Prop).
Hypothesis HPS : 0 < pageSize.
Hypothesis HF0 : 0 < numPageEntries.
Hypothesis HF : numPageEntries < 2 ^ 64.

(** [addPages] of the recycler whose root is a leaf with room for [new]. *)
Lemma rp_addPages_leaf (pm : PageManager) (new : list ref) :
  let rp := freePages pm in
  wf_recycler N P rp pm -> height (root (rp_tp rp)) = 0 ->
  Forall P new -> NoDup (pages (rp_tp rp) ++ new) ->
  len (pages (rp_tp rp)) + len new <= numPageEntries ->
  (len (pages (rp_tp rp)) + len new) * pageSize < 2 ^ 55 ->
  exists pm1,
    (forall fuel, rp_addPages (S fuel) new pm = Ok pm1) /\
    wf_recycler N P (freePages pm1) pm1 /\
    pagesToFree (freePages pm1) = pagesToFree rp /\
    height (root (rp_tp (freePages pm1))) = 0 /\
    pages (rp_tp (freePages pm1)) = pages (rp_tp rp) ++ new.
Proof.
  intros rp (HNP & Hwf & Hok & HNd & Hnd & Hfull & Hsize & Hbound) Hh HPnew Hnd' Hroom Hb'.
  pose proof (len_nonneg (pages (rp_tp rp))) as Hn0.
  pose proof (len_nonneg new) as Hn1.
  set (pm0 := set_recyclePages false pm).
  set (tp0 := set_pages (pages (rp_tp rp) ++ new) (rp_tp rp)).
  assert (Hnext : nextIndex tp0 = len (pages (rp_tp rp))).
  { unfold nextIndex, tp0. simpl. rewrite Hsize. apply Z.quot_mul. lia. }
  destruct (addPages_loop_leaf N P HNP HF0 HF true new tp0 pm0 (pages (rp_tp rp)))
    as (root1 & pm1 & Hrun & Hwf1 & Hh1 & Hpp1 & Hso1 & Hsm1 & _ & Hon1 & Hfull1);
    try done.
  assert (Hok1 : heap_ok N P pm1) by (by apply (heap_ok_same N P pm0)).
  pose proof Hok1 as (Henc1 & HNa1 & HPa1).
  assert (HNroot : N (pt_pp root1)).
  { rewrite Hpp1. simpl. by apply (wf_root_leaf_inv N P HF0 _ _ Hh) in Hwf as (_ & ? & _). }
  destruct (deref_allocated pm1 (pt_pp root1) (HNa1 _ HNroot)) as (pg & Hpg & Hde).
  destruct (writeTieredPageEntry_ok pm1 (tp_pp (rp_tp rp)) (height root1)
              (tp_usedSize (rp_tp rp) + len new * pageSize) (fileOff pg))
    as (pm2 & Hw & Hso2 & Hoth2 & _); [by apply HNa1 | nia | by eapply Henc1 |].
  eexists. split.
  { intros fuel. unfold rp_addPages. fold rp. fold pm0. fold tp0.
    rewrite Hnext, Hrun. cbn [bind]. simpl. rewrite Hde. cbn [bind].
    rewrite Hw. cbn [bind]. reflexivity. }
  simpl.
  assert (HPold : Forall P (pages (rp_tp rp))).
  { by apply (wf_root_leaf_inv N P HF0 _ _ Hh) in Hwf as (_ & _ & ? & _). }
  assert (Hused2 : forall r, P r -> used pm2 r = used pm1 r).
  { intros r HPr. unfold used. rewrite Hoth2; [done |]. intros ->. by apply (HNP _ HNd). }
  split_and!; try done.
  unfold wf_recycler. simpl. split_and!; try done.
  - by apply (heap_ok_same N P pm1).
  - apply Forall_app. split.
    + rewrite Forall_forall. intros r Hr.
      change (used pm2 r = pageSize).
      assert (HPr : P r) by (rewrite Forall_forall in HPold; by apply HPold).
      rewrite (Hused2 r HPr). unfold used. rewrite (Hon1 r).
      * rewrite Forall_forall in Hfull. by apply Hfull.
      * split; [done |]. intros _ Hin. apply NoDup_app in Hnd' as (_ & Hdis & _).
        by apply (Hdis r).
    + specialize (Hfull1 eq_refl). rewrite Forall_forall in Hfull1 |- *. intros r Hr.
      change (used pm2 r = pageSize).
      rewrite Forall_forall in HPnew. rewrite (Hused2 r (HPnew r Hr)). by apply Hfull1.
  - rewrite len_app, Hsize. lia.
  - rewrite Hsize. lia.
Qed.

End Recycler.

(** ** Fresh managers *)

Section Fresh.
Context {C : Constants} {SR : ShortRead}.

Lemma freshHeap_lookup (n : nat) (r : ref) (pg : physicalPage) :
  freshHeap n !! r = Some pg <->
  (r < n)%nat /\ pg = PhysicalPage (Z.of_nat r * pageSize) 0.
Proof.
  unfold freshHeap. rewrite <- elem_of_list_to_map.
  - rewrite list_elem_of_fmap. split.
    + intros (i & Heq & Hi). injection Heq as -> ->. apply elem_of_seq in Hi.
      split; [lia | done].
    + intros (Hr & ->). exists r. split; [done |]. apply elem_of_seq. lia.
  - rewrite <- list_fmap_compose.
    replace (fst ∘ _ <$> seq 0 n) with (seq 0 n); [apply NoDup_seq |].
    induction (seq 0 n) as [| i l IH]; [done |]. simpl. f_equal. exact IH.
Qed.

Lemma freshManager_allocated (n : nat) (r : ref) :
  (r < n)%nat -> allocated (freshManager n) r.
Proof.
  intros Hr. exists (PhysicalPage (Z.of_nat r * pageSize) 0). simpl.
  by apply freshHeap_lookup.
Qed.

Lemma freshManager_heap_ok (N P : ref -> Prop) (n : nat) :
  0 <= pageSize -> Z.of_nat n * pageSize < 2 ^ 55 ->
  (forall r, N r -> (r < n)%nat) -> (forall r, P r -> (r < n)%nat) ->
  heap_ok N P (freshManager n).
Proof.
  intros HPS Hb HN HP. split_and!.
  - intros r pg Hpg. simpl in Hpg. apply freshHeap_lookup in Hpg as (Hr & ->). simpl. nia.
  - intros r Hr. apply freshManager_allocated. by apply HN.
  - intros r Hr. apply freshManager_allocated. by apply HP.
Qed.

Lemma freshManager_wf_recycler (n : nat) :
  0 < pageSize -> Z.of_nat n * pageSize < 2 ^ 55 -> (4 <= n)%nat ->
  wf_recycler (fun r => (r < 4)%nat) (fun r => (4 <= r < n)%nat)
    (freePages (freshManager n)) (freshManager n).
Proof.
  intros HPS Hb Hn. split_and!; simpl; try done; try lia.
  - left. split_and!; try done. simpl. lia.
  - apply freshManager_heap_ok; [lia | done | |]; intros r Hr; lia.
  - constructor.
Qed.

End Fresh.

(** ** Claim C7: the order in which the recycler hands out pages *)

Section RecyclerOrder.
Context {C : Constants} {SR : ShortRead}.

(** Claim C7.  For a well-formed recycler, [freePage] pops the page at the
    tail of the [pagesToFree] buffer when the buffer is not empty; with an
    empty buffer it returns the last page of the pages list, which the tree
    loses, the size of the recycler going down by one page.  When the root
    of the recycler is a leaf with room for the pages [new], adding [new]
    and then taking as many pages returns [new] in reverse order. *)
Theorem C7_freePage_pops_buffer_then_last_page (N P : ref -> Prop) (pm : PageManager)
    (new : list ref) :
  let rp := freePages pm in
  0 < pageSize -> 0 < numPageEntries < 2 ^ 64 ->
  wf_recycler N P rp pm ->
  (forall b p fuel, pagesToFree rp = b ++ [p] ->
     freePage fuel rp pm = Ok (p, RecyclingPage (rp_tp rp) b, set_usedSize p 0 pm)) /\
  (forall ps p, pagesToFree rp = [] -> pages (rp_tp rp) = ps ++ [p] ->
     exists fuel0 rp' pm',
       (forall fuel, (fuel0 <= fuel)%nat -> freePage fuel rp pm = Ok (p, rp', pm')) /\
       pages (rp_tp rp') = ps /\
       tp_usedSize (rp_tp rp') = tp_usedSize (rp_tp rp) - pageSize) /\
  (pagesToFree rp = [] -> height (root (rp_tp rp)) = 0 ->
   Forall P new -> NoDup (pages (rp_tp rp) ++ new) ->
   len (pages (rp_tp rp)) + len new <= numPageEntries ->
   (len (pages (rp_tp rp)) + len new) * pageSize < 2 ^ 55 ->
   exists fuel0 pm1 rp2 pm2, forall fuel, (fuel0 <= fuel)%nat ->
     rp_addPages fuel new pm = Ok pm1 /\
     freePages_n fuel (length new) (freePages pm1) pm1 = Ok (rev new, rp2, pm2) /\
     pages (rp_tp rp2) = pages (rp_tp rp)).
Proof.
  intros rp HPS [HF0 HF] Hwf. split_and!.
  - intros b p fuel Hb. by apply freePage_buffer.
  - intros ps p Hb Hps.
    destruct (freePage_tree N P HPS HF rp pm ps p Hwf Hb Hps)
      as (fuel0 & rp' & pm' & Hrun & Hp & Hu & _).
    by exists fuel0, rp', pm'.
  - intros Hb Hh HPnew Hnd Hroom Hbound.
    destruct (rp_addPages_leaf N P HPS HF0 HF pm new Hwf Hh HPnew Hnd Hroom Hbound)
      as (pm1 & Hrun1 & Hwf1 & Hb1 & Hh1 & Hps1).
    fold rp in Hb1. rewrite Hb in Hb1.
    destruct (freePages_n_leaf N P HPS HF new (freePages pm1) pm1 (pages (rp_tp rp))
                Hwf1 Hb1 Hh1 Hps1) as (fuel0 & rp2 & pm2 & Hrun2 & Hps2 & _).
    exists (S fuel0), pm1, rp2, pm2. intros fuel Hfuel.
    destruct fuel as [| fuel]; [lia |]. split_and!; try done.
    apply Hrun2. lia.
Qed.

End RecyclerOrder.
Section RecyclerScenario.
#[local] Existing Instance scenarioConstants.
#[local] Existing Instance eofAtEnd.

Lemma C7_witness_three_pages :
  exists fuel0 pm1 rp2 pm2, forall fuel, (fuel0 <= fuel)%nat ->
    rp_addPages fuel [4; 5; 6]%nat (freshManager 8) = Ok pm1 /\
    freePages_n fuel 3 (freePages pm1) pm1 = Ok ([6; 5; 4]%nat, rp2, pm2) /\
    pages (rp_tp rp2) = [].
Proof.
  assert (Hwf : wf_recycler (fun r => (r < 4)%nat) (fun r => (4 <= r < 8)%nat)
                  (freePages (freshManager 8)) (freshManager 8)).
  { apply freshManager_wf_recycler; [reflexivity | reflexivity | lia]. }
  assert (HPS : 0 < pageSize) by reflexivity.
  assert (HF : 0 < numPageEntries < 2 ^ 64) by (split; reflexivity).
  pose proof (C7_freePage_pops_buffer_then_last_page _ _ _ [4; 5; 6]%nat HPS HF Hwf)
    as (_ & _ & H).
  apply H.
  - reflexivity.
  - reflexivity.
  - repeat constructor; lia.
  - simpl. apply (bool_decide_unpack _). vm_compute. reflexivity.
  - vm_compute. discriminate.
  - vm_compute. reflexivity.
Defined.

(** With one page more than a leaf holds, the tree of the recycler grows by
    a root and a second leaf; taking the pages back empties the second leaf
    at once, and the two node pages are handed out before the other pages
    that were added. *)
Lemma C7_counterexample_node_pages_come_between :
  add_then_free 100 (seq 4 505) (freshManager 509)
  = Ok ([508; 509; 510]%nat ++ rev (seq 6 502)) /\
  [508; 509; 510]%nat ++ rev (seq 6 502) <> rev (seq 4 505).
Proof.
  split; [vm_compute; reflexivity | vm_compute; discriminate].
Qed.

End RecyclerScenario.

(** ** The theorems at work on concrete entries *)

Section Scenario.
#[local] Existing Instance scenarioConstants.
#[local] Existing Instance eofAtEnd.

Lemma onePage_wf_root :
  wf_root (fun r => (r < 4)%nat) (fun r => (4 <= r < 5)%nat)
    (root (ep_tp (ep onePageEntry))) (pages (ep_tp (ep onePageEntry))).
Proof.
  right. apply wf_leaf; simpl; try done; try lia.
  - exact (dense_insert_last ∅ [] 4%nat dense_empty).
  - repeat constructor; lia.
Qed.

Lemma onePage_heap_ok :
  heap_ok (fun r => (r < 4)%nat) (fun r => (4 <= r < 5)%nat) (onePageManager 5).
Proof.
  apply (heap_ok_same _ _ (freshManager 5)); [apply same_offsets_set_usedSize |].
  apply freshManager_heap_ok; [done | done | |]; intros r Hr; lia.
Qed.

Lemma C4_witness_leaf_root :
  height (root (ep_tp (ep onePageEntry))) <= 0
  \/ size (childTables (root (ep_tp (ep onePageEntry)))) <> 1%nat.
Proof.
  assert (Hrun : exists pm', defrag 1 (ep_tp (ep onePageEntry)) (onePageManager 5)
                 = Ok ([], ep_tp (ep onePageEntry), pm')).
  { eexists. vm_compute. reflexivity. }
  destruct Hrun as [pm' Hrun].
  exact (C4_defrag_leaves_no_single_child_root _ _ _ _ _ _ Hrun).
Defined.

Lemma C6_witness_negative_seek :
  fst (Seek onePageEntry (-1) SeekStart) = Err ErrNegativeSeek
  /\ snd (Seek onePageEntry (-1) SeekStart) = onePageEntry.
Proof.
  assert (HPS : 0 < pageSize) by reflexivity.
  pose proof (C6_Seek_resolves_clamps_and_rejects onePageEntry (-1) SeekStart HPS
                (or_introl eq_refl)) as (_ & Hneg & _).
  apply Hneg. reflexivity.
Defined.

Lemma C9_witness_cut_to_four_bytes :
  exists fuel0, forall fuel, (fuel0 <= fuel)%nat ->
    exists b freed pt' tp' pm',
      recursiveTruncate fuel (ep_tp (ep onePageEntry)) (root (ep_tp (ep onePageEntry))) 4
        (onePageManager 5) = Ok (b, freed, pt', tp', pm') /\
      tp_usedSize tp' = Z.min (tp_usedSize (ep_tp (ep onePageEntry))) 4 /\
      (tp_usedSize (ep_tp (ep onePageEntry)) <= 4 ->
         freed = [] /\ pages tp' = pages (ep_tp (ep onePageEntry))) /\
      (exists k, pages tp' = take k (pages (ep_tp (ep onePageEntry)))) /\
      wf_root (fun r => (r < 4)%nat) (fun r => (4 <= r < 5)%nat) pt' (pages tp').
Proof.
  assert (HNP : forall r : ref, (r < 4)%nat -> (4 <= r < 5)%nat -> False) by (intros; lia).
  assert (HF : numPageEntries < 2 ^ 64) by reflexivity.
  assert (HU : tp_usedSize (ep_tp (ep onePageEntry))
               = sum_used (onePageManager 5) (pages (ep_tp (ep onePageEntry))))
    by reflexivity.
  assert (Hs : 0 <= 4) by lia.
  exact (C9_recursiveTruncate_terminates_within_populated_slots _ _ _ _ 4
           HNP HF onePage_wf_root onePage_heap_ok HU Hs).
Defined.

End Scenario.

(** ** Decoding what was encoded *)

Module BinaryRoundTrip.
Import Binary.

Lemma lor_low_high (k x : Z) :
  0 <= k -> Z.lor (x mod 2 ^ k) (Z.shiftl (Z.shiftr x k) k) = x.
Proof.
  intros Hk. apply Z.bits_inj'. intros n Hn.
  rewrite Z.lor_spec, Z.testbit_mod_pow2 by lia.
  destruct (Z.ltb_spec n k) as [Hlt | Hge].
  - rewrite Z.shiftl_spec_low by lia. simpl. by rewrite orb_false_r.
  - rewrite Z.shiftl_spec by lia. rewrite Z.shiftr_spec by lia. simpl.
    f_equal. lia.
Qed.

Lemma Uint64_le_bytes (n : nat) :
  forall x : Z, 0 <= x < 256 ^ Z.of_nat n -> Uint64 (le_bytes n x) = x.
Proof.
  induction n as [| n IH]; intros x Hx.
  - simpl in *. lia.
  - simpl le_bytes. simpl Uint64. rewrite IH.
    + exact (lor_low_high 8 x ltac:(lia)).
    + rewrite Z.shiftr_div_pow2 by lia. change (2 ^ 8) with 256.
      rewrite Nat2Z.inj_succ, Z.pow_succ_r in Hx by lia.
      split; [apply Z.div_pos; lia |]. apply Z.div_lt_upper_bound; lia.
Qed.

Lemma Uint64_PutUint64 (x : Z) : 0 <= x < 2 ^ 64 -> Uint64 (PutUint64 x) = x.
Proof.
  intros Hx. unfold PutUint64. rewrite wrap_uint64_small by done.
  apply Uint64_le_bytes. change (256 ^ Z.of_nat 8) with (2 ^ 64). done.
Qed.

Lemma length_le_bytes (n : nat) (x : Z) : length (le_bytes n x) = n.
Proof. revert x. induction n as [| n IH]; intros x; simpl; [done | by rewrite IH]. Qed.

Lemma continuation_byte (u : Z) :
  0 <= u ->
  (Z.lor (u mod 256) 128 <? 128) = false
  /\ Z.land (Z.lor (u mod 256) 128) 127 = u mod 128.
Proof.
  intros Hu. split.
  - apply Z.ltb_ge.
    destruct (Z_lt_le_dec (Z.lor (u mod 256) 128) 128) as [Hlt | Hge]; [| done].
    assert (Hn : 0 <= Z.lor (u mod 256) 128).
    { apply Z.lor_nonneg. split; [| lia]. apply Z.mod_pos_bound. lia. }
    assert (Hb : Z.testbit (Z.lor (u mod 256) 128) 7 = true).
    { rewrite Z.lor_spec. change (Z.testbit 128 7) with true. by rewrite orb_true_r. }
    apply Z.testbit_true in Hb; [| lia]. change (2 ^ 7) with 128 in Hb.
    rewrite Z.div_small in Hb by lia. discriminate.
  - rewrite Z.land_lor_distr_l. change (Z.land 128 127) with 0. rewrite Z.lor_0_r.
    change 256 with (2 ^ 8). rewrite <- (Z.land_ones u 8) by lia.
    rewrite <- Z.land_assoc. change (Z.land (Z.ones 8) 127) with (Z.ones 7).
    rewrite Z.land_ones by lia. done.
Qed.

(** [Uvarint] reads back, from any buffer that starts with the bytes of
    [PutUvarint u], the value [u] and the number of those bytes. *)
Lemma Uvarint_loop_bytes (n : nat) :
  forall (fuel : nat) (u : Z) (rest : list Z) (i acc : Z),
  (1 <= n <= fuel)%nat -> 0 <= u < 128 ^ Z.of_nat n -> 0 <= i -> i + Z.of_nat n <= 9 ->
  Uvarint_loop (uvarint_bytes fuel u ++ rest) i acc (7 * i)
  = (Z.lor acc (Z.shiftl u (7 * i)), i + len (uvarint_bytes fuel u)).
Proof.
  induction n as [| n IH]; intros fuel u rest i acc Hn Hu Hi Hin; [lia |].
  destruct fuel as [| fuel]; [lia |]. simpl uvarint_bytes.
  assert (Hi10 : (i =? 10) = false) by lia.
  assert (Hi9 : (i =? 9) = false) by lia.
  destruct (u >=? 128) eqn:E.
  - destruct (continuation_byte u ltac:(lia)) as [Hc1 Hc2].
    simpl app. simpl Uvarint_loop. rewrite Hi10, Hc1, Hc2.
    destruct n as [| n'].
    { change (128 ^ Z.of_nat 1) with 128 in Hu. lia. }
    assert (Hs : 0 <= Z.shiftr u 7 < 128 ^ Z.of_nat (S n')).
    { rewrite Z.shiftr_div_pow2 by lia. change (2 ^ 7) with 128.
      rewrite (Nat2Z.inj_succ (S n')), Z.pow_succ_r in Hu by lia.
      split; [apply Z.div_pos; lia |]. apply Z.div_lt_upper_bound; lia. }
    replace (7 * i + 7) with (7 * (i + 1)) by lia.
    rewrite (IH fuel (Z.shiftr u 7) rest (i + 1)) by lia.
    f_equal.
    + assert (Hw : wrap_uint64 (Z.shiftl (u mod 128) (7 * i)) = Z.shiftl (u mod 128) (7 * i)).
      { apply wrap_uint64_small. rewrite Z.shiftl_mul_pow2 by lia.
        pose proof (Z.mod_pos_bound u 128 ltac:(lia)) as Hm.
        assert (Hp : 0 < 2 ^ (7 * i)) by (apply Z.pow_pos_nonneg; lia).
        split; [nia |].
        assert (Hle : 2 ^ (7 * i) <= 2 ^ 56) by (apply Z.pow_le_mono_r; lia).
        change (2 ^ 64) with (128 * 2 ^ 56 * 2). nia. }
      rewrite Hw, <- Z.lor_assoc. f_equal.
      replace (7 * (i + 1)) with (7 + 7 * i) by lia.
      rewrite <- Z.shiftl_shiftl by lia. rewrite <- Z.shiftl_lor. f_equal.
      exact (lor_low_high 7 u ltac:(lia)).
    + unfold len. simpl length. lia.
  - simpl app. simpl Uvarint_loop. rewrite Hi10.
    assert (Hlt : (u <? 128) = true) by lia. rewrite Hlt, Hi9. simpl andb. cbv iota.
    f_equal.
    + f_equal. apply wrap_uint64_small. rewrite Z.shiftl_mul_pow2 by lia.
      assert (Hp : 0 < 2 ^ (7 * i)) by (apply Z.pow_pos_nonneg; lia).
      split; [nia |].
      assert (Hle : 2 ^ (7 * i) <= 2 ^ 56) by (apply Z.pow_le_mono_r; lia).
      change (2 ^ 64) with (128 * 2 ^ 56 * 2). nia.
Qed.

(** A slot written by [PutVarint] decodes to the value that went in. *)
Lemma Varint_PutVarint (x : Z) (rest : list Z) :
  0 <= x < 2 ^ 55 ->
  exists bs n, PutVarint x = Ok bs /\ length bs = 8%nat /\
    Varint (bs ++ rest) = (x, n) /\ 0 < n.
Proof.
  intros Hx. unfold PutVarint. rewrite BinaryFacts.zigzag_nonneg by lia.
  pose proof (BinaryFacts.uvarint_bytes_length 8 10 (2 * x) ltac:(lia)) as Hl.
  change (128 ^ Z.of_nat 8) with (2 ^ 56) in Hl. specialize (Hl ltac:(lia)).
  unfold len.
  destruct (Z.of_nat (length (uvarint_bytes 10 (2 * x))) <=? 8) eqn:E; [| lia].
  eexists _, _. split; [done |]. split.
  { rewrite length_app, length_replicate. lia. }
  unfold Varint, Uvarint. rewrite <- app_assoc.
  change 0 with (7 * 0) at 3.
  rewrite (Uvarint_loop_bytes 8 10 (2 * x)) by (change (128 ^ Z.of_nat 8) with (2 ^ 56); lia).
  rewrite Z.lor_0_l, Z.shiftl_0_r.
  assert (Hbit : Z.land (2 * x) 1 = 0).
  { change 1 with (Z.ones 1). rewrite Z.land_ones by lia. change (2 ^ 1) with 2.
    rewrite Z.mul_comm. apply Z.mod_mul. lia. }
  rewrite Hbit. simpl Z.eqb. cbv iota.
  rewrite Z.shiftr_div_pow2 by lia. change (2 ^ 1) with 2.
  assert (Hd : 2 * x / 2 = x) by (rewrite Z.mul_comm; apply Z.div_mul; lia).
  rewrite Hd, wrap_int64_small by (unfold in_int64; lia).
  split; [reflexivity |]. unfold len. lia.
Qed.

End BinaryRoundTrip.

(** ** Node pages and descriptor entries on disk *)

Section DiskRoundTrip.
Context {C : Constants} {SR : ShortRead}.
Import Binary.

Lemma mapM_seq {B : Type} (g : Z -> result B) (ys : list B) :
  forall start : nat,
  (forall (i : nat) (y : B), ys !! i = Some y -> g (Z.of_nat (start + i)) = Ok y) ->
  mapM g (map Z.of_nat (seq start (length ys))) = Ok ys.
Proof.
  induction ys as [| y ys IH]; intros start H; simpl; [done |].
  pose proof (H 0%nat y eq_refl) as H0. rewrite Nat.add_0_r in H0. rewrite H0. simpl.
  rewrite IH; [done |]. intros i y' Hi.
  replace (S start + i)%nat with (start + S i)%nat by lia. by apply H.
Qed.

Lemma mapM_upto {B : Type} (g : Z -> result B) (ys : list B) :
  (forall (i : nat) (y : B), ys !! i = Some y -> g (Z.of_nat i) = Ok y) ->
  mapM g (upto (len ys)) = Ok ys.
Proof. intros H. unfold upto, len. rewrite Nat2Z.id. by apply (mapM_seq g ys 0). Qed.

Lemma mapM_Forall2 {A B : Type} (f : A -> result B) (Q : A -> B -> Prop) (l : list A) :
  Forall (fun x => exists y, f x = Ok y /\ Q x y) l ->
  exists ys, mapM f l = Ok ys /\ Forall2 Q l ys.
Proof.
  induction 1 as [| x l (y & Hy & HQ) _ (ys & Hys & HF)]; simpl.
  - exists []. by split.
  - rewrite Hy. simpl. rewrite Hys. simpl. exists (y :: ys). split; [done | by constructor].
Qed.

Lemma mapM_length {A B : Type} (f : A -> result B) (l : list A) (ys : list B) :
  mapM f l = Ok ys -> Forall2 (fun x y => f x = Ok y) l ys.
Proof.
  revert ys. induction l as [| x l IH]; intros ys H; simpl in H.
  - injection H as <-. constructor.
  - destruct (f x) as [y | | |] eqn:E; simpl in H; try discriminate.
    destruct (mapM f l) as [ys' | | |]; simpl in H; try discriminate.
    injection H as <-. constructor; [done | by apply IH].
Qed.

Lemma file_read_lookup (f : Z -> Z) (pos n : Z) (i : nat) :
  (i < Z.to_nat n)%nat -> file_read f pos n !! i = Some (f (pos + Z.of_nat i)).
Proof.
  intros Hi. unfold file_read. rewrite list_lookup_fmap, lookup_seq_lt by done. done.
Qed.

(** Reading at the place of a write gives the data written, and then what
    the file had behind it. *)
Lemma file_read_write (f : Z -> Z) (pos : Z) (data : list Z) (n : Z) :
  len data <= n ->
  file_read (file_write f pos data) pos n
  = data ++ file_read f (pos + len data) (n - len data).
Proof.
  intros Hn. unfold len in *. apply list_eq. intros i.
  destruct (Nat.lt_ge_cases i (Z.to_nat n)) as [Hi | Hi].
  - rewrite file_read_lookup by done. unfold file_write, len.
    destruct (Nat.lt_ge_cases i (length data)) as [Hd | Hd].
    + rewrite lookup_app_l by done.
      assert (Hc : (pos <=? pos + Z.of_nat i)
                   && (pos + Z.of_nat i <? pos + Z.of_nat (length data)) = true).
      { apply andb_true_iff. split; lia. }
      rewrite Hc. replace (pos + Z.of_nat i - pos) with (Z.of_nat i) by lia.
      rewrite Nat2Z.id. rewrite nth_lookup.
      destruct (lookup_lt_is_Some_2 data i Hd) as [x Hx]. by rewrite Hx.
    + rewrite lookup_app_r by done.
      assert (Hc : (pos <=? pos + Z.of_nat i)
                   && (pos + Z.of_nat i <? pos + Z.of_nat (length data)) = false).
      { apply andb_false_iff. right. lia. }
      rewrite Hc. rewrite file_read_lookup by lia. f_equal. f_equal. lia.
  - rewrite (lookup_ge_None_2 (file_read _ _ _)) by (rewrite length_file_read; lia).
    symmetry. apply lookup_ge_None_2. rewrite length_app, length_file_read. lia.
Qed.

Lemma length_PutUint64 (x : Z) : length (PutUint64 x) = 8%nat.
Proof. apply BinaryRoundTrip.length_le_bytes. Qed.

Lemma length_concat_slots (slots : list (list Z)) :
  Forall (fun bs => length bs = 8%nat) slots ->
  length (concat slots) = (8 * length slots)%nat.
Proof.
  induction 1 as [| bs slots Hbs _ IH]; simpl; [done |].
  rewrite length_app, Hbs, IH. lia.
Qed.

Lemma slot_of_concat (slots : list (list Z)) (rest : list Z) :
  Forall (fun bs => length bs = 8%nat) slots ->
  forall (i : nat) (bs : list Z), slots !! i = Some bs ->
  take 8 (drop (8 * i) (concat slots ++ rest)) = bs.
Proof.
  induction 1 as [| s slots Hs _ IH]; intros i bs Hi; [done |].
  simpl concat. rewrite <- app_assoc. destruct i as [| i].
  - injection Hi as ->. simpl drop. by apply take_app_length'.
  - replace (8 * S i)%nat with (8 + 8 * i)%nat by lia.
    rewrite drop_app_add' by done. by apply IH.
Qed.

Lemma PutVarint_slot (x : Z) :
  0 <= x < 2 ^ 55 -> exists bs, PutVarint x = Ok bs /\ slot_for x bs.
Proof.
  intros Hx. destruct (BinaryRoundTrip.Varint_PutVarint x [] Hx) as (bs & n & H1 & H2 & H3 & H4).
  rewrite app_nil_r in H3. exists bs. split; [done |]. split; [done |]. by exists n.
Qed.

(** [unmarshalPageTable] reads the offsets back from a buffer that starts
    with a marshalled table, whatever follows. *)
Lemma unmarshalPageTable_marshalled (offs : list Z) (slots : list (list Z)) (rest : list Z) :
  len offs <= numPageEntries -> len offs < 2 ^ 61 ->
  Forall2 slot_for offs slots ->
  unmarshalPageTable (PutUint64 (len offs) ++ concat slots ++ rest) = Ok offs.
Proof.
  intros HF Hb Hslots.
  pose proof (len_nonneg offs) as Hn.
  assert (Hlen : length slots = length offs) by (symmetry; by eapply Forall2_length).
  assert (H8 : Forall (fun bs => length bs = 8%nat) slots).
  { clear -Hslots. induction Hslots as [| x bs offs slots [Hl _] _ IH]; constructor; done. }
  unfold unmarshalPageTable.
  assert (E1 : (len (PutUint64 (len offs) ++ concat slots ++ rest) <? 8) = false).
  { unfold len. rewrite length_app, length_PutUint64. apply Z.ltb_ge. lia. }
  rewrite E1.
  assert (Hhd : slice (PutUint64 (len offs) ++ concat slots ++ rest) 0 8
                = PutUint64 (len offs)).
  { unfold slice. change (Z.to_nat (8 - 0)) with 8%nat. change (Z.to_nat 0) with 0%nat.
    rewrite drop_0. apply take_app_length'. by rewrite length_PutUint64. }
  rewrite Hhd, BinaryRoundTrip.Uint64_PutUint64 by lia.
  assert (E2 : (len offs >? numPageEntries) = false) by lia. rewrite E2.
  rewrite drop_app_length' by (by rewrite length_PutUint64).
  assert (E3 : (len (concat slots ++ rest) <? wrap_uint64 (len offs * 8)) = false).
  { rewrite wrap_uint64_small by lia. unfold len.
    rewrite length_app, length_concat_slots by done. unfold len in *.
    apply Z.ltb_ge. lia. }
  rewrite E3.
  apply mapM_upto. intros i y Hi.
  destruct (Forall2_lookup_l _ _ _ _ _ Hslots Hi) as (bs & Hbs & Hl & n & Hv & Hn0).
  assert (Hsl : slice (PutUint64 (len offs) ++ concat slots ++ rest)
                  (8 + 8 * Z.of_nat i) (8 + 8 * Z.of_nat i + 8) = bs).
  { unfold slice.
    replace (Z.to_nat (8 + 8 * Z.of_nat i + 8 - (8 + 8 * Z.of_nat i))) with 8%nat by lia.
    replace (Z.to_nat (8 + 8 * Z.of_nat i)) with (8 + 8 * i)%nat by lia.
    rewrite drop_app_add' by (by rewrite length_PutUint64).
    by apply slot_of_concat. }
  rewrite Hsl, Hv.
  assert (E4 : (y =? 0) && (n <=? 0) = false) by (apply andb_false_iff; right; lia).
  by rewrite E4.
Qed.

Lemma offset_of_lookup (pm : PageManager) (r : ref) (pg : physicalPage) :
  pm_heap pm !! r = Some pg -> offset_of pm r = fileOff pg.
Proof. intros H. unfold offset_of. by rewrite H. Qed.

Lemma numChildren_slot_pages (pt : pageTable) (rs : list ref) :
  slot_pages pt rs -> numChildren pt = len rs.
Proof.
  unfold slot_pages, numChildren. destruct (height pt =? 0).
  - intros Hd. by rewrite (dense_size _ _ Hd).
  - intros (cs & Hd & ->). rewrite (dense_size _ _ Hd). unfold len. by rewrite length_map.
Qed.

Lemma childOffset_slot_pages (pm : PageManager) (pt : pageTable) (rs : list ref)
    (i : nat) (r : ref) :
  slot_pages pt rs -> rs !! i = Some r -> allocated pm r ->
  childOffset pt pm (Z.of_nat i) = Ok (offset_of pm r).
Proof.
  unfold slot_pages, childOffset. intros Hs Hi [pg Hpg].
  rewrite (offset_of_lookup pm r pg Hpg).
  destruct (height pt =? 0).
  - rewrite Hs, index_of_nat, Hi. unfold deref. by rewrite Hpg.
  - destruct Hs as (cs & Hd & ->). rewrite Hd, index_of_nat.
    rewrite list_lookup_fmap in Hi. destruct (cs !! i) as [c |]; [| done].
    simpl in Hi. injection Hi as <-. unfold deref. by rewrite Hpg.
Qed.

(** What [marshal] yields for a node whose slots are dense. *)
Lemma marshal_slot_pages (pm : PageManager) (pt : pageTable) (rs : list ref) :
  encodable pm -> slot_pages pt rs -> Forall (allocated pm) rs ->
  exists slots,
    marshal pt pm = Ok (PutUint64 (len rs) ++ concat slots) /\
    Forall2 slot_for (map (offset_of pm) rs) slots.
Proof.
  intros Henc Hs Hall. unfold marshal.
  rewrite (numChildren_slot_pages pt rs Hs).
  assert (Hoffs : mapM (childOffset pt pm) (upto (len rs)) = Ok (map (offset_of pm) rs)).
  { replace (len rs) with (len (map (offset_of pm) rs))
      by (unfold len; by rewrite length_map).
    apply mapM_upto. intros i y Hi. rewrite list_lookup_fmap in Hi.
    destruct (rs !! i) as [r |] eqn:Hr; [| done]. simpl in Hi. injection Hi as <-.
    apply (childOffset_slot_pages pm pt rs i r Hs Hr).
    rewrite Forall_forall in Hall. apply Hall. by eapply list_elem_of_lookup_2. }
  rewrite Hoffs. cbn [bind].
  destruct (mapM_Forall2 PutVarint slot_for (map (offset_of pm) rs)) as (slots & Hm & HF).
  { apply Forall_fmap. eapply Forall_impl; [exact Hall |].
    intros r [pg Hpg]. simpl. apply PutVarint_slot.
    rewrite (offset_of_lookup pm r pg Hpg). by eapply Henc. }
  rewrite Hm. cbn [bind]. by exists slots.
Qed.

End DiskRoundTrip.

Section DiskTheorems.
Context {C : Constants} {SR : ShortRead}.
Import Binary.

(** X1.  A node page that [writeToDisk] has written reads back, through
    [readPageTable], as the file offsets of the pages behind the slots of
    the node, in slot order, when the page object of the node counts as
    full, as recovery creates it: [readPageTable] reads a whole page. *)
Theorem X1_writeToDisk_readPageTable_roundtrip (pm : PageManager) (pt : pageTable)
    (rs : list ref) :
  encodable pm -> allocated pm (pt_pp pt) -> used pm (pt_pp pt) = pageSize ->
  slot_pages pt rs -> Forall (allocated pm) rs ->
  len rs <= numPageEntries -> (len rs + 1) * 8 <= pageSize -> pageSize < 2 ^ 63 ->
  exists pm', writeToDisk pt pm = Ok pm' /\
    readPageTable (pt_pp pt) pm' = Ok (map (offset_of pm) rs).
Proof.
  intros Henc [pg Hpg] Hfull Hs Hall HF Hfit HPS.
  unfold used in Hfull. rewrite Hpg in Hfull.
  pose proof (len_nonneg rs) as Hn.
  destruct (marshal_slot_pages pm pt rs Henc Hs Hall) as (slots & Hm & Hslots).
  assert (H8 : Forall (fun bs => length bs = 8%nat) slots).
  { clear -Hslots. induction Hslots as [| x bs offs slots [Hl _] _ IH]; constructor; done. }
  assert (Hlen : length slots = length rs).
  { apply Forall2_length in Hslots. by rewrite length_map in Hslots. }
  set (data := PutUint64 (len rs) ++ concat slots) in *.
  assert (Hdata : len data = (len rs + 1) * 8).
  { unfold data, len. rewrite length_app, length_PutUint64, length_concat_slots by done.
    lia. }
  unfold writeToDisk. rewrite Hm. cbn [bind].
  unfold pp_writeAt, deref. rewrite Hpg. cbn [bind].
  replace (Z.max 0 (Z.min (len data) (pageSize - 0))) with (len data) by lia.
  rewrite take_ge by (unfold len; lia).
  eexists. split; [reflexivity |].
  unfold readPageTable.
  match goal with |- context [pp_readAt _ _ _ ?pm1] =>
    assert (Hpg1 : pm_heap pm1 !! pt_pp pt
                   = Some {| fileOff := fileOff pg;
                             usedSize := Z.max (usedSize pg) (0 + len data) |})
  end.
  { rewrite heap_set_usedSize. destruct (decide (pt_pp pt = pt_pp pt)) as [_ | Hne]; [| done].
    simpl pm_heap. by rewrite Hpg. }
  rewrite (pp_readAt_ok _ _ _ _ _ Hpg1) by (cbn [usedSize]; lia).
  cbn [bind fileOff].
  replace (pageSize - pageSize) with 0 by lia. simpl replicate. rewrite app_nil_r.
  simpl pm_file. rewrite file_read_write by lia.
  unfold data. rewrite <- app_assoc.
  replace (len rs) with (len (map (offset_of pm) rs)) by (unfold len; by rewrite length_map).
  apply unmarshalPageTable_marshalled; try done.
  - unfold len. rewrite length_map. exact HF.
  - unfold len. rewrite length_map. unfold len in *. lia.
Qed.

(** X2.  What [marshal] returns has eight bytes for the number of entries
    and eight for every child, which is the number that [Size] gives. *)
Theorem X2_marshal_length_is_Size (pm : PageManager) (pt : pageTable) (data : list Z) :
  marshal pt pm = Ok data -> (numChildren pt + 1) * 8 < 2 ^ 32 ->
  len data = (numChildren pt + 1) * 8 /\ Size pt = len data.
Proof.
  unfold marshal. intros H Hb.
  assert (Hk : 0 <= numChildren pt).
  { unfold numChildren. destruct (height pt =? 0); lia. }
  destruct (mapM (childOffset pt pm) (upto (numChildren pt))) as [offs | | |] eqn:E1;
    cbn [bind] in H; try discriminate.
  destruct (mapM PutVarint offs) as [slots | | |] eqn:E2; cbn [bind] in H; try discriminate.
  assert (Hd : data = PutUint64 (numChildren pt) ++ concat slots) by congruence.
  clear H.
  apply mapM_length in E1. apply mapM_length in E2.
  assert (Hlo : length offs = Z.to_nat (numChildren pt)).
  { apply Forall2_length in E1. unfold upto in E1.
    by rewrite length_map, length_seq in E1. }
  assert (H8 : Forall (fun bs => length bs = 8%nat) slots).
  { clear -E2. induction E2 as [| x bs offs slots Hx _ IH]; constructor; [| done].
    unfold PutVarint in Hx. remember (uvarint_bytes 10 (zigzag x)) as u eqn:Eu.
    clear Eu. destruct (len u <=? 8) eqn:E; [| discriminate].
    injection Hx as <-. rewrite length_app, length_replicate.
    apply Z.leb_le in E. unfold len in E. lia. }
  assert (Hls : length slots = length offs) by (symmetry; by eapply Forall2_length).
  assert (Hlen : len (PutUint64 (numChildren pt) ++ concat slots) = (numChildren pt + 1) * 8).
  { unfold len. rewrite length_app, length_PutUint64, length_concat_slots by done. lia. }
  rewrite Hd. split; [exact Hlen |]. rewrite Hlen. unfold Size.
  rewrite (Z.mod_small (numChildren pt)) by lia.
  rewrite Z.mod_small by lia. lia.
Qed.

(** X3.  An entry of the descriptor page that [writeTieredPageEntry] has
    written reads back through [readEntryPageEntry] without an error, and
    the other entries inside what was the used region of the page read as
    they did before. *)
Theorem X3_writeTieredPageEntry_readEntryPageEntry_roundtrip (pm : PageManager)
    (pp : ref) (index usedBytes pageOff : Z) :
  allocated pm pp -> tieredPageEntrySize = 16 ->
  0 <= index -> (index + 1) * 16 <= pageSize -> pageSize < 2 ^ 63 ->
  0 <= usedBytes < 2 ^ 55 -> 0 <= pageOff < 2 ^ 55 ->
  exists pm', writeTieredPageEntry pp index usedBytes pageOff pm = Ok pm' /\
    readEntryPageEntry pp index pm' = Ok (usedBytes, pageOff, None) /\
    (forall j, 0 <= j -> (j + 1) * 16 <= pageSize -> (j + 1) * 16 <= used pm pp ->
       j <> index ->
       readEntryPageEntry pp j pm' = readEntryPageEntry pp j pm).
Proof.
  intros [pg Hpg] HE Hi Hfit HPS Hu Ho.
  destruct (PutVarint_slot usedBytes Hu) as (s1 & Hs1 & Hl1 & n1 & Hv1 & Hn1).
  destruct (PutVarint_slot pageOff Ho) as (s2 & Hs2 & Hl2 & n2 & Hv2 & Hn2).
  unfold writeTieredPageEntry. rewrite Hs1, Hs2. cbn [bind].
  unfold pp_writeAt, deref. rewrite Hpg. cbn [bind]. rewrite HE.
  assert (Hlen : len (s1 ++ s2) = 16) by (unfold len; rewrite length_app; lia).
  replace (Z.max 0 (Z.min (len (s1 ++ s2)) (pageSize - index * 16))) with 16 by lia.
  rewrite take_ge by (rewrite length_app; lia).
  eexists. split; [reflexivity |].
  assert (Hrd : forall (pmx : PageManager) (pgx : physicalPage) (j : Z),
            pm_heap pmx !! pp = Some pgx ->
            0 <= j -> (j + 1) * 16 <= Z.min pageSize (usedSize pgx) ->
            readEntryPageEntry pp j pmx
            = (let entryData := file_read (pm_file pmx) (fileOff pgx + j * 16) 16 in
               let '(u, b) := Varint (slice entryData 0 8) in
               if (u =? 0) && (b <=? 0)
               then Ok (u, 0, Some "Failed to unmarshal usedBytes"%string)
               else let '(o, b') := Varint (drop 8 entryData) in
                    if (o =? 0) && (b' <=? 0)
                    then Ok (u, o, Some "Failed to unmarshal entryData"%string)
                    else Ok (u, o, None))).
  { intros pmx pgx j Hx Hj Hjfit. unfold readEntryPageEntry. rewrite HE.
    unfold mul64. rewrite wrap_int64_small by (unfold in_int64; lia).
    rewrite (pp_readAt_ok pp pgx 16 (j * 16) pmx Hx) by lia. cbn [bind].
    replace (16 - 16) with 0 by lia. simpl replicate. rewrite app_nil_r. reflexivity. }
  match goal with |- readEntryPageEntry pp index ?pm1 = _ /\ _ =>
    assert (Hpg1 : pm_heap pm1 !! pp
                   = Some {| fileOff := fileOff pg;
                             usedSize := Z.max (usedSize pg) (index * 16 + 16) |})
  end.
  { rewrite heap_set_usedSize. destruct (decide (pp = pp)) as [_ | Hne]; [| done].
    simpl pm_heap. by rewrite Hpg. }
  split.
  - rewrite (Hrd _ _ index Hpg1 Hi) by (cbn [usedSize]; lia). cbv zeta. cbn [fileOff].
    assert (Hfr : file_read (file_write (pm_file pm) (fileOff pg + index * 16) (s1 ++ s2))
                    (fileOff pg + index * 16) 16 = s1 ++ s2).
    { rewrite file_read_write by lia. rewrite Hlen.
      replace (16 - 16) with 0 by lia. unfold file_read. simpl. apply app_nil_r. }
    simpl pm_file. rewrite Hfr.
    assert (Hsl : slice (s1 ++ s2) 0 8 = s1).
    { unfold slice. change (Z.to_nat (8 - 0)) with 8%nat. change (Z.to_nat 0) with 0%nat.
      rewrite drop_0. by apply take_app_length'. }
    rewrite Hsl, Hv1.
    assert (E1 : (usedBytes =? 0) && (n1 <=? 0) = false)
      by (apply andb_false_iff; right; lia).
    rewrite E1. rewrite drop_app_length' by done. rewrite Hv2.
    assert (E2 : (pageOff =? 0) && (n2 <=? 0) = false)
      by (apply andb_false_iff; right; lia).
    by rewrite E2.
  - intros j Hj Hjfit Hjused Hne.
    unfold used in Hjused. rewrite Hpg in Hjused.
    rewrite (Hrd _ _ j Hpg1 Hj) by (cbn [usedSize]; lia).
    rewrite (Hrd _ _ j Hpg Hj) by lia. cbn [fileOff]. simpl pm_file.
    assert (Hsame : file_read (file_write (pm_file pm) (fileOff pg + index * 16) (s1 ++ s2))
                      (fileOff pg + j * 16) 16
                    = file_read (pm_file pm) (fileOff pg + j * 16) 16).
    { unfold file_read. apply map_ext_in. intros k Hk. apply in_seq in Hk.
      apply file_write_outside. rewrite Hlen.
      change (Z.to_nat 16) with 16%nat in Hk. lia. }
    by rewrite Hsame.
Qed.

End DiskTheorems.

(** ** Growing the tree *)

Section Grow.
Context {C : Constants} {SR : ShortRead}.

Lemma allocatePage_grown (fuel : nat) (pm : PageManager) :
  availablePages (freePages pm) = 0 ->
  allocatePage fuel pm = Ok (pm_nextRef pm, grown pm).
Proof.
  intros H. unfold allocatePage. rewrite H. by rewrite andb_false_r.
Qed.

Lemma grown_encodable (pm : PageManager) :
  encodable pm -> 0 <= pm_fileSize pm < 2 ^ 55 -> encodable (grown pm).
Proof.
  intros Henc Hb r pg. simpl.
  destruct (decide (r = pm_nextRef pm)) as [-> | Hne].
  - rewrite lookup_insert_eq. intros [= <-]. done.
  - rewrite lookup_insert_ne by done. apply Henc.
Qed.

Lemma grown_allocated (pm : PageManager) (r : ref) :
  allocated pm r -> allocated (grown pm) r.
Proof.
  intros [pg Hpg]. unfold allocated. simpl.
  destruct (decide (r = pm_nextRef pm)) as [-> | Hne].
  - rewrite lookup_insert_eq. eauto.
  - rewrite lookup_insert_ne by done. eauto.
Qed.

Lemma grown_allocated_new (pm : PageManager) : allocated (grown pm) (pm_nextRef pm).
Proof. unfold allocated. simpl. rewrite lookup_insert_eq. eauto. Qed.

Lemma maxPages_1 : maxPages 1 = numPageEntries * numPageEntries.
Proof. unfold maxPages. simpl. lia. Qed.

Lemma maxPages_2 : maxPages 2 = numPageEntries * numPageEntries * numPageEntries.
Proof. unfold maxPages. simpl. lia. Qed.

Lemma marshal_gap (pm : PageManager) (pt : pageTable) (c : pageTable) :
  height pt <> 0 -> childTables pt = {[1 := c]} ->
  marshal pt pm = Panic nil_deref.
Proof.
  intros Hh Hc. unfold marshal, numChildren.
  destruct (height pt =? 0) eqn:E; [zbool; lia |].
  rewrite Hc, map_size_singleton. change (upto (Z.of_nat 1)) with [0].
  simpl mapM. unfold childOffset. rewrite E, Hc.
  rewrite lookup_singleton_ne by lia. done.
Qed.

(** One round of the second loop of [insertPage] at a node that has no
    child at the slot it computes: a new child is allocated at the end of
    the file, the node is written, and the loop goes on in the new child. *)
Lemma insertPage_descend_new_child (fuel : nat) (pt : pageTable) (pageIndex index : Z)
    (pp : ref) (pm : PageManager) (h : Z) :
  height pt = h -> 0 < h ->
  childTables pt !! Z.quot pageIndex (maxPages (h - 1)) = None ->
  availablePages (freePages pm) = 0 ->
  insertPage_descend (S fuel) pt pageIndex index pp pm
  = (let ti := Z.quot pageIndex (maxPages (h - 1)) in
     let newPt := PageTable (h - 1) (Some (pt_pp pt)) ∅ ∅ (pm_nextRef pm) in
     let pt' := set_childTables (<[ti := newPt]> (childTables pt)) pt in
     let! pm'' := writeToDisk pt' (grown pm) in
     let! (child', pm2) :=
       insertPage_descend fuel newPt (Z.quot pageIndex numPageEntries) index pp pm'' in
     Ok (set_childTables (<[ti := child']> (childTables pt')) pt', pm2)).
Proof.
  intros Hh Hpos Hnone Hav. cbn [insertPage_descend]. rewrite Hh.
  assert (E : (h >? 0) = true) by lia. rewrite E. rewrite Hnone.
  unfold newPageTable. rewrite allocatePage_grown by done. cbn [bind]. cbv zeta.
  destruct (writeToDisk _ (grown pm)) as [pm'' | | |]; cbn [bind]; try done.
  unfold set_childTables at 1. cbn [childTables]. by rewrite lookup_insert_eq.
Qed.

(** X4.  [insertPage] at the first index that needs a tree of height two
    panics.  The tree grows by a root, and the new node of height one under
    slot 1 of that root gets its first child at slot 1 as well, since the
    slot is computed from the same quotient at every level; [marshal] then
    dereferences the missing slot 0. *)
Theorem X4_insertPage_panics_at_height_two (fuel : nat) (tp : tieredPage)
    (pm : PageManager) (pp : ref) :
  2 <= numPageEntries -> 0 <= pageSize ->
  height (root tp) = 1 -> parent (root tp) = None ->
  availablePages (freePages pm) = 0 ->
  encodable pm -> allocated pm (pt_pp (root tp)) ->
  0 <= pm_fileSize pm -> pm_fileSize pm + pageSize < 2 ^ 55 ->
  insertPage (S (S fuel)) tp (numPageEntries * numPageEntries) pp pm = Panic nil_deref.
Proof.
  intros HF HPS Hh Hpar Hav Henc Halloc Hfs0 Hfs1.
  set (F := numPageEntries) in *.
  assert (HFF : 0 < F * F) by nia.
  unfold insertPage.
  set (old := set_parent (Some (pm_nextRef pm)) (root tp)).
  set (root1 := PageTable 2 None {[0 := old]} ∅ (pm_nextRef pm)).
  assert (Hext : insertPage_extend (S (S fuel)) tp (F * F) pm
                 = Ok (set_root root1 tp, grown pm)).
  { cbn [insertPage_extend]. rewrite Hh, maxPages_1. fold F.
    assert (E1 : (F * F >=? F * F) = true) by lia. rewrite E1.
    unfold extendPageTableTree. rewrite Hpar. unfold newPageTable.
    rewrite allocatePage_grown by done. cbn [bind]. rewrite Hh.
    unfold set_root, set_childTables. cbn [height root childTables pt_pp parent childPages].
    change (1 + 1) with 2. rewrite maxPages_2. fold F.
    assert (E2 : (F * F >=? F * F * F) = false) by nia. rewrite E2.
    reflexivity. }
  rewrite Hext. cbn [bind]. clear Hext.
  set (pm1 := grown pm).
  assert (Henc1 : encodable pm1) by (apply grown_encodable; [done | lia]).
  assert (Hav1 : availablePages (freePages pm1) = 0) by done.
  assert (Hq1 : Z.quot (F * F) (maxPages (2 - 1)) = 1).
  { change (2 - 1) with 1. rewrite maxPages_1. fold F. apply Z.quot_same. lia. }
  cbn [root set_root].
  rewrite (insertPage_descend_new_child (S fuel) root1 (F * F) (F * F) pp pm1 2);
    [| done | lia | rewrite Hq1; apply lookup_singleton_ne; lia | done].
  cbv zeta. rewrite Hq1.
  set (node := PageTable (2 - 1) (Some (pt_pp root1)) ∅ ∅ (pm_nextRef pm1)).
  set (root2 := set_childTables (<[1 := node]> (childTables root1)) root1).
  assert (Henc2 : encodable (grown pm1)).
  { apply grown_encodable; [done |]. simpl. lia. }
  destruct (writeToDisk_ok (grown pm1) root2)
    as (pm3 & Hw & Hso3 & _ & Hnr3 & Hfs3 & Hrc3 & Hfp3); try done.
  { apply grown_allocated. apply grown_allocated_new. }
  { intros _. exists [old; node]. split.
    - exact (dense_insert_last _ [old] node (dense_insert_last ∅ [] old dense_empty)).
    - repeat constructor.
      + do 2 apply grown_allocated. exact Halloc.
      + apply grown_allocated_new. }
  rewrite Hw. cbn [bind].
  assert (Hq2 : Z.quot (Z.quot (F * F) F) (maxPages (1 - 1)) = 1).
  { change (1 - 1) with 0. rewrite maxPages_0 by (subst F; lia). fold F.
    rewrite Z.quot_mul by lia. apply Z.quot_same. lia. }
  fold F.
  rewrite (insertPage_descend_new_child fuel node (Z.quot (F * F) F) (F * F) pp pm3 1);
    [| done | lia | done | by rewrite Hfp3].
  cbv zeta. rewrite Hq2. unfold writeToDisk.
  rewrite (marshal_gap _ _ (PageTable (1 - 1) (Some (pt_pp node)) ∅ ∅ (pm_nextRef pm3)));
    done.
Qed.

End Grow.

(** ** entry.go: the loop of write, round by round *)

Section WriteLoop.
Context {C : Constants} {SR : ShortRead}.

Lemma write_loop_done (fuel : nat) (p : list Z) (bcp bco : Z) (e : Entry)
    (btw bi : Z) (added : list ref) (wc : Z) (app : bool) (cp co : Z) (pm : PageManager) :
  btw <= 0 ->
  write_loop (S fuel) p bcp bco e btw bi added wc app cp co pm
  = Ok (None, e, bi, added, cp, co, pm).
Proof.
  intros H. cbn [write_loop].
  assert (E : (btw >? 0) = false) by lia. by rewrite E.
Qed.

Lemma write_loop_restart (fuel : nat) (p : list Z) (bcp bco : Z) (e : Entry)
    (btw bi : Z) (added : list ref) (wc : Z) (cp co : Z) (pm : PageManager) :
  0 < btw -> mustAppend e cp co btw pm = Ok true ->
  write_loop (S fuel) p bcp bco e btw bi added wc false cp co pm
  = write_loop fuel p bcp bco e (len p) 0 [] 0 true bcp bco pm.
Proof.
  intros H Hm. cbn [write_loop].
  assert (E : (btw >? 0) = true) by lia. rewrite E, Hm. done.
Qed.

Lemma write_loop_write (fuel : nat) (p : list Z) (bcp bco : Z) (e : Entry)
    (btw bi : Z) (added : list ref) (wc : Z) (app : bool) (cp co : Z) (pm : PageManager)
    (page : ref) (pg : physicalPage) :
  0 < btw -> (app = true \/ mustAppend e cp co btw pm = Ok false) ->
  cp < len (entry_pages e) -> index (entry_pages e) cp = Some page ->
  pm_heap pm !! page = Some pg ->
  write_loop (S fuel) p bcp bco e btw bi added wc app cp co pm
  = (let n := Z.max 0 (Z.min (len (drop (Z.to_nat wc) p)) (pageSize - co)) in
     let u := Z.max (usedSize pg) (co + n) in
     let pm1 := set_usedSize page u
                  (set_file (file_write (pm_file pm) (fileOff pg + co)
                               (take (Z.to_nat n) (drop (Z.to_nat wc) p))) pm) in
     match seek e n cp co with
     | Err err => Ok (Some err, e, bi + (u - usedSize pg), added, cp, co, pm1)
     | Panic msg => Panic msg
     | OutOfFuel => OutOfFuel
     | Ok (cp', co') =>
         write_loop fuel p bcp bco e (btw - n) (bi + (u - usedSize pg)) added (wc + n)
           app cp' co' pm1
     end).
Proof.
  intros H Happ Hcp Hidx Hpg. cbn [write_loop].
  assert (E : (btw >? 0) = true) by lia. rewrite E.
  assert (Hr : (if app then Ok false else mustAppend e cp co btw pm) = Ok false).
  { destruct app; [done |]. by destruct Happ. }
  rewrite Hr. cbn [bind].
  assert (E2 : (cp >=? len (entry_pages e)) = false) by lia. rewrite E2, Hidx.
  unfold deref at 1. rewrite Hpg. cbn [bind].
  unfold pp_writeAt. unfold deref at 1. rewrite Hpg. cbn [bind].
  unfold deref. rewrite heap_set_usedSize.
  destruct (decide (page = page)) as [_ | Hne]; [| done].
  simpl pm_heap. rewrite Hpg. simpl fmap. cbn [bind usedSize]. done.
Qed.

Lemma write_loop_alloc (fuel : nat) (p : list Z) (bcp bco : Z) (e : Entry)
    (btw bi : Z) (added : list ref) (wc : Z) (cp co : Z) (pm : PageManager) :
  0 < btw -> len (entry_pages e) <= cp -> availablePages (freePages pm) = 0 ->
  write_loop (S fuel) p bcp bco e btw bi added wc true cp co pm
  = (let newPage := pm_nextRef pm in
     let e' := set_entry_tp (set_pages (entry_pages e ++ [newPage]) (ep_tp (ep e))) e in
     if cp >=? len (entry_pages e')
     then write_loop fuel p bcp bco e' btw (bi + pageSize) (added ++ [newPage]) wc true
            cp co (set_usedSize newPage pageSize (grown pm))
     else write_loop fuel p bcp bco e' btw bi (added ++ [newPage]) wc true cp co (grown pm)).
Proof.
  intros H Hcp Hav. cbn [write_loop].
  assert (E : (btw >? 0) = true) by lia. rewrite E. cbn [bind].
  assert (E2 : (cp >=? len (entry_pages e)) = true) by lia. rewrite E2.
  unfold managedAllocatePage. rewrite allocatePage_grown by done. done.
Qed.

End WriteLoop.

(** ** Writing inside a page and reading it back *)

Section Overwrite.
Context {C : Constants} {SR : ShortRead}.

Lemma seek_from_start (e : Entry) (cp co : Z) :
  0 < pageSize -> len (entry_pages e) * pageSize < 2 ^ 63 ->
  0 <= cp < len (entry_pages e) -> 0 <= co < pageSize ->
  seek e (cp * pageSize + co) 0 0 = Ok (cp, co).
Proof.
  intros HPS Hb Hcp Hco.
  pose proof (seek_spec e (cp * pageSize + co) 0 0 HPS) as (_ & _ & Hin).
  assert (Hpos : add64 (add64 (mul64 0 pageSize) 0) (cp * pageSize + co)
                 = cp * pageSize + co).
  { unfold add64, mul64. rewrite Z.mul_0_l.
    rewrite (wrap_int64_small 0) by (unfold in_int64; lia).
    rewrite (wrap_int64_small (0 + 0)) by (unfold in_int64; lia).
    apply wrap_int64_small. unfold in_int64. nia. }
  cbv zeta in Hin. rewrite Hpos in Hin.
  assert (Hd : (cp * pageSize + co) / pageSize = cp).
  { rewrite Z.div_add_l by lia. rewrite Z.div_small by lia. lia. }
  assert (Hm : (cp * pageSize + co) mod pageSize = co).
  { rewrite Z.add_comm, Z.mod_add by lia. apply Z.mod_small. lia. }
  rewrite Hd, Hm in Hin. apply Hin; nia.
Qed.

Lemma mustAppend_inside (e : Entry) (pm : PageManager) (cp co k : Z) (page : ref)
    (pg : physicalPage) :
  index (entry_pages e) cp = Some page -> pm_heap pm !! page = Some pg ->
  co + k <= usedSize pg ->
  mustAppend e cp co k pm = Ok false.
Proof.
  intros Hidx Hpg Hk. unfold mustAppend.
  pose proof (index_Some_lt _ _ _ Hidx) as Hcp.
  assert (E : (cp >=? len (entry_pages e)) = false) by lia. rewrite E.
  destruct (cp =? len (entry_pages e) - 1); [| done].
  rewrite Hidx. unfold deref. rewrite Hpg. cbn [bind].
  assert (E2 : (co + k >? usedSize pg) = false) by lia. by rewrite E2.
Qed.

(** A write inside the used part of one page, and the read at its place. *)
Lemma WriteAt_inside_ReadAt (fuel : nat) (e : Entry) (pm : PageManager)
    (p q : list Z) (cp co : Z) (page : ref) (pg : physicalPage) :
  0 < pageSize -> len (entry_pages e) * pageSize < 2 ^ 63 ->
  index (entry_pages e) cp = Some page -> pm_heap pm !! page = Some pg ->
  0 <= co -> p <> [] -> co + len p <= usedSize pg -> usedSize pg <= pageSize ->
  length q = length p ->
  exists pm',
    WriteAt (S (S fuel)) e p (cp * pageSize + co) pm = Ok (len p, None, e, pm') /\
    ReadAt (S (S fuel)) e q (cp * pageSize + co) pm' = Ok (len p, None, p).
Proof.
  intros HPS Hb Hidx Hpg Hco Hne Hfit Hused Hq.
  pose proof (index_Some_lt _ _ _ Hidx) as Hcp.
  assert (Hlp : 0 < len p).
  { unfold len. destruct p; [done | simpl; lia]. }
  assert (Hseek0 : seek e (cp * pageSize + co) 0 0 = Ok (cp, co))
    by (apply seek_from_start; lia).
  destruct (seek e (len p) cp co) as [[cp' co'] | | |] eqn:Hseek1.
  2-4: rewrite seek_inside in Hseek1 by lia; discriminate.
  assert (Hn : Z.max 0 (Z.min (len (drop (Z.to_nat 0) p)) (pageSize - co)) = len p).
  { change (Z.to_nat 0) with 0%nat. rewrite drop_0. lia. }
  assert (Hu : Z.max (usedSize pg) (co + len p) = usedSize pg) by lia.
  set (pm' := set_usedSize page (usedSize pg)
                (set_file (file_write (pm_file pm) (fileOff pg + co) p) pm)).
  exists pm'. split.
  - unfold WriteAt. rewrite Hseek0. unfold write.
    rewrite (write_loop_write (S fuel) p cp co e (len p) 0 [] 0 false cp co pm page pg);
      [| lia | right; by eapply mustAppend_inside | lia | done | done].
    cbv zeta. rewrite Hn, Hu, Hseek1.
    change (Z.to_nat 0) with 0%nat. rewrite drop_0.
    rewrite take_ge by (unfold len; lia). fold pm'.
    rewrite write_loop_done by lia. cbn [bind].
    unfold ep_addPages.
    assert (E : (0 + (usedSize pg - usedSize pg) =? 0) = true) by lia. rewrite E.
    cbn [bind wr_n wr_err wr_e wr_pm]. destruct e as [[tp ic] cof cpg]. reflexivity.
  - assert (Hpg' : pm_heap pm' !! page = Some {| fileOff := fileOff pg; usedSize := usedSize pg |}).
    { unfold pm'. rewrite heap_set_usedSize.
      destruct (decide (page = page)) as [_ | Hx]; [| done]. simpl pm_heap. by rewrite Hpg. }
    unfold ReadAt. rewrite Hseek0. unfold read.
    assert (E0 : (len (entry_pages e) =? 0) = false) by lia. rewrite E0.
    cbn [read_loop].
    assert (Hlq : len q = len p) by (unfold len; by rewrite Hq).
    assert (E1 : (len q >? 0) && negb (cp >=? len (entry_pages e)) = true).
    { apply andb_true_iff. split; [lia |]. apply negb_true_iff. lia. }
    rewrite E1, Hidx.
    assert (Hlr : len (replicate (length q) 0) = len p).
    { unfold len. rewrite length_replicate. by rewrite Hq. }
    rewrite Hlr.
    rewrite (pp_readAt_ok page _ _ _ pm' Hpg') by (cbn [usedSize]; lia). cbn [fileOff].
    rewrite Hseek1.
    assert (Hdata : file_read (pm_file pm') (fileOff pg + co) (len p) = p).
    { unfold pm'. simpl pm_file. rewrite file_read_write by lia.
      replace (len p - len p) with 0 by lia. unfold file_read. simpl. apply app_nil_r. }
    rewrite Hdata.
    assert (E2 : (0 + len p >? len q) = false) by lia. rewrite E2.
    assert (Hp' : take (Z.to_nat 0) q
                  ++ take (Z.to_nat (len p)) (p ++ drop (Z.to_nat (len p)) (replicate (length q) 0))
                  ++ drop (Z.to_nat (0 + len p)) q = p).
    { change (Z.to_nat 0) with 0%nat. rewrite take_0. simpl app.
      unfold len. rewrite Z.add_0_l, Nat2Z.id.
      rewrite take_app_length. rewrite drop_ge by lia. apply app_nil_r. }
    rewrite Hp'.
    destruct fuel as [| fuel']; cbn [read_loop].
    all: assert (E3 : (len q - len p >? 0) && negb (cp' >=? len (entry_pages e)) = false)
           by (apply andb_false_iff; left; lia).
    all: rewrite E3.
    all: assert (E4 : (0 + len p =? 0) = false) by lia.
    all: rewrite E4; cbn [bind rd_n rd_err rd_p]; f_equal; f_equal; f_equal; lia.
Qed.

(** X5.  [WriteAt] of a non-empty [p] that stays inside the used part of
    one page succeeds with [n = len(p)] and leaves the entry as it is, and
    [ReadAt] of as many bytes at the same offset then returns [p]. *)
Theorem X5_WriteAt_inside_page_then_ReadAt (fuel : nat) (e : Entry) (pm : PageManager)
    (p q : list Z) (cp co : Z) (page : ref) (pg : physicalPage) :
  0 < pageSize -> len (entry_pages e) * pageSize < 2 ^ 63 ->
  index (entry_pages e) cp = Some page -> pm_heap pm !! page = Some pg ->
  0 <= co -> p <> [] -> co + len p <= usedSize pg -> usedSize pg <= pageSize ->
  length q = length p ->
  exists pm',
    WriteAt (S (S fuel)) e p (cp * pageSize + co) pm = Ok (len p, None, e, pm') /\
    ReadAt (S (S fuel)) e q (cp * pageSize + co) pm' = Ok (len p, None, p).
Proof.
  intros HPS Hb Hidx Hpg Hco Hne Hfit Hused Hq.
  destruct (WriteAt_inside_ReadAt fuel e pm p q cp co page pg) as (pm' & Hw & Hr);
    try done.
  by exists pm'.
Qed.

End Overwrite.

(** ** Claim C8: a read that ends short of the buffer *)

Section ShortReads.
Context {C : Constants} {SR : ShortRead}.

(** Claim C8.  A [read] that asks for more than the page under the cursor
    still holds, when that page is only partly used, returns [(0, io.EOF)]
    and not the bytes that remained: either [readAt] reports the short read
    at once and the buffer stays untouched, or the remaining bytes are
    copied into [p], the cursor stops inside the page, below [len(pages)],
    the loop calls [readAt] again, which now finds nothing to read, and
    [return 0, err] drops the count.  Only at a page boundary does the loop
    stop by itself: from a last page that is used in full, a read that
    [readAt] does not report as short returns the bytes that remained
    without an error. *)
Theorem C8_read_short_of_the_stored_data (fuel : nat) (e : Entry) (pm : PageManager)
    (p : list Z) (cp co : Z) (page : ref) (pg : physicalPage) :
  0 < pageSize -> len (entry_pages e) * pageSize < 2 ^ 63 ->
  index (entry_pages e) cp = Some page -> pm_heap pm !! page = Some pg ->
  0 <= co <= usedSize pg -> co < pageSize -> usedSize pg <= pageSize ->
  usedSize pg - co < len p ->
  let n := usedSize pg - co in
  let stored := file_read (pm_file pm) (fileOff pg + co) n in
  (usedSize pg < pageSize ->
   read (S (S fuel)) e p cp co pm
   = Ok (if shortRead (len p) co n
         then MkReadResult 0 (Some EOF) p cp co
         else MkReadResult 0 (Some EOF) (stored ++ drop (Z.to_nat n) p) cp (usedSize pg))) /\
  (usedSize pg = pageSize -> cp = len (entry_pages e) - 1 ->
   shortRead (len p) co n = false ->
   read (S (S fuel)) e p cp co pm
   = Ok (MkReadResult n None (stored ++ drop (Z.to_nat n) p) (len (entry_pages e)) 0)).
Proof.
  intros HPS Hb Hidx Hpg Hco Hco' Hused Hmore n stored.
  pose proof (index_Some_lt _ _ _ Hidx) as Hcp.
  assert (Hlr : len (replicate (length p) 0) = len p).
  { unfold len. by rewrite length_replicate. }
  assert (E0 : (len (entry_pages e) =? 0) = false) by lia.
  assert (E1 : (len p >? 0) && negb (cp >=? len (entry_pages e)) = true).
  { apply andb_true_iff. split; [lia |]. apply negb_true_iff. lia. }
  assert (Hn : Z.max 0 (Z.min (len p) (Z.min pageSize (usedSize pg) - co)) = n)
    by (unfold n; lia).
  assert (Hls : length stored = Z.to_nat n) by apply length_file_read.
  set (readData1 := stored ++ drop (Z.to_nat n) (replicate (length p) 0)).
  assert (Hlr1 : len readData1 = len p).
  { unfold len, readData1. rewrite length_app, length_drop, length_replicate, Hls.
    unfold len in *. unfold n in *. lia. }
  assert (Hp1 : take (Z.to_nat 0) p ++ take (Z.to_nat n) readData1
                ++ drop (Z.to_nat (0 + n)) p = stored ++ drop (Z.to_nat n) p).
  { change (Z.to_nat 0) with 0%nat. rewrite take_0, Z.add_0_l. simpl app.
    unfold readData1. by rewrite take_app_length'. }
  (* the first round, common to both cases *)
  assert (Hround : shortRead (len p) co n = false ->
            read (S (S fuel)) e p cp co pm
            = match seek e n cp co with
              | Ok (cp', co') =>
                  read_loop (S fuel) e (stored ++ drop (Z.to_nat n) p) readData1
                    (len p - n) (0 + n) cp' co' pm
              | Err err => Ok (MkReadResult 0 (Some err) p cp co)
              | Panic msg => Panic msg
              | OutOfFuel => OutOfFuel
              end).
  { intros Hshort. unfold read. rewrite E0. cbn [read_loop]. rewrite E1, Hidx, Hlr.
    rewrite (pp_readAt_at page pg _ _ pm Hpg). cbv zeta. rewrite Hn, Hshort.
    fold stored. fold readData1.
    destruct (seek e n cp co) as [[cp' co'] | | |]; try done.
    assert (E2 : (0 + n >? len p) = false) by (unfold n; lia).
    by rewrite E2, Hp1. }
  split.
  - intros Hpart.
    destruct (shortRead (len p) co n) eqn:Hshort.
    + unfold read. rewrite E0. cbn [read_loop]. rewrite E1, Hidx, Hlr.
      rewrite (pp_readAt_at page pg _ _ pm Hpg). cbv zeta. by rewrite Hn, Hshort.
    + assert (Hpos : 0 < n).
      { destruct (Z.eq_dec n 0) as [Hz | Hz]; [| unfold n in *; lia].
        rewrite Hz, shortRead_none in Hshort by lia. discriminate. }
      rewrite Hround by done.
      rewrite seek_inside by (unfold n in *; lia).
      assert (E3 : (co + n <? pageSize) = true) by (unfold n; lia). rewrite E3.
      replace (co + n) with (usedSize pg) by (unfold n; lia).
      cbn [read_loop].
      assert (E4 : (len p - n >? 0) && negb (cp >=? len (entry_pages e)) = true).
      { apply andb_true_iff. split; [lia |]. apply negb_true_iff. lia. }
      rewrite E4, Hidx, Hlr1.
      rewrite (pp_readAt_at page pg _ _ pm Hpg). cbv zeta.
      replace (Z.max 0 (Z.min (len p) (Z.min pageSize (usedSize pg) - usedSize pg)))
        with 0 by lia.
      by rewrite shortRead_none by lia.
  - intros Hfull Hlast Hshort.
    rewrite Hround by done.
    rewrite seek_inside by (unfold n in *; lia).
    assert (E3 : (co + n <? pageSize) = false) by (unfold n; lia). rewrite E3.
    assert (E4 : (cp + 1 <? len (entry_pages e)) = false) by lia. rewrite E4.
    cbn [read_loop].
    assert (E5 : (len p - n >? 0) && negb (len (entry_pages e) >=? len (entry_pages e))
                 = false).
    { apply andb_false_iff. right. apply negb_false_iff. lia. }
    rewrite E5.
    assert (E6 : (0 + n =? 0) = false) by (unfold n in *; lia).
    by rewrite E6, Z.add_0_l.
Qed.

End ShortReads.

Section ShortReadScenario.
#[local] Existing Instance scenarioConstants.

(** The entry of ten bytes read with a buffer of twenty: [(0, io.EOF)]
    under both ways of reporting the short read; under [eofAtEnd] the ten
    stored bytes (zeros) have been copied into the buffer by then. *)
Lemma C8_witness_twenty_bytes_of_ten :
  read (SR := eofAtEnd) 2 onePageEntry (replicate 20 7) 0 0 (onePageManager 5)
  = Ok (MkReadResult 0 (Some EOF) (replicate 10 0 ++ replicate 10 7) 0 10) /\
  read (SR := eofWhenShort) 2 onePageEntry (replicate 20 7) 0 0 (onePageManager 5)
  = Ok (MkReadResult 0 (Some EOF) (replicate 20 7) 0 0).
Proof.
  assert (HPS : 0 < pageSize) by reflexivity.
  assert (Hb : len (entry_pages onePageEntry) * pageSize < 2 ^ 63) by reflexivity.
  assert (Hidx : index (entry_pages onePageEntry) 0 = Some 4%nat) by reflexivity.
  assert (Hpg : pm_heap (onePageManager 5) !! 4%nat
                = Some {| fileOff := 16384; usedSize := 10 |}) by (vm_compute; reflexivity).
  assert (Hco : 0 <= 0 <= usedSize {| fileOff := 16384; usedSize := 10 |})
    by (simpl; lia).
  assert (Hco' : 0 < pageSize) by reflexivity.
  assert (Hused : usedSize {| fileOff := 16384; usedSize := 10 |} <= pageSize)
    by (vm_compute; discriminate).
  assert (Hmore : usedSize {| fileOff := 16384; usedSize := 10 |} - 0 < len (replicate 20 7))
    by reflexivity.
  assert (Hpart : usedSize {| fileOff := 16384; usedSize := 10 |} < pageSize)
    by reflexivity.
  split.
  - exact (proj1 (C8_read_short_of_the_stored_data (SR := eofAtEnd) 0 onePageEntry
                    (onePageManager 5) (replicate 20 7) 0 0 4%nat _
                    HPS Hb Hidx Hpg Hco Hco' Hused Hmore) Hpart).
  - exact (proj1 (C8_read_short_of_the_stored_data (SR := eofWhenShort) 0 onePageEntry
                    (onePageManager 5) (replicate 20 7) 0 0 4%nat _
                    HPS Hb Hidx Hpg Hco Hco' Hused Hmore) Hpart).
Defined.

End ShortReadScenario.

(** ** Writes that extend the last page, and offsets outside the entry *)

Section WriteEdges.
Context {C : Constants} {SR : ShortRead}.

Lemma seek_start_exact (off : Z) :
  in_int64 off -> add64 (add64 (mul64 0 pageSize) 0) off = off.
Proof.
  intros H. unfold add64, mul64. rewrite Z.mul_0_l.
  rewrite (wrap_int64_small 0) by (unfold in_int64; lia).
  rewrite (wrap_int64_small (0 + 0)) by (unfold in_int64; lia).
  by apply wrap_int64_small.
Qed.

(** X6.  On an entry whose size is that of its pages, all full but the
    last, a [WriteAt] that makes the last page longer without leaving it
    panics: no page is added, and the sanity check of [addPages] compares
    [usedSize / pageSize], which still counts the last page out, with the
    number of pages. *)
Theorem X6_WriteAt_extending_last_page_panics (fuel : nat) (e : Entry) (pm : PageManager)
    (p : list Z) (cp co : Z) (page : ref) (pg : physicalPage) :
  0 < pageSize -> len (entry_pages e) * pageSize < 2 ^ 63 ->
  cp = len (entry_pages e) - 1 ->
  index (entry_pages e) cp = Some page -> pm_heap pm !! page = Some pg ->
  0 <= usedSize pg -> tp_usedSize (ep_tp (ep e)) = cp * pageSize + usedSize pg ->
  0 <= co -> p <> [] -> usedSize pg < co + len p -> co + len p <= pageSize ->
  WriteAt (S (S (S fuel))) e p (cp * pageSize + co) pm
  = Panic "ep.pages should already contain the updated number of pages".
Proof.
  intros HPS Hb Hlast Hidx Hpg Hu0 Hsize Hco Hne Hext Hfit.
  pose proof (index_Some_lt _ _ _ Hidx) as Hcp.
  assert (Hlp : 0 < len p).
  { unfold len. destruct p; [done | simpl; lia]. }
  assert (Hseek0 : seek e (cp * pageSize + co) 0 0 = Ok (cp, co))
    by (apply seek_from_start; lia).
  destruct (seek e (len p) cp co) as [[cp' co'] | | |] eqn:Hseek1.
  2-4: rewrite seek_inside in Hseek1 by lia; discriminate.
  assert (Hn : Z.max 0 (Z.min (len (drop (Z.to_nat 0) p)) (pageSize - co)) = len p).
  { change (Z.to_nat 0) with 0%nat. rewrite drop_0. lia. }
  assert (Hu : Z.max (usedSize pg) (co + len p) = co + len p) by lia.
  assert (Hm : mustAppend e cp co (len p) pm = Ok true).
  { unfold mustAppend.
    assert (E : (cp >=? len (entry_pages e)) = false) by lia. rewrite E.
    assert (E1 : (cp =? len (entry_pages e) - 1) = true) by lia. rewrite E1, Hidx.
    unfold deref. rewrite Hpg. cbn [bind]. f_equal. lia. }
  unfold WriteAt. rewrite Hseek0. unfold write.
  rewrite write_loop_restart by (done || lia).
  rewrite (write_loop_write (S fuel) p cp co e (len p) 0 [] 0 true cp co pm page pg);
    [| lia | by left | lia | done | done].
  cbv zeta. rewrite Hn, Hu, Hseek1.
  rewrite write_loop_done by lia. cbn [bind].
  unfold ep_addPages.
  assert (E : (0 + (co + len p - usedSize pg) =? 0) = false) by lia. rewrite E.
  assert (Hnext : nextIndex (ep_tp (ep e)) = cp).
  { unfold nextIndex. rewrite Hsize. rewrite Z.quot_div_nonneg by nia.
    rewrite Z.div_add_l by lia. rewrite Z.div_small by lia. lia. }
  rewrite Hnext.
  assert (E2 : negb (cp + len (@nil ref) =? len (pages (ep_tp (ep e)))) = true).
  { apply negb_true_iff, Z.eqb_neq. change (len (@nil ref)) with 0.
    unfold entry_pages in Hlast. lia. }
  rewrite E2. reflexivity.
Qed.

(** X7.  [ReadAt] and [WriteAt] reject a negative offset with the error of
    [seek] and without any effect, and [ReadAt] at or behind the end of the
    pages reports [io.EOF] with the buffer untouched. *)
Theorem X7_offsets_outside_the_entry (fuel : nat) (e : Entry) (pm : PageManager)
    (p : list Z) (off : Z) :
  0 < pageSize -> in_int64 off ->
  (off < 0 ->
     ReadAt fuel e p off pm = Ok (0, Some ErrNegativeSeek, p) /\
     WriteAt fuel e p off pm = Ok (0, Some ErrNegativeSeek, e, pm)) /\
  (len (entry_pages e) * pageSize <= off ->
     ReadAt (S fuel) e p off pm = Ok (0, Some EOF, p)).
Proof.
  intros HPS Hoff.
  pose proof (seek_spec e off 0 0 HPS) as (Hneg & Hclamp & _).
  cbv zeta in Hneg, Hclamp. rewrite (seek_start_exact off Hoff) in Hneg, Hclamp.
  split.
  - intros Hlt. unfold ReadAt, WriteAt. by rewrite (Hneg Hlt).
  - intros Hge. pose proof (len_nonneg (entry_pages e)) as Hn.
    assert (Hq : len (entry_pages e) <= off / pageSize).
    { apply Z.div_le_lower_bound; lia. }
    unfold ReadAt. rewrite (Hclamp ltac:(nia) Hq). unfold read.
    destruct (len (entry_pages e) =? 0) eqn:E0; [done |].
    cbn [read_loop].
    assert (E1 : (len p >? 0)
                 && negb (len (entry_pages e) >=? len (entry_pages e)) = false).
    { apply andb_false_iff. right. apply negb_false_iff. lia. }
    rewrite E1. done.
Qed.

End WriteEdges.

(** ** Appending a page to an entry *)

Section Append.
Context {C : Constants} {SR : ShortRead}.

(** A write at or behind the end of an entry of whole pages: the seek is
    clamped to the end, one page is added, and [p] reads back from there. *)
Lemma WriteAt_appends_a_page (N P : ref -> Prop) (fuel : nat) (e : Entry)
    (pm : PageManager) (p q : list Z) (off : Z) :
  let tp := ep_tp (ep e) in
  let new := pm_nextRef pm in
  let P' := fun r => P r \/ r = new in
  0 < pageSize -> 0 < numPageEntries < 2 ^ 64 ->
  (forall r, N r -> P r -> False) ->
  wf_root N P (root tp) (pages tp) -> height (root tp) = 0 ->
  len (pages tp) < numPageEntries ->
  heap_ok N P pm -> inside_file pm -> N (tp_pp tp) ->
  ~ allocated pm new ->
  0 <= pm_fileSize pm -> pm_fileSize pm + pageSize < 2 ^ 55 ->
  (len (pages tp) + 1) * pageSize < 2 ^ 55 ->
  tp_usedSize tp = len (pages tp) * pageSize ->
  availablePages (freePages pm) = 0 ->
  p <> [] -> len p <= pageSize -> length q = length p ->
  len (pages tp) * pageSize <= off -> in_int64 off ->
  exists e' pm',
    seek e off 0 0 = Ok (len (pages tp), 0) /\
    WriteAt (S (S (S (S fuel)))) e p off pm = Ok (len p, None, e', pm') /\
    entry_pages e' = pages tp ++ [new] /\
    tp_usedSize (ep_tp (ep e')) = tp_usedSize tp + len p /\
    wf_root N P' (root (ep_tp (ep e'))) (entry_pages e') /\
    ReadAt (S (S fuel)) e' q (len (pages tp) * pageSize) pm' = Ok (len p, None, p).
Proof.
  intros tp new P' HPS [HF0 HF] HNP Hwf Hh Hroom Hok Hin HNd Hfresh Hfs0 Hfs1 Hb Hsize Hav
    Hne Hfit Hq Hoff Hoff64.
  pose proof (len_nonneg (pages tp)) as HL0.
  set (L := len (pages tp)) in *.
  assert (HLe : len (entry_pages e) = L) by reflexivity.
  assert (Hlp : 0 < len p).
  { unfold len. destruct p; [done | simpl; lia]. }
  pose proof Hok as (Henc & HNa & HPa).
  assert (HnewN : ~ N new) by (intros H; by apply Hfresh, HNa).
  assert (HnewP : ~ P new) by (intros H; by apply Hfresh, HPa).
  assert (HNP' : forall r, N r -> P' r -> False).
  { intros r HNr [HPr | ->]; [by apply (HNP r) | done]. }
  (* the seek of WriteAt is clamped to the end *)
  assert (Hseek0 : seek e off 0 0 = Ok (L, 0)).
  { pose proof (seek_spec e off 0 0 HPS) as (_ & Hclamp & _).
    cbv zeta in Hclamp. rewrite (seek_start_exact off Hoff64) in Hclamp.
    apply Hclamp; [nia |]. apply Z.div_le_lower_bound; lia. }
  (* the entry with the new page in its list *)
  set (e1 := set_entry_tp (set_pages (entry_pages e ++ [new]) (ep_tp (ep e))) e).
  assert (Hpages1 : entry_pages e1 = pages tp ++ [new]) by reflexivity.
  assert (Hlen1 : len (entry_pages e1) = L + 1).
  { rewrite Hpages1, len_app. reflexivity. }
  set (pm1 := grown pm).
  assert (Hnew1 : pm_heap pm1 !! new = Some {| fileOff := pm_fileSize pm; usedSize := 0 |}).
  { unfold pm1, grown. simpl. apply lookup_insert_eq. }
  assert (Hold1 : forall r, r <> new -> pm_heap pm1 !! r = pm_heap pm !! r).
  { intros r Hr. unfold pm1, grown. simpl. by apply lookup_insert_ne. }
  set (pm2 := set_usedSize new (len p)
                (set_file (file_write (pm_file pm1) (pm_fileSize pm + 0) p) pm1)).
  assert (Hso12 : same_offsets pm1 pm2).
  { intros r. unfold pm2. rewrite heap_set_usedSize. simpl pm_heap.
    destruct (decide (new = r)); [| done]. by destruct (_ !! r). }
  assert (Hok1 : heap_ok N P' pm1).
  { split_and!.
    - apply grown_encodable; [done | lia].
    - intros r Hr. by apply grown_allocated, HNa.
    - intros r [Hr | ->]; [by apply grown_allocated, HPa | apply grown_allocated_new]. }
  assert (Hok2 : heap_ok N P' pm2) by (by apply (heap_ok_same N P' pm1)).
  destruct (seek e1 (len p) L 0) as [[cp' co'] | | |] eqn:Hseek1.
  2-4: rewrite seek_inside in Hseek1 by (rewrite ?Hlen1; lia); discriminate.
  (* the loop of write *)
  assert (Hloop : write_loop (S (S (S (S fuel)))) p L 0 e (len p) 0 [] 0 false L 0 pm
                  = Ok (None, e1, len p, [new], cp', co', pm2)).
  { rewrite write_loop_restart;
      [| lia | unfold mustAppend;
               assert (E : (L >=? len (entry_pages e)) = true) by lia;
               by rewrite E].
    rewrite write_loop_alloc; [| lia | lia | done].
    cbv zeta. fold new. fold e1. fold pm1.
    assert (E : (L >=? len (entry_pages e1)) = false) by lia. rewrite E.
    rewrite (write_loop_write (S fuel) p L 0 e1 (len p) 0 [new] 0 true L 0 pm1 new
               {| fileOff := pm_fileSize pm; usedSize := 0 |});
      [| lia | by left | lia | rewrite Hpages1; apply index_app_last | done].
    cbv zeta. cbn [fileOff usedSize].
    change (Z.to_nat 0) with 0%nat. rewrite drop_0.
    replace (Z.max 0 (Z.min (len p) (pageSize - 0))) with (len p) by lia.
    replace (Z.max 0 (0 + len p)) with (len p) by lia.
    rewrite take_ge by (unfold len; lia). rewrite Hseek1. fold pm2.
    rewrite write_loop_done by lia. f_equal. f_equal. f_equal. f_equal. f_equal. f_equal. lia. }
  (* addPages *)
  set (tp1 := ep_tp (ep e1)).
  assert (Hwf' : wf_root N P' (root tp1) (pages tp)).
  { apply (wf_root_leaf_inv N P HF0 _ _ Hh) in Hwf as (Hd & HNr & HPs & Hl).
    apply (wf_root_leaf_intro N P'); try done.
    eapply Forall_impl; [exact HPs |]. intros r Hr. by left. }
  destruct (addPages_loop_leaf N P' HNP' HF0 HF false [new] tp1 pm2 (pages tp))
    as (root3 & pm3 & Hrun3 & Hwf3 & Hh3 & Hpp3 & Hso3 & Hsm3 & Hfs3 & Hon3 & _); try done.
  { change (len [new]) with 1. fold L. lia. }
  { constructor; [by right | constructor]. }
  assert (Hok3 : heap_ok N P' pm3) by (by apply (heap_ok_same N P' pm2)).
  pose proof Hok3 as (Henc3 & HNa3 & HPa3).
  assert (HNroot : N (pt_pp root3)).
  { rewrite Hpp3. by apply (wf_root_leaf_inv N P HF0 _ _ Hh) in Hwf as (_ & ? & _). }
  destruct (deref_allocated pm3 (pt_pp root3) (HNa3 _ HNroot)) as (rpg & Hrpg & Hde3).
  destruct (writeTieredPageEntry_ok pm3 (tp_pp tp) (height root3)
              (tp_usedSize tp + len p) (fileOff rpg))
    as (pm4 & Hw4 & Hso4 & Hoth4 & _); [by apply HNa3 | nia | by eapply Henc3 |].
  set (tp4 := set_tp_usedSize (tp_usedSize tp + len p) (set_root root3 tp1)).
  assert (Hadd : ep_addPages (S (S (S (S fuel)))) (ep e1) [new] (len p) pm2
                 = Ok (EntryPage tp4 (instanceCounter (ep e1)), pm4)).
  { unfold ep_addPages.
    assert (E : (len p =? 0) = false) by lia. rewrite E.
    assert (Hnext : nextIndex (ep_tp (ep e1)) = L).
    { unfold nextIndex. change (tp_usedSize (ep_tp (ep e1))) with (tp_usedSize tp).
      rewrite Hsize. apply Z.quot_mul. lia. }
    rewrite Hnext.
    assert (E2 : negb (L + len [new] =? len (pages (ep_tp (ep e1)))) = false).
    { apply negb_false_iff, Z.eqb_eq. change (pages (ep_tp (ep e1))) with (entry_pages e1).
      rewrite Hlen1. reflexivity. }
    rewrite E2. fold tp1. rewrite Hrun3. cbn [bind].
    change (tp_usedSize (set_root root3 tp1)) with (tp_usedSize tp).
    cbn [root set_tp_usedSize set_root tp_pp tp_usedSize]. rewrite Hde3. cbn [bind].
    change (tp_pp tp1) with (tp_pp tp). rewrite Hw4. reflexivity. }
  set (e4 := set_entry_tp tp4 e1).
  exists e4, pm4. split_and!.
  - exact Hseek0.
  - unfold WriteAt. rewrite Hseek0. unfold write. rewrite Hloop. cbn [bind].
    rewrite Hadd. reflexivity.
  - reflexivity.
  - reflexivity.
  - exact Hwf3.
  - (* reading back *)
    assert (Hpages4 : entry_pages e4 = pages tp ++ [new]) by reflexivity.
    assert (Hlen4 : len (entry_pages e4) = L + 1).
    { rewrite Hpages4, len_app. reflexivity. }
    assert (Hnew4 : pm_heap pm4 !! new
                    = Some {| fileOff := pm_fileSize pm; usedSize := len p |}).
    { rewrite Hoth4 by (intros ->; done). rewrite (Hon3 new) by (split; [by right | done]).
      unfold pm2. rewrite heap_set_usedSize.
      destruct (decide (new = new)) as [_ | Hx]; [| done].
      change (pm_heap (set_file _ pm1)) with (pm_heap pm1). by rewrite Hnew1. }
    assert (Hfile : forall x, pm_fileSize pm <= x -> pm_file pm4 x = pm_file pm2 x).
    { intros x Hx.
      assert (Hout : forall r, N r -> ~ in_page pm2 r x).
      { intros r HNr (pg & Hpg & Hrange).
        assert (Hr : r <> new) by (intros ->; done).
        unfold pm2 in Hpg. rewrite heap_set_usedSize in Hpg.
        destruct (decide (new = r)) as [Heq | _]; [by symmetry in Heq |].
        change (pm_heap (set_file _ pm1)) with (pm_heap pm1) in Hpg.
        rewrite Hold1 in Hpg by done.
        destruct (Hin r pg Hpg) as [_ Hle]. lia. }
      assert (Hi0 : 0 <= height root3 * tieredPageEntrySize) by (rewrite Hh3; lia).
      rewrite (writeTieredPageEntry_file pm3 pm4 _ _ _ _ Hi0 Hw4).
      - apply Hfs3. intros r <-. apply Hout.
        by apply (wf_root_leaf_inv N P HF0 _ _ Hh) in Hwf as (_ & ? & _).
      - intros r <- Hin3. apply (Hout (tp_pp tp) HNd).
        by eapply in_page_same_offsets. }
    assert (Hseek40 : seek e4 (L * pageSize) 0 0 = Ok (L, 0)).
    { replace (L * pageSize) with (L * pageSize + 0) by lia.
      apply seek_from_start; rewrite ?Hlen4; lia. }
    unfold ReadAt. rewrite Hseek40. unfold read.
    assert (E0 : (len (entry_pages e4) =? 0) = false) by lia. rewrite E0.
    cbn [read_loop].
    assert (Hlq : len q = len p) by (unfold len; by rewrite Hq).
    assert (E1 : (len q >? 0) && negb (L >=? len (entry_pages e4)) = true).
    { apply andb_true_iff. split; [lia |]. apply negb_true_iff. lia. }
    assert (Hidx4 : index (entry_pages e4) L = Some new)
      by (rewrite Hpages4; apply index_app_last).
    rewrite E1, Hidx4.
    assert (Hlr : len (replicate (length q) 0) = len p).
    { unfold len. rewrite length_replicate. by rewrite Hq. }
    rewrite Hlr.
    rewrite (pp_readAt_ok new _ _ _ pm4 Hnew4) by (cbn [usedSize]; lia). cbn [fileOff].
    assert (Hseek4 : seek e4 (len p) L 0 = Ok (cp', co')).
    { unfold seek in Hseek1 |- *. rewrite Hpages4. by rewrite Hpages1 in Hseek1. }
    rewrite Hseek4.
    assert (Hdata : file_read (pm_file pm4) (pm_fileSize pm + 0) (len p) = p).
    { transitivity (file_read (pm_file pm2) (pm_fileSize pm + 0) (len p)).
      - unfold file_read. apply map_ext. intros i. apply Hfile. lia.
      - unfold pm2. simpl pm_file. rewrite file_read_write by lia.
        replace (len p - len p) with 0 by lia. unfold file_read. simpl. apply app_nil_r. }
    rewrite Hdata.
    assert (E2 : (0 + len p >? len q) = false) by lia. rewrite E2.
    assert (Hp' : take (Z.to_nat 0) q
                  ++ take (Z.to_nat (len p)) (p ++ drop (Z.to_nat (len p)) (replicate (length q) 0))
                  ++ drop (Z.to_nat (0 + len p)) q = p).
    { change (Z.to_nat 0) with 0%nat. rewrite take_0. simpl app.
      unfold len. rewrite Z.add_0_l, Nat2Z.id.
      rewrite take_app_length. rewrite drop_ge by lia. apply app_nil_r. }
    rewrite Hp'.
    destruct fuel as [| fuel']; cbn [read_loop].
    all: assert (E3 : (len q - len p >? 0) && negb (cp' >=? len (entry_pages e4)) = false)
           by (apply andb_false_iff; left; lia).
    all: rewrite E3.
    all: assert (E4 : (0 + len p =? 0) = false) by lia.
    all: rewrite E4; cbn [bind rd_n rd_err rd_p]; f_equal; f_equal; f_equal; lia.
Qed.

(** X8.  On an entry of whole pages under a leaf root with room, with an
    empty recycler, [WriteAt] at any offset at or behind the end appends
    [p] (at most a page) in a new page at the end of the file: the call
    returns [len(p)], the entry has one page more and [len(p)] bytes more,
    its tree is well formed, and [ReadAt] at the old end returns [p].  The
    offset the caller asked for plays no part. *)
Theorem X8_WriteAt_behind_the_end_appends (N P : ref -> Prop) (fuel : nat) (e : Entry)
    (pm : PageManager) (p q : list Z) (off : Z) :
  let tp := ep_tp (ep e) in
  let new := pm_nextRef pm in
  let P' := fun r => P r \/ r = new in
  0 < pageSize -> 0 < numPageEntries < 2 ^ 64 ->
  (forall r, N r -> P r -> False) ->
  wf_root N P (root tp) (pages tp) -> height (root tp) = 0 ->
  len (pages tp) < numPageEntries ->
  heap_ok N P pm -> inside_file pm -> N (tp_pp tp) ->
  ~ allocated pm new ->
  0 <= pm_fileSize pm -> pm_fileSize pm + pageSize < 2 ^ 55 ->
  (len (pages tp) + 1) * pageSize < 2 ^ 55 ->
  tp_usedSize tp = len (pages tp) * pageSize ->
  availablePages (freePages pm) = 0 ->
  p <> [] -> len p <= pageSize -> length q = length p ->
  len (pages tp) * pageSize <= off -> in_int64 off ->
  exists e' pm',
    WriteAt (S (S (S (S fuel)))) e p off pm = Ok (len p, None, e', pm') /\
    entry_pages e' = pages tp ++ [new] /\
    tp_usedSize (ep_tp (ep e')) = tp_usedSize tp + len p /\
    wf_root N P' (root (ep_tp (ep e'))) (entry_pages e') /\
    ReadAt (S (S fuel)) e' q (len (pages tp) * pageSize) pm' = Ok (len p, None, p).
Proof.
  intros tp new P' HPS HF HNP Hwf Hh Hroom Hok Hin HNd Hfresh Hfs0 Hfs1 Hb Hsize Hav
    Hne Hfit Hq Hoff Hoff64.
  destruct (WriteAt_appends_a_page N P fuel e pm p q off)
    as (e' & pm' & _ & Hw & Hp & Hu & Hwf' & Hr); try done.
  exists e', pm'. by split_and!.
Qed.

End Append.

(** ** Claims C5 and C10: where a write lands and what reads back *)

Section WriteThenRead.
Context {C : Constants} {SR : ShortRead}.



End WriteThenRead.

Section WriteThenReadScenario.
#[local] Existing Instance scenarioConstants.
#[local] Existing Instance eofAtEnd.



End WriteThenReadScenario.

(** ** Recovery of a leaf *)

Section RecoverLeaf.
Context {C : Constants} {SR : ShortRead}.

Lemma recursiveRecovery_leaf (fuel : nat) (parent : pageTable) (rem : Z) (pm : PageManager) :
  recursiveRecovery (S fuel) parent 0 rem pm
  = (let! entries := readPageTable (pt_pp parent) pm in
     recoverLeafLoop entries parent [] rem pm).
Proof.
  cbn [recursiveRecovery].
  destruct (readPageTable (pt_pp parent) pm) as [entries | | |]; cbn [bind]; done.
Qed.

Lemma shifted_empty {A : Type} : shifted (∅ : gmap Z A) [].
Proof.
  intros k. rewrite lookup_empty. rewrite !index_nil. by repeat case_match.
Qed.

Lemma shifted_insert {A : Type} (m : gmap Z A) (l : list A) (x : A) :
  shifted m l -> len l < 2 ^ 64 - 1 ->
  shifted (<[wrap_uint64 (len l - 1) := x]> m) (l ++ [x]).
Proof.
  intros Hs Hb k. pose proof (len_nonneg l) as Hn.
  destruct l as [| y l].
  - change (len (@nil A) - 1) with (0 - 1). rewrite wrap_uint64_pred_0.
    destruct (Z.eqb_spec k (2 ^ 64 - 1)) as [-> | Hk].
    + rewrite lookup_insert_eq. done.
    + rewrite lookup_insert_ne by done. rewrite Hs.
      destruct (Z.eqb_spec k (2 ^ 64 - 1)); [done |].
      destruct (k <? 0) eqn:E; [done |]. rewrite index_nil.
      symmetry. apply index_ge. unfold len. simpl. lia.
  - set (l' := y :: l) in *.
    assert (Hpos : 1 <= len l') by (unfold len, l'; simpl; lia).
    rewrite wrap_uint64_small by lia.
    destruct (Z.eq_dec k (len l' - 1)) as [-> | Hk].
    + rewrite lookup_insert_eq.
      destruct (Z.eqb_spec (len l' - 1) (2 ^ 64 - 1)); [lia |].
      destruct (len l' - 1 <? 0) eqn:E; [lia |].
      replace (len l' - 1 + 1) with (len l') by lia. by rewrite index_app_last.
    + rewrite lookup_insert_ne by done. rewrite Hs.
      destruct (Z.eqb_spec k (2 ^ 64 - 1)).
      * by rewrite index_app_l by lia.
      * destruct (k <? 0) eqn:E; [done |].
        destruct (Z_lt_le_dec (k + 1) (len l')) as [Hlt | Hge].
        -- by rewrite index_app_l by lia.
        -- rewrite index_ge by lia. symmetry. apply index_ge. rewrite len_app.
           change (len [x]) with 1. lia.
Qed.

Lemma shifted_last_slot_empty {A : Type} (m : gmap Z A) (l : list A) :
  shifted m l -> len l < 2 ^ 64 - 1 -> m !! (len l - 1) = None.
Proof.
  intros Hs Hb. pose proof (len_nonneg l) as Hn. rewrite Hs.
  destruct (Z.eqb_spec (len l - 1) (2 ^ 64 - 1)); [lia |].
  destruct (len l - 1 <? 0) eqn:E; [done |].
  apply index_ge. lia.
Qed.

Lemma shifted_key_free {A : Type} (m : gmap Z A) (l : list A) :
  shifted m l -> len l < 2 ^ 64 - 1 -> m !! wrap_uint64 (len l - 1) = None.
Proof.
  intros Hs Hb. pose proof (len_nonneg l) as Hn.
  destruct (Z.eq_dec (len l) 0) as [H0 | H0].
  - rewrite H0. change (0 - 1) with (0 - 1). rewrite wrap_uint64_pred_0, Hs.
    rewrite Z.eqb_refl. apply index_ge. lia.
  - rewrite wrap_uint64_small by lia. by apply shifted_last_slot_empty.
Qed.

(** The loop at height zero: the pages are new objects, one per entry, in
    the order of the entries; they go to the shifted slots; the bytes that
    remain are dealt out a page at a time. *)
Lemma recoverLeafLoop_spec (entries : list Z) :
  forall (parent : pageTable) (pages : list ref) (rem : Z) (pm : PageManager),
  0 < pageSize ->
  shifted (childPages parent) pages -> size (childPages parent) = length pages ->
  len pages + len entries < 2 ^ 64 - 1 -> 0 <= rem ->
  exists parent' rem' pm',
    recoverLeafLoop entries parent pages rem pm
    = Ok (pages ++ seq (pm_nextRef pm) (length entries), parent', rem', pm') /\
    shifted (childPages parent') (pages ++ seq (pm_nextRef pm) (length entries)) /\
    size (childPages parent') = length (pages ++ seq (pm_nextRef pm) (length entries)) /\
    height parent' = height parent /\ pt_pp parent' = pt_pp parent /\
    (forall (i : nat) (off : Z), entries !! i = Some off ->
       pm_heap pm' !! (pm_nextRef pm + i)%nat
       = Some {| fileOff := off;
                 usedSize := Z.min pageSize (Z.max 0 (rem - Z.of_nat i * pageSize)) |}) /\
    (forall r, (r < pm_nextRef pm)%nat -> pm_heap pm' !! r = pm_heap pm !! r).
Proof.
  induction entries as [| offset entries IH]; intros parent pages rem pm HPS Hs Hsz Hb Hrem.
  - exists parent, rem, pm. simpl. rewrite app_nil_r. split_and!; try done.
  - set (new := pm_nextRef pm).
    set (pm1 := MkPageManager (pm_file pm) (pm_fileSize pm)
                  (<[new := {| fileOff := offset; usedSize := pageSize |}]> (pm_heap pm))
                  (S new) (recyclePages pm) (freePages pm)).
    set (parent1 := set_childPages
                      (<[wrap_uint64 (Z.of_nat (size (childPages parent)) - 1) := new]>
                         (childPages parent)) parent).
    assert (Hlen : len (offset :: entries) = 1 + len entries) by (unfold len; simpl; lia).
    pose proof (len_nonneg pages) as Hp0. pose proof (len_nonneg entries) as He0.
    assert (Hs1 : shifted (childPages parent1) (pages ++ [new])).
    { unfold parent1. simpl. rewrite Hsz. apply shifted_insert; [done | lia]. }
    assert (Hsz1 : size (childPages parent1) = length (pages ++ [new])).
    { unfold parent1. simpl. rewrite map_size_insert_None.
      - rewrite Hsz, length_app. simpl. lia.
      - rewrite Hsz. apply shifted_key_free; [done | lia]. }
    assert (Hl : (pages ++ [new]) ++ seq (S new) (length entries)
                 = pages ++ seq new (length (offset :: entries))).
    { rewrite <- app_assoc. reflexivity. }
    assert (Hgen : forall u rem1 : Z,
              u = Z.min pageSize (Z.max 0 rem) -> rem1 = Z.max 0 (rem - pageSize) ->
              exists parent' rem' pm',
                recoverLeafLoop entries parent1 (pages ++ [new]) rem1 (set_usedSize new u pm1)
                = Ok (pages ++ seq new (length (offset :: entries)), parent', rem', pm') /\
                shifted (childPages parent') (pages ++ seq new (length (offset :: entries))) /\
                size (childPages parent')
                = length (pages ++ seq new (length (offset :: entries))) /\
                height parent' = height parent /\ pt_pp parent' = pt_pp parent /\
                (forall (i : nat) (off : Z), (offset :: entries) !! i = Some off ->
                   pm_heap pm' !! (new + i)%nat
                   = Some {| fileOff := off;
                             usedSize := Z.min pageSize
                                           (Z.max 0 (rem - Z.of_nat i * pageSize)) |}) /\
                (forall r, (r < new)%nat -> pm_heap pm' !! r = pm_heap pm !! r)).
    { intros u rem1 Hu Hrem1.
      destruct (IH parent1 (pages ++ [new]) rem1 (set_usedSize new u pm1) HPS Hs1 Hsz1)
        as (parent' & rem' & pm' & Hrun & Hs' & Hsz' & Hh' & Hpp' & Hheap & Hframe);
        [rewrite len_app; change (len [new]) with 1; lia | lia |].
      change (pm_nextRef (set_usedSize new u pm1)) with (S new) in *.
      rewrite Hl in *.
      exists parent', rem', pm'. split_and!; try done.
      + intros i off Hi. destruct i as [| i].
        * injection Hi as ->. rewrite Nat.add_0_r. rewrite Hframe by lia.
          rewrite heap_set_usedSize.
          destruct (decide (new = new)) as [_ | Hx]; [| done].
          unfold pm1. simpl pm_heap. rewrite lookup_insert_eq. simpl. f_equal. f_equal. lia.
        * replace (new + S i)%nat with (S new + i)%nat by lia.
          rewrite (Hheap i off Hi). f_equal. f_equal. lia.
      + intros r Hr. rewrite Hframe by lia. rewrite heap_set_usedSize.
        destruct (decide (new = r)) as [Heq | _]; [lia |].
        unfold pm1. simpl pm_heap. apply lookup_insert_ne. lia. }
    cbn [recoverLeafLoop]. unfold new_object.
    destruct (rem >? pageSize) eqn:E.
    + apply (Hgen pageSize (rem - pageSize)); lia.
    + apply (Hgen rem 0); lia.
Qed.

Lemma mapM_app_panic {A B : Type} (f : A -> result B) (l : list A) (x : A) (msg : string) :
  Forall (fun a => exists b, f a = Ok b) l -> f x = Panic msg ->
  mapM f (l ++ [x]) = Panic msg.
Proof.
  induction 1 as [| a l [b Hb] _ IH]; intros Hx; simpl.
  - by rewrite Hx.
  - rewrite Hb. cbn [bind]. by rewrite IH.
Qed.

Lemma upto_succ (k : nat) : upto (Z.of_nat (S k)) = upto (Z.of_nat k) ++ [Z.of_nat k].
Proof. unfold upto. rewrite !Nat2Z.id. by rewrite seq_S, map_app. Qed.

(** X9.  [recoverTree] for a root of height zero whose page holds a table
    of offsets: there is one new page per offset, in the order of the
    table, and the bytes of [usedSize] are dealt out a page at a time.  The
    first page goes to the slot [2^64 - 1] and the page [k + 1] to the slot
    [k], because the key is the length of the map less one before the
    insertion; the last of the slots [0 .. n-1] stays empty, and [marshal]
    of the recovered root panics there. *)
Theorem X9_recoverTree_leaf_shifts_the_slots (fuel : nat) (tp : tieredPage)
    (pm : PageManager) (rootOff : Z) (offs : list Z) :
  0 < pageSize -> len offs < 2 ^ 64 - 1 -> 0 <= tp_usedSize tp ->
  unmarshalPageTable (file_read (pm_file pm) rootOff pageSize) = Ok offs ->
  exists tp' pm',
    recoverTree (S fuel) tp rootOff 0 pm = Ok (tp', pm') /\
    pages tp' = seq (S (pm_nextRef pm)) (length offs) /\
    tp_usedSize tp' = tp_usedSize tp /\ height (root tp') = 0 /\
    shifted (childPages (root tp')) (pages tp') /\
    (forall (i : nat) (off : Z), offs !! i = Some off ->
       pm_heap pm' !! (S (pm_nextRef pm) + i)%nat
       = Some {| fileOff := off;
                 usedSize := Z.min pageSize
                               (Z.max 0 (tp_usedSize tp - Z.of_nat i * pageSize)) |}) /\
    (offs <> [] ->
       childPages (root tp') !! (len offs - 1) = None /\
       marshal (root tp') pm' = Panic nil_deref).
Proof.
  intros HPS Hb HU Hdisk.
  unfold recoverTree, new_object.
  set (rootRef := pm_nextRef pm).
  set (pm1 := MkPageManager (pm_file pm) (pm_fileSize pm)
                (<[rootRef := {| fileOff := rootOff; usedSize := pageSize |}]> (pm_heap pm))
                (S rootRef) (recyclePages pm) (freePages pm)).
  set (root0 := PageTable 0 None ∅ ∅ rootRef).
  rewrite recursiveRecovery_leaf.
  assert (Hread : readPageTable (pt_pp root0) pm1 = Ok offs).
  { assert (Hroot : pm_heap pm1 !! rootRef
                    = Some {| fileOff := rootOff; usedSize := pageSize |})
      by (unfold pm1; simpl pm_heap; apply lookup_insert_eq).
    unfold readPageTable. simpl pt_pp.
    rewrite (pp_readAt_ok rootRef _ _ _ pm1 Hroot) by (cbn [usedSize]; lia).
    cbn [bind fileOff].
    replace (pageSize - pageSize) with 0 by lia. simpl replicate.
    rewrite app_nil_r, Z.add_0_r. exact Hdisk. }
  rewrite Hread. cbn [bind].
  destruct (recoverLeafLoop_spec offs root0 [] (tp_usedSize tp) pm1 HPS)
    as (root' & rem' & pm' & Hrun & Hs & Hsz & Hh & Hpp & Hheap & Hframe);
    try done.
  { apply shifted_empty. }
  rewrite Hrun. cbn [bind]. simpl app in *. change (pm_nextRef pm1) with (S rootRef) in *.
  exists (TieredPage root' (tp_pp tp) (tp_usedSize tp) (seq (S rootRef) (length offs))), pm'.
  split_and!; try done.
  intros Hne. cbn [root pages] in *. change (height root0) with 0 in Hh.
  assert (Hlen : @len ref (seq (S rootRef) (length offs)) = len offs).
  { unfold len. by rewrite length_seq. }
  assert (Hlast : childPages root' !! (len offs - 1) = None).
  { assert (Hb' : @len ref (seq (S rootRef) (length offs)) < 2 ^ 64 - 1) by (by rewrite Hlen).
    pose proof (shifted_last_slot_empty _ _ Hs Hb') as Hl. by rewrite Hlen in Hl. }
  split; [exact Hlast |].
  unfold marshal, numChildren. rewrite Hh. change (0 =? 0) with true. cbv iota.
  rewrite Hsz, length_seq.
  destruct offs as [| off0 offs'] eqn:Eo; [done |]. rewrite <- Eo in *.
  assert (Hk : length offs = S (length offs')) by (by rewrite Eo).
  rewrite Hk, upto_succ.
  rewrite (mapM_app_panic _ _ _ nil_deref); [done | |].
  - apply Forall_forall. intros i Hi. apply elem_of_upto in Hi.
    unfold childOffset. rewrite Hh. change (0 =? 0) with true. cbv iota.
    rewrite Hs.
    destruct (Z.eqb_spec i (2 ^ 64 - 1)) as [-> | Hi2]; [unfold len in Hb; lia |].
    destruct (i <? 0) eqn:E; [lia |].
    replace (i + 1) with (Z.of_nat (S (Z.to_nat i))) by lia.
    rewrite index_of_nat. rewrite lookup_seq_lt by lia.
    destruct (lookup_lt_is_Some_2 offs (S (Z.to_nat i)) ltac:(lia)) as [off Hoff].
    pose proof (Hheap _ off Hoff) as Hobj.
    unfold deref. unfold ref in *. rewrite Hobj. cbn [bind]. eauto.
  - unfold childOffset. rewrite Hh. change (0 =? 0) with true. cbv iota.
    replace (Z.of_nat (length offs')) with (len offs - 1) by (unfold len; lia).
    by rewrite Hlast.
Qed.

End RecoverLeaf.

(** ** Claim C3: the slots after recovery *)

Section RecoveredSlots.
Context {C : Constants} {SR : ShortRead}.

Lemma shifted_not_dense {A : Type} (m : gmap Z A) (l : list A) :
  shifted m l -> l <> [] -> len l < 2 ^ 64 - 1 -> ~ exists l', dense m l'.
Proof.
  intros Hs Hne Hb [l' Hd].
  pose proof (len_nonneg l) as Hn.
  assert (Hl : 0 < len l) by (destruct l; [done | unfold len; simpl; lia]).
  assert (Hfirst : is_Some (m !! (2 ^ 64 - 1))).
  { rewrite Hs, Z.eqb_refl. apply index_lt_Some. lia. }
  assert (Hlast : m !! (len l - 1) = None) by (by apply shifted_last_slot_empty).
  rewrite Hd in Hfirst, Hlast.
  destruct Hfirst as [x Hx]. apply index_Some_lt in Hx.
  destruct (index_lt_Some l' (len l - 1) ltac:(lia)) as [y Hy]. congruence.
Qed.

(** Claim C3.  After [recoverTree] at height zero over a table that is not
    empty, the occupied slots of the recovered root are not a prefix of the
    slot indices: the key of an insertion is the length of the map less
    one before the insertion, so the first page lies under [2^64 - 1]; the
    last of the slots [0 .. n-1] is empty. *)
Theorem C3_recovery_leaves_the_prefix (fuel : nat) (tp : tieredPage)
    (pm : PageManager) (rootOff : Z) (offs : list Z) :
  0 < pageSize -> len offs < 2 ^ 64 - 1 -> 0 <= tp_usedSize tp -> offs <> [] ->
  unmarshalPageTable (file_read (pm_file pm) rootOff pageSize) = Ok offs ->
  exists tp' pm',
    recoverTree (S fuel) tp rootOff 0 pm = Ok (tp', pm') /\
    height (root tp') = 0 /\
    childPages (root tp') !! (2 ^ 64 - 1) = Some (S (pm_nextRef pm)) /\
    childPages (root tp') !! (len offs - 1) = None /\
    ~ dense_prefix (root tp').
Proof.
  intros HPS Hb HU Hne Hdisk.
  unfold recoverTree, new_object.
  set (rootRef := pm_nextRef pm).
  set (pm1 := MkPageManager (pm_file pm) (pm_fileSize pm)
                (<[rootRef := {| fileOff := rootOff; usedSize := pageSize |}]> (pm_heap pm))
                (S rootRef) (recyclePages pm) (freePages pm)).
  set (root0 := PageTable 0 None ∅ ∅ rootRef).
  rewrite recursiveRecovery_leaf.
  assert (Hread : readPageTable (pt_pp root0) pm1 = Ok offs).
  { assert (Hroot : pm_heap pm1 !! rootRef
                    = Some {| fileOff := rootOff; usedSize := pageSize |})
      by (unfold pm1; simpl pm_heap; apply lookup_insert_eq).
    unfold readPageTable. simpl pt_pp.
    rewrite (pp_readAt_ok rootRef _ _ _ pm1 Hroot) by (cbn [usedSize]; lia).
    cbn [bind fileOff].
    replace (pageSize - pageSize) with 0 by lia. simpl replicate.
    rewrite app_nil_r, Z.add_0_r. exact Hdisk. }
  rewrite Hread. cbn [bind].
  destruct (recoverLeafLoop_spec offs root0 [] (tp_usedSize tp) pm1 HPS)
    as (root' & rem' & pm' & Hrun & Hs & Hsz & Hh & Hpp & Hheap & Hframe);
    try done.
  { apply shifted_empty. }
  rewrite Hrun. cbn [bind]. simpl app in *. change (pm_nextRef pm1) with (S rootRef) in *.
  exists (TieredPage root' (tp_pp tp) (tp_usedSize tp) (seq (S rootRef) (length offs))), pm'.
  cbn [root pages]. change (height root0) with 0 in Hh.
  assert (Hlen : @len ref (seq (S rootRef) (length offs)) = len offs).
  { unfold len. by rewrite length_seq. }
  assert (Hne' : seq (S rootRef) (length offs) <> []).
  { destruct offs; [done | discriminate]. }
  split_and!; try done.
  - rewrite Hs, Z.eqb_refl. destruct offs; [done | reflexivity].
  - rewrite <- Hlen. apply shifted_last_slot_empty; [done | by rewrite Hlen].
  - unfold dense_prefix. rewrite Hh. simpl.
    apply (shifted_not_dense _ _ Hs Hne'). by rewrite Hlen.
Qed.

End RecoveredSlots.

(** ** Claim C1: the descent of [insertPage] below a root of height two *)

(** Claim C1.  With three entries per node, [insertPage] at the indices
    0 to 8 of an empty tiered page builds a full tree of height one, and
    at the index 9 it panics: the tree grows to height two, the root takes
    the slot [9 / 9 = 1], and the node of height one below it takes the
    slot [(9 / 3) / 3 = 1] again, where the claim has [(9 / 3) mod 3 = 0];
    [writeToDisk] of that node then meets the empty slot 0. *)
Theorem C1_insertPage_tenth_page_panics :
  exists tp9 pm9,
    insertPages (C := smallConstants) 5 (ep_tp (ep freshEntry)) 0 (seq 4 9)
      (freshManager (C := smallConstants) 14) = Ok (tp9, pm9) /\
    height (root tp9) = 1 /\ size (childTables (root tp9)) = 3%nat /\
    insertPage (C := smallConstants) 5 tp9 9 13%nat pm9 = Panic nil_deref.
Proof.
  eexists _, _. split; [vm_compute; reflexivity |].
  split_and!; vm_compute; reflexivity.
Qed.

Section RecoveredScenario.
#[local] Existing Instance scenarioConstants.
#[local] Existing Instance eofAtEnd.

Lemma C3_witness_leaf_on_disk :
  exists tp' pm',
    recoverTree 1 (TieredPage (PageTable 0 None ∅ ∅ 0%nat) 2%nat 10 []) 12288 0 leafOnDisk
    = Ok (tp', pm') /\
    height (root tp') = 0 /\
    childPages (root tp') !! (2 ^ 64 - 1) = Some 5%nat /\
    childPages (root tp') !! 0 = None /\
    ~ dense_prefix (root tp').
Proof.
  assert (HPS : 0 < pageSize) by reflexivity.
  assert (Hb : len [16384] < 2 ^ 64 - 1) by reflexivity.
  assert (HU : 0 <= tp_usedSize (TieredPage (PageTable 0 None ∅ ∅ 0%nat) 2%nat 10 []))
    by (simpl; lia).
  assert (Hne : [16384] <> []) by discriminate.
  assert (Hdisk : unmarshalPageTable (file_read (pm_file leafOnDisk) 12288 pageSize)
                  = Ok [16384]) by (vm_compute; reflexivity).
  exact (C3_recovery_leaves_the_prefix 0 _ leafOnDisk 12288 [16384] HPS Hb HU Hne Hdisk).
Defined.

End RecoveredScenario.

(** ** Truncate of an entry under a leaf root *)

Section TruncateEntry.
Context {C : Constants} {SR : ShortRead}.

Lemma recursiveTruncate_leaf_root (size' : Z) (tp : tieredPage) (pm : PageManager)
    (fuel : nat) :
  height (root tp) = 0 -> dense (childPages (root tp)) (pages tp) ->
  Forall (allocated pm) (pages tp) -> len (pages tp) < 2 ^ 64 ->
  (pages tp <> [] \/ tp_usedSize tp <= size') ->
  (length (pages tp) + 2 < fuel)%nat ->
  exists m' b,
    let '(U', n, s) := cut size' (tp_usedSize tp) (rev (map (used pm) (pages tp))) in
    let k := (length (pages tp) - n)%nat in
    dense m' (take k (pages tp)) /\
    recursiveTruncate fuel tp (root tp) size' pm
    = Ok (b, rev (drop k (pages tp)), set_childPages m' (root tp),
          TieredPage (root tp) (tp_pp tp) U' (take k (pages tp)),
          shrunk s (take k (pages tp)) pm).
Proof.
  intros Hh Hd Hall Hlen Hne Hfuel.
  destruct fuel as [| fuel]; [lia |].
  cbn [recursiveTruncate]. rewrite Hh.
  change (0 >? 0) with false. change (0 =? 0) with true. cbv iota.
  rewrite (dense_size _ _ Hd). fold (len (pages tp)).
  destruct (truncatePages_spec size' (pages tp) fuel (root tp) tp pm [] [])
    as (m' & Hm' & Hrun); try done; [lia |].
  rewrite Hrun. clear Hrun.
  destruct (cut size' (tp_usedSize tp) (rev (map (used pm) (pages tp)))) as [[U' n] s].
  simpl in Hm'. eexists m', _. split; [exact Hm' |]. reflexivity.
Qed.

Lemma defrag_leaf (fuel : nat) (tp : tieredPage) (pm pm' : PageManager) (pg : physicalPage) :
  height (root tp) = 0 -> pm_heap pm !! pt_pp (root tp) = Some pg ->
  writeTieredPageEntry (tp_pp tp) 0 (tp_usedSize tp) (fileOff pg) pm = Ok pm' ->
  defrag (S fuel) tp pm = Ok ([], tp, pm').
Proof.
  intros Hh Hpg Hw. unfold defrag, deref. rewrite Hpg. cbn [bind]. rewrite Hh, Hw.
  cbn [bind defragLoop]. rewrite Hh. reflexivity.
Qed.

Lemma used_shrunk_other (s : option Z) (kept : list ref) (pm : PageManager) (r : ref) :
  r ∉ kept -> used (shrunk s kept pm) r = used pm r.
Proof.
  intros Hr. unfold shrunk. destruct s as [v |]; [| done].
  destruct (last kept) as [r0 |] eqn:E; [| done].
  apply used_set_usedSize_ne. intros ->. apply Hr.
  apply last_Some in E as [l' ->]. apply elem_of_app. right. by left.
Qed.

(** X10.  [Truncate] of an entry under a leaf root, with room for its pages
    in a recycler whose root is a leaf too: the entry keeps a prefix of its
    pages and [min usedSize size] bytes, its tree stays well formed, and the
    pages cut off join the recycler, the last page first. *)
Theorem X10_Truncate_hands_the_pages_to_the_recycler (N P : ref -> Prop) (e : Entry)
    (pm : PageManager) (size' : Z) :
  let tp := ep_tp (ep e) in
  let rp := freePages pm in
  0 < pageSize -> 0 < numPageEntries < 2 ^ 64 ->
  wf_root N P (root tp) (pages tp) -> height (root tp) = 0 -> N (tp_pp tp) ->
  tp_usedSize tp = sum_used pm (pages tp) -> 0 <= tp_usedSize tp < 2 ^ 55 ->
  wf_recycler N P rp pm -> height (root (rp_tp rp)) = 0 ->
  NoDup (pages (rp_tp rp) ++ pages tp) ->
  len (pages (rp_tp rp)) + len (pages tp) <= numPageEntries ->
  (len (pages (rp_tp rp)) + len (pages tp)) * pageSize < 2 ^ 55 ->
  0 <= size' ->
  exists fuel0 k e' pm',
    (forall fuel, (fuel0 <= fuel)%nat -> Truncate fuel e size' pm = Ok (e', pm')) /\
    entry_pages e' = take k (pages tp) /\
    tp_usedSize (ep_tp (ep e')) = Z.min (tp_usedSize tp) size' /\
    wf_root N P (root (ep_tp (ep e'))) (entry_pages e') /\
    pages (rp_tp (freePages pm')) = pages (rp_tp rp) ++ rev (drop k (pages tp)) /\
    wf_recycler N P (freePages pm') pm'.
Proof.
  intros tp rp HPS [HF0 HF] Hwf Hh HNd HU HUb Hrec Hhr Hnd Hroom Hbound Hs.
  pose proof Hrec as (HNP & Hwfr & Hok & HNrd & Hndr & Hfull & Hrsize & Hrb).
  pose proof Hok as (Henc & HNa & HPa).
  pose proof (wf_root_leaf_inv N P HF0 _ _ Hh Hwf) as (Hd & HNroot & HPs & Hlen).
  assert (Hall : Forall (allocated pm) (pages tp)).
  { eapply Forall_impl; [exact HPs | done]. }
  assert (Hne : pages tp <> [] \/ tp_usedSize tp <= size').
  { destruct (pages tp) eqn:E; [right | by left]. rewrite HU. simpl. lia. }
  set (f1 := (length (pages tp) + 3)%nat).
  destruct (recursiveTruncate_leaf_root size' tp pm f1 Hh Hd Hall ltac:(lia) Hne ltac:(lia))
    as (m' & b & Hcut).
  pose proof (cut_min size' (rev (map (used pm) (pages tp))) (tp_usedSize tp) Hs) as Hmin.
  rewrite <- sum_used_rev in Hmin. specialize (Hmin HU).
  pose proof (cut_count_le size' (rev (map (used pm) (pages tp))) (tp_usedSize tp)) as Hle.
  rewrite length_rev, length_map in Hle.
  destruct (cut size' (tp_usedSize tp) (rev (map (used pm) (pages tp)))) as [[U' n] s].
  simpl in Hmin, Hle. destruct Hcut as (Hm' & Hrun).
  set (k := (length (pages tp) - n)%nat) in *.
  set (kept := take k (pages tp)) in *.
  set (pm1 := shrunk s kept pm) in *.
  set (root1 := set_childPages m' (root tp)) in *.
  set (tp2 := set_root root1 (TieredPage (root tp) (tp_pp tp) U' kept)).
  assert (Hso1 : same_offsets pm pm1) by apply same_offsets_shrunk.
  assert (Hok1 : heap_ok N P pm1) by (by apply (heap_ok_same N P pm)).
  pose proof Hok1 as (Henc1 & HNa1 & HPa1).
  (* defrag *)
  destruct (HNa1 _ HNroot) as [rpg Hrpg].
  destruct (writeTieredPageEntry_ok pm1 (tp_pp tp) 0 U' (fileOff rpg))
    as (pm2 & Hw2 & Hso2 & Hoth2 & _ & _ & _ & Hfp2);
    [by apply HNa1 | lia | by eapply Henc1 |].
  assert (Hdefrag : forall fuel, defrag (S fuel) tp2 pm1 = Ok ([], tp2, pm2)).
  { intros fuel. by apply (defrag_leaf fuel tp2 pm1 pm2 rpg). }
  (* the recycler takes the pages *)
  assert (Hfp : freePages pm2 = rp).
  { rewrite Hfp2. unfold pm1, shrunk. destruct s; [| done]. by destruct (last kept). }
  assert (Hkept : forall r, r ∈ kept -> r ∈ pages tp).
  { intros r Hr. unfold kept in Hr. eapply elem_of_sublist; [exact Hr | apply sublist_take]. }
  assert (Hused2 : forall r, r ∈ pages (rp_tp rp) -> used pm2 r = used pm r).
  { intros r Hr.
    assert (HPr : P r).
    { apply (wf_root_leaf_inv N P HF0 _ _ Hhr) in Hwfr as (_ & _ & HPr & _).
      rewrite Forall_forall in HPr. by apply HPr. }
    transitivity (used pm1 r).
    - unfold used. rewrite Hoth2; [done |]. intros ->. by apply (HNP _ HNd).
    - apply used_shrunk_other. intros Hin. apply NoDup_app in Hnd as (_ & Hdis & _).
      apply (Hdis r Hr). by apply Hkept. }
  assert (Hrec2 : wf_recycler N P (freePages pm2) pm2).
  { rewrite Hfp. unfold wf_recycler. split_and!; try done.
    - by apply (heap_ok_same N P pm1).
    - rewrite Forall_forall in Hfull |- *. intros r Hr. rewrite (Hused2 r Hr). by apply Hfull. }
  set (new := rev (drop k (pages tp))).
  assert (Hnew_in : forall r, r ∈ new -> r ∈ pages tp).
  { intros r Hr. unfold new in Hr. rewrite <- (Permutation_rev (drop k (pages tp))) in Hr.
    eapply elem_of_sublist; [exact Hr | apply sublist_drop]. }
  assert (Hnew_len : len new <= len (pages tp)).
  { unfold new, len. rewrite length_rev, length_drop. lia. }
  destruct (rp_addPages_leaf N P HPS HF0 HF pm2 new Hrec2)
    as (pm3 & Hrun3 & Hrec3 & _ & _ & Hpages3).
  { by rewrite Hfp. }
  { rewrite Forall_forall in HPs |- *. intros r Hr. by apply HPs, Hnew_in. }
  { rewrite Hfp. unfold new. rewrite <- (Permutation_rev (drop k (pages tp))).
    eapply sublist_NoDup; [exact Hnd |]. apply sublist_app; [done | apply sublist_drop]. }
  { rewrite Hfp. lia. }
  { rewrite Hfp. nia. }
  rewrite Hfp in Hpages3.
  exists f1, k, (set_entry_tp tp2 e), pm3. split_and!; try done.
  - intros fuel Hfuel. unfold Truncate. fold tp.
    rewrite (recursiveTruncate_mono f1 fuel _ _ _ _ _ Hfuel Hrun). cbn [bind].
    fold root1. fold tp2.
    destruct fuel as [| fuel]; [unfold f1 in Hfuel; lia |].
    rewrite Hdefrag. cbn [bind]. rewrite app_nil_r. fold new. by rewrite Hrun3.
  - apply (wf_root_leaf_intro N P); try done.
    + change (entry_pages (set_entry_tp tp2 e)) with kept.
      unfold len, kept. rewrite length_take. unfold len in Hlen. lia.
    + change (entry_pages (set_entry_tp tp2 e)) with kept.
      rewrite Forall_forall in HPs |- *. intros r Hr. by apply HPs, Hkept.
Qed.

End TruncateEntry.

(** ** Reading across a page boundary *)

Section ReadAcross.
Context {C : Constants} {SR : ShortRead}.

(** X11.  A [read] of at most a page that starts in a full page and needs
    bytes of the next page, which holds at least [len(p)] bytes, never
    returns the bytes.  When [readAt] reports the end of the first page as
    a short read, [read] returns [(0, io.EOF)] with the buffer untouched.
    Otherwise [readData] keeps the length of [p] in the second round, so
    the next page fills it entirely, and the copy into
    [p[copyDest : copyDest + bytesRead]] passes the end of [p], whose
    capacity is taken to be its length: [read] panics. *)
Theorem X11_read_across_two_pages_returns_no_bytes (fuel : nat) (e : Entry)
    (pm : PageManager) (p : list Z) (cp co : Z) (r1 r2 : ref) :
  0 < pageSize -> len (entry_pages e) * pageSize < 2 ^ 63 ->
  index (entry_pages e) cp = Some r1 -> index (entry_pages e) (cp + 1) = Some r2 ->
  used pm r1 = pageSize -> len p <= used pm r2 ->
  0 <= co < pageSize -> pageSize - co < len p -> len p <= pageSize ->
  read (S (S fuel)) e p cp co pm
  = if shortRead (len p) co (pageSize - co)
    then Ok (MkReadResult 0 (Some EOF) p cp co)
    else Panic slice_out_of_range.
Proof.
  intros HPS Hb Hi1 Hi2 Hu1 Hu2 Hco Hcross Hfit.
  unfold used in Hu1, Hu2.
  destruct (pm_heap pm !! r1) as [pg1 |] eqn:Hpg1; [| lia].
  destruct (pm_heap pm !! r2) as [pg2 |] eqn:Hpg2; [| lia].
  pose proof (index_Some_lt _ _ _ Hi1) as Hcp1.
  pose proof (index_Some_lt _ _ _ Hi2) as Hcp2.
  unfold read.
  assert (E0 : (len (entry_pages e) =? 0) = false) by lia. rewrite E0.
  set (n1 := pageSize - co).
  assert (Hlr : len (replicate (length p) 0) = len p).
  { unfold len. by rewrite length_replicate. }
  (* the first round: to the end of the first page *)
  cbn [read_loop].
  assert (E1 : (len p >? 0) && negb (cp >=? len (entry_pages e)) = true).
  { apply andb_true_iff. split; [lia |]. apply negb_true_iff. lia. }
  rewrite E1, Hi1. rewrite Hlr. rewrite (pp_readAt_at r1 pg1 _ _ pm Hpg1). cbv zeta.
  replace (Z.max 0 (Z.min (len p) (Z.min pageSize (usedSize pg1) - co))) with n1
    by (unfold n1; lia).
  destruct (shortRead (len p) co n1) eqn:Hshort; [reflexivity |].
  rewrite seek_inside by (unfold n1; lia).
  assert (E2 : (co + n1 <? pageSize) = false) by (unfold n1; lia). rewrite E2.
  assert (E3 : (cp + 1 <? len (entry_pages e)) = true) by lia. rewrite E3.
  assert (E4 : (0 + n1 >? len p) = false) by (unfold n1; lia). rewrite E4.
  set (data1 := file_read (pm_file pm) (fileOff pg1 + co) n1).
  set (readData1 := data1 ++ drop (Z.to_nat n1) (replicate (length p) 0)).
  set (p1 := take (Z.to_nat 0) p ++ take (Z.to_nat n1) readData1
             ++ drop (Z.to_nat (0 + n1)) p).
  assert (Hld : length data1 = Z.to_nat n1) by apply length_file_read.
  assert (Hlr1 : len readData1 = len p).
  { unfold len, readData1. rewrite length_app, length_drop, length_replicate, Hld.
    unfold len in *. unfold n1 in *. lia. }
  assert (Hlp1 : len p1 = len p).
  { unfold len, p1. rewrite !length_app, !length_take, length_drop.
    fold (len readData1). unfold len in *. unfold n1 in *. lia. }
  (* the second round: the next page fills the whole buffer *)
  cbn [read_loop].
  assert (E5 : (len p - n1 >? 0) && negb (cp + 1 >=? len (entry_pages e)) = true).
  { apply andb_true_iff. split; [unfold n1; lia |]. apply negb_true_iff. lia. }
  rewrite E5, Hi2. rewrite Hlr1.
  rewrite (pp_readAt_ok r2 pg2 _ _ pm Hpg2) by lia.
  rewrite seek_inside by lia.
  rewrite Hlp1.
  assert (E6 : (0 + n1 + len p >? len p) = true) by (unfold n1; lia).
  rewrite E6. by repeat case_match.
Qed.

End ReadAcross.

(** ** The tree grows from a full leaf *)

Section GrowLeaf.
Context {C : Constants} {SR : ShortRead}.

(** X12.  [insertPage] at index [numPageEntries] into a tree that is one
    full leaf: [extendPageTableTree] puts a new root of height one over the
    leaf, which becomes its child at slot 0 with the new root as parent;
    [newPageTable] adds a second leaf at slot 1, and the page goes to
    slot 0 of that leaf.  The tree is well formed again, with the two new
    node pages taken at the end of the file. *)
Theorem X12_insertPage_grows_a_full_leaf (N P : ref -> Prop) (fuel : nat)
    (tp : tieredPage) (pm : PageManager) (pp : ref) (ps : list ref) :
  let rootRef := pm_nextRef pm in
  let leafRef := S (pm_nextRef pm) in
  let N' := fun r => N r \/ r = rootRef \/ r = leafRef in
  2 <= numPageEntries < 2 ^ 64 -> 0 <= pageSize ->
  wf_root N P (root tp) ps -> height (root tp) = 0 -> parent (root tp) = None ->
  len ps = numPageEntries -> P pp ->
  heap_ok N P pm -> availablePages (freePages pm) = 0 ->
  0 <= pm_fileSize pm -> pm_fileSize pm + pageSize < 2 ^ 55 ->
  exists root' pm',
    insertPage (S (S fuel)) tp numPageEntries pp pm = Ok (set_root root' tp, pm') /\
    wf_node N' P 1 root' (ps ++ [pp]) /\
    parent root' = None /\ pt_pp root' = rootRef /\
    (exists old leaf, childTables root' !! 0 = Some old /\ childTables root' !! 1 = Some leaf /\
       pt_pp old = pt_pp (root tp) /\ parent old = Some rootRef /\
       childPages old = childPages (root tp) /\
       pt_pp leaf = leafRef /\ parent leaf = Some rootRef /\
       childPages leaf = {[0 := pp]}) /\
    pm_fileSize pm' = pm_fileSize pm + 2 * pageSize.
Proof.
  intros rootRef leafRef N' [HF HF64] HPS Hwf Hh Hpar Hfull HPpp Hok Hav Hfs0 Hfs1.
  assert (HF0 : 0 < numPageEntries) by lia.
  pose proof Hok as (Henc & HNa & HPa).
  pose proof (wf_root_leaf_inv N P HF0 _ _ Hh Hwf) as (Hd & HNroot & HPs & _).
  assert (Hne : ps <> []).
  { intros ->. change (len (@nil ref)) with 0 in Hfull. lia. }
  (* the first loop: a new root over the leaf *)
  set (old := set_parent (Some rootRef) (root tp)).
  set (root1 := PageTable 1 None {[0 := old]} ∅ rootRef).
  set (pm1 := grown pm).
  assert (Hext : insertPage_extend (S (S fuel)) tp numPageEntries pm
                 = Ok (set_root root1 tp, pm1)).
  { cbn [insertPage_extend]. rewrite Hh, maxPages_0 by done.
    assert (E1 : (numPageEntries >=? numPageEntries) = true) by lia. rewrite E1.
    unfold extendPageTableTree. rewrite Hpar. unfold newPageTable.
    rewrite allocatePage_grown by done. cbn [bind]. rewrite Hh.
    unfold set_root, set_childTables. cbn [height root childTables pt_pp parent childPages].
    change (0 + 1) with 1. rewrite maxPages_1.
    assert (E2 : (numPageEntries >=? numPageEntries * numPageEntries) = false) by nia.
    rewrite E2. reflexivity. }
  assert (Henc1 : encodable pm1) by (apply grown_encodable; [done | lia]).
  (* the second loop at the root: a new leaf at slot 1 *)
  assert (Hq1 : Z.quot numPageEntries (maxPages (1 - 1)) = 1).
  { change (1 - 1) with 0. rewrite maxPages_0 by done. apply Z.quot_same. lia. }
  set (leaf0 := PageTable (1 - 1) (Some (pt_pp root1)) ∅ ∅ (pm_nextRef pm1)).
  set (root2 := set_childTables (<[1 := leaf0]> (childTables root1)) root1).
  set (pm2 := grown pm1).
  assert (Henc2 : encodable pm2).
  { apply grown_encodable; [done |]. simpl. lia. }
  assert (Ha2 : forall r, allocated pm r -> allocated pm2 r).
  { intros r Hr. by do 2 apply grown_allocated. }
  destruct (writeToDisk_ok pm2 root2)
    as (pm3 & Hw3 & Hso3 & Hoth3 & Hnr3 & Hfs3 & Hrc3 & Hfp3); try done.
  { apply grown_allocated. apply grown_allocated_new. }
  { intros _. exists [old; leaf0]. split.
    - exact (dense_insert_last _ [old] leaf0 (dense_insert_last ∅ [] old dense_empty)).
    - repeat constructor; [by apply Ha2, HNa | apply grown_allocated_new]. }
  assert (Henc3 : encodable pm3) by (by apply (same_offsets_encodable pm2)).
  (* in the new leaf: the page at slot 0 *)
  set (leaf1 := set_childPages (<[0 := pp]> (childPages leaf0)) leaf0).
  destruct (writeToDisk_ok pm3 leaf1)
    as (pm4 & Hw4 & Hso4 & Hoth4 & Hnr4 & Hfs4 & Hrc4 & Hfp4); try done.
  { apply (same_offsets_allocated pm2); [done |]. apply grown_allocated_new. }
  { intros _. exists [pp]. split.
    - exact (dense_insert_last ∅ [] pp dense_empty).
    - repeat constructor. apply (same_offsets_allocated pm2); [done |]. by apply Ha2, HPa. }
  assert (Hleaf : insertPage_descend (S fuel) leaf0 (Z.quot numPageEntries numPageEntries)
                    numPageEntries pp pm3 = Ok (leaf1, pm4)).
  { cbn [insertPage_descend]. change (height leaf0) with (1 - 1).
    change (1 - 1 >? 0) with false. cbv iota.
    change (childPages leaf0) with (∅ : gmap Z ref). rewrite map_size_empty.
    assert (E1 : (Z.of_nat 0 =? numPageEntries) = false) by (apply Z.eqb_neq; simpl; lia).
    rewrite E1.
    change (0 <? Z.of_nat 0) with false. cbn [andb].
    rewrite Z.rem_same by lia.
    change (set_childPages (<[0:=pp]> ∅) leaf0) with leaf1. by rewrite Hw4. }
  set (root3 := set_childTables (<[1 := leaf1]> (childTables root2)) root2).
  exists root3, pm4. split_and!.
  - unfold insertPage. rewrite Hext. cbn [bind root set_root].
    rewrite (insertPage_descend_new_child (S fuel) root1 numPageEntries numPageEntries
               pp pm1 1);
      [| done | lia | rewrite Hq1; apply lookup_singleton_ne; lia | done].
    cbv zeta. rewrite Hq1. fold leaf0. fold root2. fold pm2.
    rewrite Hw3. cbn [bind]. rewrite Hleaf. reflexivity.
  - (* the tree *)
    assert (HNold : N' (pt_pp old)) by (left; exact HNroot).
    replace (ps ++ [pp]) with (concat [ps; [pp]]) by reflexivity.
    apply (wf_inner N' P 1 root3 [old; leaf1] [ps; [pp]]); try done.
    + right. by left.
    + unfold root3, root2, root1. cbn [childTables set_childTables].
      rewrite insert_insert_eq.
      exact (dense_insert_last _ [old] leaf1 (dense_insert_last ∅ [] old dense_empty)).
    + change (1 - 1) with 0. constructor; [| constructor; [| constructor]].
      * apply wf_leaf; try done. lia.
      * apply wf_leaf; try done.
        -- right. by right.
        -- exact (dense_insert_last ∅ [] pp dense_empty).
        -- change (len [pp]) with 1. lia.
        -- by constructor.
    + simpl removelast. constructor; [| constructor].
      change (1 - 1) with 0. by rewrite maxPages_0.
  - reflexivity.
  - reflexivity.
  - exists old, leaf1. unfold root3, root2, root1. cbn [childTables set_childTables].
    rewrite insert_insert_eq. split_and!; done.
  - rewrite Hfs4, Hfs3. unfold pm2, pm1, grown. simpl. lia.
Qed.

End GrowLeaf.

(** ** Values that do not fit a slot of eight bytes *)

Section LongVarint.
Context {C : Constants} {SR : ShortRead}.
Import Binary.

Lemma uvarint_bytes_long (n : nat) :
  forall (fuel : nat) (x : Z),
  (n < fuel)%nat -> 128 ^ Z.of_nat n <= x -> (n < length (uvarint_bytes fuel x))%nat.
Proof.
  induction n as [| n IH]; intros fuel x Hf Hx.
  - destruct fuel as [| fuel]; [lia |]. simpl. destruct (x >=? 128); simpl; lia.
  - destruct fuel as [| fuel]; [lia |]. simpl.
    rewrite Nat2Z.inj_succ, Z.pow_succ_r in Hx by lia.
    assert (Hp : 0 < 128 ^ Z.of_nat n) by (apply Z.pow_pos_nonneg; lia).
    assert (E : (x >=? 128) = true) by nia. rewrite E. simpl length.
    apply -> Nat.succ_lt_mono. apply IH; [lia |].
    rewrite Z.shiftr_div_pow2 by lia. change (2 ^ 7) with 128.
    apply Z.div_le_lower_bound; lia.
Qed.

Lemma PutVarint_too_long (x : Z) :
  2 ^ 55 <= x < 2 ^ 63 -> PutVarint x = Panic index_out_of_range.
Proof.
  intros Hx. unfold PutVarint. rewrite BinaryFacts.zigzag_nonneg by lia.
  pose proof (uvarint_bytes_long 8 10 (2 * x) ltac:(lia)) as Hl.
  change (128 ^ Z.of_nat 8) with (2 ^ 56) in Hl. specialize (Hl ltac:(lia)).
  assert (E : (len (uvarint_bytes 10 (2 * x)) <=? 8) = false).
  { apply Z.leb_gt. unfold len. lia. }
  by rewrite E.
Qed.

(** X13.  [writeTieredPageEntry] panics when [usedBytes] or [pageOff] is
    [2^55] or more: [binary.PutVarint] then needs a ninth byte, and the slot
    of the entry has eight.  Nothing is written. *)
Theorem X13_writeTieredPageEntry_panics_on_long_values (pm : PageManager) (pp : ref)
    (index usedBytes pageOff : Z) :
  0 <= usedBytes < 2 ^ 63 -> 0 <= pageOff < 2 ^ 63 ->
  2 ^ 55 <= usedBytes \/ 2 ^ 55 <= pageOff ->
  writeTieredPageEntry pp index usedBytes pageOff pm = Panic index_out_of_range.
Proof.
  intros Hu Ho Hlong. unfold writeTieredPageEntry.
  destruct (Z_lt_le_dec usedBytes (2 ^ 55)) as [Hsmall | Hbig].
  - destruct (BinaryFacts.PutVarint_ok usedBytes ltac:(lia)) as (bs & -> & _).
    cbn [bind]. rewrite PutVarint_too_long by lia. done.
  - rewrite PutVarint_too_long by lia. done.
Qed.

End LongVarint.

(** ** defrag on a well-formed tree *)

Section DefragTotal.
Context {C : Constants} {SR : ShortRead}.

(** X14.  On a well-formed tree [defrag] returns without an error, given
    enough fuel.  The pages and the size of the tiered page are as before,
    the tree is well formed over the same pages, no data page changes, and
    the pages handed back to be freed are node pages; a root of height
    zero is left alone. *)
Theorem X14_defrag_keeps_the_pages (N P : ref -> Prop) (tp : tieredPage)
    (pm : PageManager) :
  wf_root N P (root tp) (pages tp) -> heap_ok N P pm ->
  allocated pm (tp_pp tp) -> ~ P (tp_pp tp) -> 0 <= tp_usedSize tp < 2 ^ 55 ->
  exists fuel0 freed tp' pm',
    (forall fuel, (fuel0 <= fuel)%nat -> defrag fuel tp pm = Ok (freed, tp', pm')) /\
    pages tp' = pages tp /\ tp_usedSize tp' = tp_usedSize tp /\
    wf_root N P (root tp') (pages tp') /\
    same_on P pm pm' /\ Forall N freed /\
    (height (root tp) = 0 -> freed = [] /\ tp' = tp).
Proof.
  intros Hwf Hok Ha HnP HU.
  destruct (defrag_ok N P tp pm (pages tp) Hwf Hok Ha HnP HU)
    as (fuel0 & freed & tp' & pm' & Hrun & Hp & Hu & _ & Hwf' & _ & Hon & Hleaf & HN).
  exists fuel0, freed, tp', pm'. split_and!; try done; [| by rewrite Hp].
  intros fuel Hfuel. unfold defrag in *.
  destruct (deref pm (pt_pp (root tp))) as [pg | | |]; cbn [bind] in *; try discriminate.
  destruct (writeTieredPageEntry _ _ _ _ pm) as [pm1 | | |]; cbn [bind] in *;
    try discriminate.
  rewrite (defragLoop_mono fuel0 fuel); [done | done |]. by rewrite Hrun.
Qed.

End DefragTotal.

(** ** Inserting into a tree of height one *)

Section InsertHeightOne.
Context {C : Constants} {SR : ShortRead}.

Lemma insertPage_descend_existing_child (fuel : nat) (pt : pageTable) (pageIndex index : Z)
    (pp : ref) (pm : PageManager) (h : Z) (child : pageTable) :
  height pt = h -> 0 < h ->
  childTables pt !! Z.quot pageIndex (maxPages (h - 1)) = Some child ->
  insertPage_descend (S fuel) pt pageIndex index pp pm
  = (let ti := Z.quot pageIndex (maxPages (h - 1)) in
     let! (child', pm2) :=
       insertPage_descend fuel child (Z.quot pageIndex numPageEntries) index pp pm in
     Ok (set_childTables (<[ti := child']> (childTables pt)) pt, pm2)).
Proof.
  intros Hh Hpos Hsome. cbn [insertPage_descend]. rewrite Hh.
  assert (E : (h >? 0) = true) by lia. rewrite E. rewrite Hsome. cbn [bind].
  by rewrite Hsome.
Qed.

(** The end of the second loop of [insertPage]: the leaf takes the page at
    the slot behind its last one. *)
Lemma insertPage_descend_leaf (fuel : nat) (leaf : pageTable) (pl : list ref)
    (pageIndex index : Z) (pp : ref) (pm : PageManager) :
  0 < numPageEntries < 2 ^ 64 ->
  height leaf = 0 -> dense (childPages leaf) pl -> len pl < numPageEntries ->
  Z.rem index numPageEntries = len pl ->
  encodable pm -> allocated pm (pt_pp leaf) -> Forall (allocated pm) pl -> allocated pm pp ->
  exists pm',
    insertPage_descend (S fuel) leaf pageIndex index pp pm
    = Ok (set_childPages (<[len pl := pp]> (childPages leaf)) leaf, pm') /\
    same_offsets pm pm' /\
    (forall r, r <> pt_pp leaf -> pm_heap pm' !! r = pm_heap pm !! r) /\
    pm_fileSize pm' = pm_fileSize pm /\ freePages pm' = freePages pm.
Proof.
  intros [HF0 HF] Hh Hd Hroom Hrem Henc Ha Hall Hpp.
  pose proof (len_nonneg pl) as Hn0.
  set (leaf' := set_childPages (<[len pl := pp]> (childPages leaf)) leaf).
  destruct (writeToDisk_ok pm leaf') as (pm' & Hw & Hso & Hoth & _ & Hfs & _ & Hfp);
    try done.
  { intros _. exists (pl ++ [pp]). split.
    - unfold leaf'. simpl. by apply dense_insert_last.
    - apply Forall_app. split; [done | by constructor]. }
  exists pm'. split_and!; try done.
  cbn [insertPage_descend]. rewrite Hh. change (0 >? 0) with false. cbv iota.
  rewrite (dense_size _ _ Hd). fold (len pl).
  assert (E2 : (len pl =? numPageEntries) = false) by lia. rewrite E2, Hrem.
  assert (E3 : (0 <? len pl)
               && negb (bool_decide (is_Some (childPages leaf !! wrap_uint64 (len pl - 1))))
               = false).
  { destruct (0 <? len pl) eqn:E0; [| done]. zbool. simpl.
    rewrite wrap_uint64_small by lia. rewrite Hd.
    rewrite bool_decide_eq_true_2; [done |]. apply index_lt_Some. lia. }
  rewrite E3. fold leaf'. by rewrite Hw.
Qed.

Lemma len_concat_full (pss : list (list ref)) (k : Z) :
  Forall (fun ps => len ps = k) pss -> len (concat pss) = len pss * k.
Proof.
  induction 1 as [| ps pss Hps _ IH]; [done |].
  simpl concat. rewrite len_app, IH, Hps. unfold len. simpl length. lia.
Qed.

Lemma wf_leaf_more_nodes (N N' P : ref -> Prop) (c : pageTable) (pl : list ref) :
  (forall r, N r -> N' r) -> wf_node N P 0 c pl -> wf_node N' P 0 c pl.
Proof.
  intros HN Hwf. apply wf_node_leaf_inv in Hwf as (Hh & HNc & Hd & Hne & Hl & HP).
  apply wf_leaf; try done. by apply HN.
Qed.

(** X15.  [insertPage] at the next index of a well-formed tree of height
    one that is not full puts the page behind the last one: into the last
    leaf while that has room, and else into a new leaf at the next slot of
    the root, whose page is taken at the end of the file.  The tree is well
    formed over the pages with the new one at the end. *)
Theorem X15_insertPage_appends_at_height_one (N P : ref -> Prop) (fuel : nat)
    (tp : tieredPage) (pm : PageManager) (pp : ref) (ps : list ref) :
  let N' := fun r => N r \/ r = pm_nextRef pm in
  2 <= numPageEntries < 2 ^ 64 -> 0 <= pageSize ->
  wf_node N P 1 (root tp) ps -> len ps < numPageEntries * numPageEntries ->
  P pp -> heap_ok N P pm -> availablePages (freePages pm) = 0 ->
  0 <= pm_fileSize pm < 2 ^ 55 ->
  exists root' pm',
    insertPage (S (S fuel)) tp (len ps) pp pm = Ok (set_root root' tp, pm') /\
    wf_node N' P 1 root' (ps ++ [pp]) /\
    pt_pp root' = pt_pp (root tp) /\ parent root' = parent (root tp).
Proof.
  intros N' [HF HF64] HPS Hwf Hlen HPpp Hok Hav Hfs.
  assert (HF0 : 0 < numPageEntries) by lia.
  pose proof Hok as (Henc & HNa & HPa).
  assert (H00 : 0 <= 0) by lia.
  apply (wf_node_inner_inv N P 0 _ _ H00) in Hwf
    as (cs & pss & Hps & Hh & HNroot & Hd & Hne & Hlcs & Hall & Hfull).
  change (0 + 1) with 1 in Hh. rewrite maxPages_0 in Hfull by done.
  assert (HN' : forall r, N r -> N' r) by (intros r Hr; by left).
  (* the last leaf *)
  destruct cs as [| c0 cs0'] using rev_ind; [done |]. clear IHcs0'.
  rename cs0' into cs0. rename c0 into c.
  apply Forall2_app_inv_l in Hall as (pss0 & pss1 & Hall0 & Hall1 & ->).
  inversion Hall1 as [| c' pl l1 l2 Hwfc Hnil]; subst. inversion Hnil; subst.
  rewrite removelast_snoc in Hfull.
  pose proof (wf_node_leaf_inv N P c pl Hwfc) as (Hhc & HNc & Hdc & Hnec & Hlc & HPc).
  assert (Hl0 : len pss0 = len cs0).
  { unfold len. f_equal. symmetry. by eapply Forall2_length. }
  assert (Hn : len (concat (pss0 ++ [pl])) = len cs0 * numPageEntries + len pl).
  { rewrite concat_app, len_app. simpl concat. rewrite app_nil_r.
    rewrite (len_concat_full pss0 numPageEntries Hfull), Hl0. done. }
  pose proof (len_nonneg cs0) as Hc0. pose proof (len_nonneg pl) as Hp0.
  assert (Hpl : 0 < len pl).
  { unfold len. destruct pl; [done | simpl; lia]. }
  assert (HNcs : Forall (fun c => N (pt_pp c)) (cs0 ++ [c])).
  { apply Forall_app. split; [| by constructor].
    clear -Hall0. induction Hall0 as [| x y l k Hxy _ IH]; constructor; [| done].
    by apply wf_node_height_nonneg in Hxy as (_ & _ & ?). }
  set (n := len (concat (pss0 ++ [pl]))) in *.
  assert (Hext : insertPage_extend (S (S fuel)) tp n pm = Ok (tp, pm)).
  { cbn [insertPage_extend]. rewrite Hh, maxPages_1.
    assert (E : (n >=? numPageEntries * numPageEntries) = false) by lia. by rewrite E. }
  unfold insertPage. rewrite Hext. cbn [bind].
  assert (Hall0' : Forall2 (wf_node N' P 0) cs0 pss0).
  { eapply Forall2_impl; [exact Hall0 |]. intros x y. by apply wf_leaf_more_nodes. }
  destruct (Z_lt_le_dec (len pl) numPageEntries) as [Hroom | Hfullpl].
  - (* the last leaf has room *)
    assert (Hq : Z.quot n (maxPages (1 - 1)) = len cs0).
    { change (1 - 1) with 0. rewrite maxPages_0 by done.
      rewrite Z.quot_div_nonneg by lia. rewrite Hn.
      rewrite Z.div_add_l by lia. rewrite Z.div_small by lia. lia. }
    assert (Hr : Z.rem n numPageEntries = len pl).
    { rewrite Z.rem_mod_nonneg by lia. rewrite Hn.
      rewrite Z.add_comm, Z.mod_add by lia. apply Z.mod_small. lia. }
    destruct (insertPage_descend_leaf fuel c pl (Z.quot n numPageEntries) n pp pm)
      as (pm' & Hrun & Hso & Hoth & Hfs' & Hfp'); try done.
    { by apply HNa. }
    { eapply Forall_impl; [exact HPc | done]. }
    { by apply HPa. }
    set (c' := set_childPages (<[len pl := pp]> (childPages c)) c) in *.
    exists (set_childTables (<[len cs0 := c']> (childTables (root tp))) (root tp)), pm'.
    split_and!; try done.
    + rewrite (insertPage_descend_existing_child (S fuel) (root tp) n n pp pm 1 c);
        [| done | lia | rewrite Hq; by apply dense_lookup_last].
      cbv zeta. rewrite Hq, Hrun. reflexivity.
    + replace (concat (pss0 ++ [pl]) ++ [pp]) with (concat (pss0 ++ [pl ++ [pp]])).
      2:{ rewrite !concat_app. simpl concat. rewrite !app_nil_r. by rewrite app_assoc. }
      apply (wf_inner N' P 1 _ (cs0 ++ [c']) (pss0 ++ [pl ++ [pp]])); try done.
      * by apply HN'.
      * simpl. by eapply dense_replace_last.
      * by destruct cs0.
      * rewrite len_app in *. exact Hlcs.
      * change (1 - 1) with 0. apply Forall2_app; [done |].
        constructor; [| constructor]. apply wf_leaf; try done.
        -- by apply HN'.
        -- unfold c'. simpl. by apply dense_insert_last.
        -- by destruct pl.
        -- rewrite len_app. change (len [pp]) with 1. lia.
        -- apply Forall_app. split; [done | by constructor].
      * rewrite removelast_snoc. change (1 - 1) with 0. by rewrite maxPages_0.
  - (* the last leaf is full: a new leaf *)
    assert (Hlpl : len pl = numPageEntries) by lia.
    assert (Hlcs' : len (cs0 ++ [c]) = len cs0 + 1) by (rewrite len_app; done).
    assert (Hn' : n = len (cs0 ++ [c]) * numPageEntries) by lia.
    assert (Hcsroom : len (cs0 ++ [c]) < numPageEntries) by nia.
    assert (Hq : Z.quot n (maxPages (1 - 1)) = len (cs0 ++ [c])).
    { change (1 - 1) with 0. rewrite maxPages_0 by done. rewrite Hn'.
      apply Z.quot_mul. lia. }
    assert (Hr : Z.rem n numPageEntries = len (@nil ref)).
    { rewrite Hn'. change (len (@nil ref)) with 0. apply Z.rem_mul. lia. }
    set (leaf0 := PageTable (1 - 1) (Some (pt_pp (root tp))) ∅ ∅ (pm_nextRef pm)).
    set (root2 := set_childTables (<[len (cs0 ++ [c]) := leaf0]> (childTables (root tp)))
                    (root tp)).
    set (pm1 := grown pm).
    assert (Henc1 : encodable pm1) by (by apply grown_encodable).
    destruct (writeToDisk_ok pm1 root2)
      as (pm2 & Hw2 & Hso2 & Hoth2 & _ & Hfs2 & _ & Hfp2); try done.
    { by apply grown_allocated, HNa. }
    { intros Habs. simpl in Habs. lia. }
    { intros _. exists ((cs0 ++ [c]) ++ [leaf0]). split.
      - unfold root2. simpl. by apply dense_insert_last.
      - apply Forall_app. split.
        + eapply Forall_impl; [exact HNcs |]. intros x Hx. by apply grown_allocated, HNa.
        + constructor; [apply grown_allocated_new | done]. }
    destruct (insertPage_descend_leaf fuel leaf0 [] (Z.quot n numPageEntries) n pp pm2)
      as (pm3 & Hrun & Hso3 & Hoth3 & Hfs3 & Hfp3); try done.
    { apply dense_empty. }
    { by apply (same_offsets_encodable pm1). }
    { apply (same_offsets_allocated pm1); [done |]. apply grown_allocated_new. }
    { apply (same_offsets_allocated pm1); [done |]. by apply grown_allocated, HPa. }
    change (len (@nil ref)) with 0 in Hrun.
    set (leaf1 := set_childPages (<[0 := pp]> (childPages leaf0)) leaf0) in *.
    exists (set_childTables (<[len (cs0 ++ [c]) := leaf1]> (childTables root2)) root2), pm3.
    split_and!; try done.
    + rewrite (insertPage_descend_new_child (S fuel) (root tp) n n pp pm 1);
        [| done | lia | rewrite Hq; by apply (dense_lookup_ge _ (cs0 ++ [c])); [| lia] | done].
      cbv zeta. rewrite Hq. fold leaf0. fold root2. fold pm1.
      rewrite Hw2. cbn [bind]. rewrite Hrun. reflexivity.
    + replace (concat (pss0 ++ [pl]) ++ [pp]) with (concat ((pss0 ++ [pl]) ++ [[pp]])).
      2:{ by rewrite (concat_app (pss0 ++ [pl])). }
      apply (wf_inner N' P 1 _ ((cs0 ++ [c]) ++ [leaf1]) ((pss0 ++ [pl]) ++ [[pp]]));
        try done.
      * by apply HN'.
      * unfold root2. cbn [childTables set_childTables]. rewrite insert_insert_eq.
        by apply dense_insert_last.
      * by destruct (cs0 ++ [c]).
      * rewrite len_app. change (len [leaf1]) with 1. lia.
      * change (1 - 1) with 0. apply Forall2_app; [apply Forall2_app; [done |] |].
        -- constructor; [| constructor]. by apply (wf_leaf_more_nodes N).
        -- constructor; [| constructor]. apply wf_leaf; try done.
           ++ by right.
           ++ exact (dense_insert_last ∅ [] pp dense_empty).
           ++ change (len [pp]) with 1. lia.
           ++ by constructor.
      * rewrite removelast_snoc. change (1 - 1) with 0. rewrite maxPages_0 by done.
        apply Forall_app. split; [done | by constructor].
Qed.

End InsertHeightOne.

(** ** Inserting into a leaf root *)

Section InsertLeafRoot.
Context {C : Constants} {SR : ShortRead}.

(** X16.  [insertPage] at the next index of a tree that is one leaf with
    room puts the page into the slot of that index and writes the leaf; no
    page is allocated, the tree stays one well-formed leaf, and no data
    page changes. *)
Theorem X16_insertPage_appends_to_a_leaf (N P : ref -> Prop) (fuel : nat)
    (tp : tieredPage) (pm : PageManager) (pp : ref) (ps : list ref) :
  (forall r, N r -> P r -> False) -> 0 < numPageEntries < 2 ^ 64 ->
  height (root tp) = 0 -> wf_root N P (root tp) ps -> len ps < numPageEntries ->
  P pp -> heap_ok N P pm ->
  exists root' pm',
    insertPage (S fuel) tp (len ps) pp pm = Ok (set_root root' tp, pm') /\
    wf_root N P root' (ps ++ [pp]) /\ height root' = 0 /\
    childPages root' !! len ps = Some pp /\
    pt_pp root' = pt_pp (root tp) /\
    same_on P pm pm' /\ pm_fileSize pm' = pm_fileSize pm /\
    pm_nextRef pm' = pm_nextRef pm.
Proof.
  intros HNP [HF0 HF] Hh Hwf Hroom HPpp Hok.
  destruct (insertPage_leaf N P HNP HF0 HF tp pm pp ps Hh Hwf Hroom HPpp Hok)
    as (root' & pm' & Hrun & Hwf' & Hh' & Hpp' & _ & Hon & (Hnr & Hfs & _) & _).
  exists root', pm'. split_and!; try done.
  apply (wf_root_leaf_inv N P HF0 _ _ Hh') in Hwf' as (Hd & _).
  by apply dense_lookup_last in Hd.
Qed.

End InsertLeafRoot.

(** ** The further theorems at work on concrete states *)

Section FreshFacts.
Context {C : Constants} {SR : ShortRead}.

Lemma freshManager_inside_file (n : nat) :
  0 <= pageSize -> inside_file (freshManager n).
Proof.
  intros HPS r pg Hpg. simpl in Hpg. apply freshHeap_lookup in Hpg as (Hr & ->).
  simpl. nia.
Qed.

Lemma freshManager_next_not_allocated (n : nat) : ~ allocated (freshManager n) n.
Proof.
  intros [pg Hpg]. simpl in Hpg. apply freshHeap_lookup in Hpg as (Hr & _). lia.
Qed.

End FreshFacts.

Section Scenario2.
#[local] Existing Instance scenarioConstants.
#[local] Existing Instance eofAtEnd.

Lemma onePage_encodable : encodable (onePageManager 5).
Proof. exact (proj1 onePage_heap_ok). Qed.

Lemma onePage_allocated (r : ref) : (r < 5)%nat -> allocated (onePageManager 5) r.
Proof.
  intros Hr. apply (same_offsets_allocated (freshManager 5)).
  - apply same_offsets_set_usedSize.
  - by apply freshManager_allocated.
Qed.

Lemma X1_witness_one_page_leaf :
  exists pm',
    writeToDisk (root (ep_tp (ep onePageEntry)))
      (set_usedSize 3%nat pageSize (onePageManager 5)) = Ok pm' /\
    readPageTable (pt_pp (root (ep_tp (ep onePageEntry)))) pm'
    = Ok (map (offset_of (set_usedSize 3%nat pageSize (onePageManager 5))) [4%nat]).
Proof.
  assert (Hs : same_offsets (onePageManager 5)
                 (set_usedSize 3%nat pageSize (onePageManager 5)))
    by apply same_offsets_set_usedSize.
  apply (X1_writeToDisk_readPageTable_roundtrip
           (set_usedSize 3%nat pageSize (onePageManager 5))
           (root (ep_tp (ep onePageEntry))) [4%nat]).
  - exact (same_offsets_encodable _ _ Hs onePage_encodable).
  - apply (same_offsets_allocated _ _ _ Hs). apply onePage_allocated. simpl. lia.
  - vm_compute. reflexivity.
  - exact (dense_insert_last ∅ [] 4%nat dense_empty).
  - repeat constructor. apply (same_offsets_allocated _ _ _ Hs).
    apply onePage_allocated. lia.
  - vm_compute. discriminate.
  - vm_compute. discriminate.
  - reflexivity.
Defined.

Lemma X2_witness_one_page_leaf :
  len (Binary.PutUint64 1 ++ [128; 128; 2; 0; 0; 0; 0; 0])
  = (numChildren (root (ep_tp (ep onePageEntry))) + 1) * 8
  /\ Size (root (ep_tp (ep onePageEntry)))
     = len (Binary.PutUint64 1 ++ [128; 128; 2; 0; 0; 0; 0; 0]).
Proof.
  apply (X2_marshal_length_is_Size (onePageManager 5)).
  - vm_compute. reflexivity.
  - vm_compute. reflexivity.
Defined.

Lemma X3_witness_first_entry :
  exists pm',
    writeTieredPageEntry 2%nat 0 10 12288 (set_usedSize 2%nat 32 (onePageManager 5))
    = Ok pm' /\
    readEntryPageEntry 2%nat 0 pm' = Ok (10, 12288, None) /\
    (forall j, 0 <= j -> (j + 1) * 16 <= pageSize ->
       (j + 1) * 16 <= used (set_usedSize 2%nat 32 (onePageManager 5)) 2%nat -> j <> 0 ->
       readEntryPageEntry 2%nat j pm'
       = readEntryPageEntry 2%nat j (set_usedSize 2%nat 32 (onePageManager 5))).
Proof.
  apply X3_writeTieredPageEntry_readEntryPageEntry_roundtrip.
  - apply (same_offsets_allocated (onePageManager 5)); [apply same_offsets_set_usedSize |].
    apply onePage_allocated. lia.
  - reflexivity.
  - lia.
  - vm_compute. discriminate.
  - reflexivity.
  - lia.
  - lia.
Defined.

Lemma X4_witness_empty_tall_page :
  insertPage 2 emptyTallPage (numPageEntries * numPageEntries) 4%nat (freshManager 4)
  = Panic nil_deref.
Proof.
  apply X4_insertPage_panics_at_height_two.
  - vm_compute. discriminate.
  - vm_compute. discriminate.
  - reflexivity.
  - reflexivity.
  - reflexivity.
  - apply (freshManager_heap_ok (fun r => (r < 4)%nat) (fun _ => False) 4);
      [vm_compute; discriminate | reflexivity | intros; lia | intros; done].
  - apply freshManager_allocated. simpl. lia.
  - vm_compute. discriminate.
  - reflexivity.
Defined.

Lemma X5_witness_overwrite :
  exists pm',
    WriteAt 2 onePageEntry [1; 2; 3] (0 * pageSize + 2) (onePageManager 5)
    = Ok (len [1; 2; 3], None, onePageEntry, pm') /\
    ReadAt 2 onePageEntry [0; 0; 0] (0 * pageSize + 2) pm'
    = Ok (len [1; 2; 3], None, [1; 2; 3]).
Proof.
  apply (X5_WriteAt_inside_page_then_ReadAt 0 onePageEntry (onePageManager 5)
           [1; 2; 3] [0; 0; 0] 0 2 4%nat {| fileOff := 16384; usedSize := 10 |}).
  - reflexivity.
  - reflexivity.
  - reflexivity.
  - vm_compute. reflexivity.
  - lia.
  - discriminate.
  - vm_compute. discriminate.
  - vm_compute. discriminate.
  - reflexivity.
Defined.

Lemma X6_witness_second_small_write :
  WriteAt 3 onePageEntry [1; 2; 3] (0 * pageSize + 10) (onePageManager 5)
  = Panic "ep.pages should already contain the updated number of pages".
Proof.
  apply (X6_WriteAt_extending_last_page_panics 0 onePageEntry (onePageManager 5)
           [1; 2; 3] 0 10 4%nat {| fileOff := 16384; usedSize := 10 |}).
  - reflexivity.
  - reflexivity.
  - reflexivity.
  - reflexivity.
  - vm_compute. reflexivity.
  - simpl. lia.
  - reflexivity.
  - lia.
  - discriminate.
  - reflexivity.
  - vm_compute. discriminate.
Defined.

Lemma X7_witness_negative_offset :
  ReadAt 1 onePageEntry [0] (-1) (onePageManager 5) = Ok (0, Some ErrNegativeSeek, [0]) /\
  WriteAt 1 onePageEntry [0] (-1) (onePageManager 5)
  = Ok (0, Some ErrNegativeSeek, onePageEntry, onePageManager 5).
Proof.
  assert (HPS : 0 < pageSize) by reflexivity.
  assert (Hoff : in_int64 (-1)) by (split; [vm_compute; discriminate | reflexivity]).
  apply (proj1 (X7_offsets_outside_the_entry 1 onePageEntry (onePageManager 5) [0] (-1)
                  HPS Hoff)).
  reflexivity.
Defined.

Lemma X8_witness_first_write :
  exists e' pm',
    WriteAt 4 freshEntry [7; 8] 100 (freshManager 4) = Ok (len [7; 8], None, e', pm') /\
    entry_pages e' = [4%nat] /\
    tp_usedSize (ep_tp (ep e')) = 2 /\
    ReadAt 2 e' [0; 0] 0 pm' = Ok (len [7; 8], None, [7; 8]).
Proof.
  assert (HPS : 0 < pageSize) by reflexivity.
  assert (HF : 0 < numPageEntries < 2 ^ 64) by (split; reflexivity).
  assert (HNP : forall r : ref, (r < 4)%nat -> False -> False) by (intros; done).
  assert (Hwf : wf_root (fun r => (r < 4)%nat) (fun _ => False)
                  (root (ep_tp (ep freshEntry))) (pages (ep_tp (ep freshEntry)))).
  { left. split_and!; try done. simpl. lia. }
  assert (Hok : heap_ok (fun r => (r < 4)%nat) (fun _ => False) (freshManager 4)).
  { apply freshManager_heap_ok; [vm_compute; discriminate | reflexivity | intros; lia | done]. }
  assert (Hin : inside_file (freshManager 4))
    by (apply freshManager_inside_file; vm_compute; discriminate).
  destruct (X8_WriteAt_behind_the_end_appends (fun r => (r < 4)%nat) (fun _ => False) 0
              freshEntry (freshManager 4) [7; 8] [0; 0] 100 HPS HF HNP Hwf)
    as (e' & pm' & Hw & Hp & Hu & _ & Hr).
  - reflexivity.
  - reflexivity.
  - exact Hok.
  - exact Hin.
  - simpl. lia.
  - apply freshManager_next_not_allocated.
  - vm_compute. discriminate.
  - reflexivity.
  - reflexivity.
  - reflexivity.
  - reflexivity.
  - discriminate.
  - vm_compute. discriminate.
  - reflexivity.
  - vm_compute. discriminate.
  - split; [vm_compute; discriminate | reflexivity].
  - exists e', pm'. split_and!; done.
Defined.

End Scenario2.

Section Scenario3.
#[local] Existing Instance scenarioConstants.
#[local] Existing Instance eofAtEnd.

Lemma X9_witness_leaf_on_disk :
  exists tp' pm',
    recoverTree 1 (TieredPage (PageTable 0 None ∅ ∅ 0%nat) 2%nat 10 []) 12288 0 leafOnDisk
    = Ok (tp', pm') /\
    pages tp' = [5%nat] /\
    childPages (root tp') !! (2 ^ 64 - 1) = Some 5%nat /\
    childPages (root tp') !! 0 = None /\
    pm_heap pm' !! 5%nat = Some {| fileOff := 16384; usedSize := 10 |} /\
    marshal (root tp') pm' = Panic nil_deref.
Proof.
  assert (HPS : 0 < pageSize) by reflexivity.
  assert (Hb : len [16384] < 2 ^ 64 - 1) by reflexivity.
  assert (HU : 0 <= tp_usedSize (TieredPage (PageTable 0 None ∅ ∅ 0%nat) 2%nat 10 []))
    by (simpl; lia).
  assert (Hdisk : unmarshalPageTable (file_read (pm_file leafOnDisk) 12288 pageSize)
                  = Ok [16384]) by (vm_compute; reflexivity).
  destruct (X9_recoverTree_leaf_shifts_the_slots 0 _ leafOnDisk 12288 [16384] HPS Hb HU Hdisk)
    as (tp' & pm' & Hrun & Hp & _ & _ & Hs & Hheap & Hlast).
  destruct (Hlast ltac:(discriminate)) as [Hnone Hpanic].
  exists tp', pm'. split_and!.
  - exact Hrun.
  - exact Hp.
  - rewrite Hs, Hp. reflexivity.
  - exact Hnone.
  - exact (Hheap 0%nat 16384 eq_refl).
  - exact Hpanic.
Defined.

Lemma onePage_wf_recycler :
  wf_recycler (fun r => (r < 4)%nat) (fun r => (4 <= r < 5)%nat)
    (freePages (onePageManager 5)) (onePageManager 5).
Proof.
  unfold wf_recycler. split_and!; try done.
  - intros r H1 H2. lia.
  - left. split_and!; try done. simpl. lia.
  - exact onePage_heap_ok.
  - simpl. lia.
  - constructor.
Qed.

Lemma X10_witness_cut_to_four_bytes :
  exists fuel0 k e' pm',
    (forall fuel, (fuel0 <= fuel)%nat ->
       Truncate fuel onePageEntry 4 (onePageManager 5) = Ok (e', pm')) /\
    entry_pages e' = take k [4%nat] /\
    tp_usedSize (ep_tp (ep e')) = 4.
Proof.
  assert (HPS : 0 < pageSize) by reflexivity.
  assert (HF : 0 < numPageEntries < 2 ^ 64) by (split; reflexivity).
  destruct (X10_Truncate_hands_the_pages_to_the_recycler
              (fun r => (r < 4)%nat) (fun r => (4 <= r < 5)%nat)
              onePageEntry (onePageManager 5) 4 HPS HF onePage_wf_root)
    as (fuel0 & k & e' & pm' & Hrun & Hp & Hu & _).
  - reflexivity.
  - simpl. lia.
  - reflexivity.
  - split; [vm_compute; discriminate | reflexivity].
  - exact onePage_wf_recycler.
  - reflexivity.
  - simpl. repeat constructor. set_solver.
  - vm_compute. discriminate.
  - reflexivity.
  - lia.
  - exists fuel0, k, e', pm'. split_and!; done.
Defined.

Lemma X11_witness_two_bytes_across :
  let pm := set_usedSize 5%nat pageSize (set_usedSize 4%nat pageSize (freshManager 6)) in
  read (SR := eofAtEnd) 2 twoPageEntry [0; 0] 0 4095 pm = Panic slice_out_of_range /\
  read (SR := eofWhenShort) 2 twoPageEntry [0; 0] 0 4095 pm
  = Ok (MkReadResult 0 (Some EOF) [0; 0] 0 4095).
Proof.
  intros pm.
  assert (HPS : 0 < pageSize) by reflexivity.
  assert (Hb : len (entry_pages twoPageEntry) * pageSize < 2 ^ 63) by reflexivity.
  assert (Hi1 : index (entry_pages twoPageEntry) 0 = Some 4%nat) by reflexivity.
  assert (Hi2 : index (entry_pages twoPageEntry) (0 + 1) = Some 5%nat) by reflexivity.
  assert (Hu1 : used pm 4%nat = pageSize) by (vm_compute; reflexivity).
  assert (Hu2 : len [0; 0] <= used pm 5%nat) by (vm_compute; discriminate).
  assert (Hco : 0 <= 4095 < pageSize) by (split; [lia | reflexivity]).
  assert (Hcross : pageSize - 4095 < len [0; 0]) by reflexivity.
  assert (Hfit : len [0; 0] <= pageSize) by (vm_compute; discriminate).
  split.
  - exact (X11_read_across_two_pages_returns_no_bytes (SR := eofAtEnd) 0 twoPageEntry pm
             [0; 0] 0 4095 4%nat 5%nat HPS Hb Hi1 Hi2 Hu1 Hu2 Hco Hcross Hfit).
  - exact (X11_read_across_two_pages_returns_no_bytes (SR := eofWhenShort) 0 twoPageEntry pm
             [0; 0] 0 4095 4%nat 5%nat HPS Hb Hi1 Hi2 Hu1 Hu2 Hco Hcross Hfit).
Defined.

Lemma X13_witness_size_of_two_to_55 :
  writeTieredPageEntry 2%nat 0 (2 ^ 55) 12288 (freshManager 4) = Panic index_out_of_range.
Proof.
  apply X13_writeTieredPageEntry_panics_on_long_values.
  - split; [vm_compute; discriminate | reflexivity].
  - split; [lia | reflexivity].
  - left. lia.
Defined.

Lemma X14_witness_leaf_root :
  exists fuel0 freed tp' pm',
    (forall fuel, (fuel0 <= fuel)%nat ->
       defrag fuel (ep_tp (ep onePageEntry)) (onePageManager 5) = Ok (freed, tp', pm')) /\
    pages tp' = pages (ep_tp (ep onePageEntry)) /\
    tp_usedSize tp' = tp_usedSize (ep_tp (ep onePageEntry)).
Proof.
  destruct (X14_defrag_keeps_the_pages (fun r => (r < 4)%nat) (fun r => (4 <= r < 5)%nat)
              (ep_tp (ep onePageEntry)) (onePageManager 5) onePage_wf_root onePage_heap_ok)
    as (fuel0 & freed & tp' & pm' & Hrun & Hp & Hu & _).
  - apply onePage_allocated. simpl. lia.
  - simpl. lia.
  - split; [vm_compute; discriminate | reflexivity].
  - exists fuel0, freed, tp', pm'. split_and!; done.
Defined.

End Scenario3.

Section ScenarioSmall.
#[local] Existing Instance smallConstants.
#[local] Existing Instance eofAtEnd.

Lemma small_heap_ok :
  heap_ok (fun r => (r < 4)%nat) (fun r => (4 <= r < 8)%nat) (freshManager 8).
Proof.
  apply freshManager_heap_ok; [vm_compute; discriminate | reflexivity | |];
    intros r Hr; lia.
Qed.

Lemma threePage_wf_root :
  wf_root (fun r => (r < 4)%nat) (fun r => (4 <= r < 8)%nat)
    (root threePageTiered) [4%nat; 5%nat; 6%nat].
Proof.
  right. apply wf_leaf; simpl; try done; try lia.
  - exact (dense_insert_last _ [4%nat; 5%nat] 6%nat
             (dense_insert_last _ [4%nat] 5%nat (dense_insert_last ∅ [] 4%nat dense_empty))).
  - repeat constructor; lia.
Qed.

Lemma X12_witness_fourth_page :
  exists root' pm',
    insertPage 2 threePageTiered numPageEntries 7%nat (freshManager 8)
    = Ok (set_root root' threePageTiered, pm') /\
    parent root' = None /\ pt_pp root' = 8%nat /\
    pm_fileSize pm' = pm_fileSize (freshManager 8) + 2 * pageSize.
Proof.
  assert (HF : 2 <= numPageEntries < 2 ^ 64) by (split; [vm_compute; discriminate | reflexivity]).
  assert (HPS : 0 <= pageSize) by (vm_compute; discriminate).
  destruct (X12_insertPage_grows_a_full_leaf (fun r => (r < 4)%nat) (fun r => (4 <= r < 8)%nat)
              0 threePageTiered (freshManager 8) 7%nat [4%nat; 5%nat; 6%nat] HF HPS
              threePage_wf_root)
    as (root' & pm' & Hrun & _ & Hpar & Hpp & _ & Hfs).
  - reflexivity.
  - reflexivity.
  - reflexivity.
  - lia.
  - exact small_heap_ok.
  - reflexivity.
  - vm_compute. discriminate.
  - reflexivity.
  - exists root', pm'. split_and!; done.
Defined.

Lemma tall_wf_node :
  wf_node (fun r => (r < 4)%nat) (fun r => (4 <= r < 8)%nat) 1
    (root tallTiered) [4%nat; 5%nat].
Proof.
  apply (wf_inner _ _ 1 (root tallTiered)
           [PageTable 0 (Some 3%nat) ∅ (<[1 := 5%nat]> {[0 := 4%nat]}) 1%nat]
           [[4%nat; 5%nat]]); simpl; try done; try lia.
  - exact (dense_insert_last ∅ [] _ dense_empty).
  - change (1 - 1) with 0. constructor; [| constructor].
    apply wf_leaf; simpl; try done; try lia.
    + exact (dense_insert_last _ [4%nat] 5%nat (dense_insert_last ∅ [] 4%nat dense_empty)).
    + repeat constructor; lia.
Qed.

Lemma X15_witness_third_page :
  exists root' pm',
    insertPage 2 tallTiered (len [4%nat; 5%nat]) 6%nat (freshManager 8)
    = Ok (set_root root' tallTiered, pm') /\
    pt_pp root' = 3%nat.
Proof.
  assert (HF : 2 <= numPageEntries < 2 ^ 64) by (split; [vm_compute; discriminate | reflexivity]).
  assert (HPS : 0 <= pageSize) by (vm_compute; discriminate).
  destruct (X15_insertPage_appends_at_height_one (fun r => (r < 4)%nat)
              (fun r => (4 <= r < 8)%nat) 0 tallTiered (freshManager 8) 6%nat
              [4%nat; 5%nat] HF HPS tall_wf_node)
    as (root' & pm' & Hrun & _ & Hpp & _).
  - reflexivity.
  - lia.
  - exact small_heap_ok.
  - reflexivity.
  - split; [vm_compute; discriminate | reflexivity].
  - exists root', pm'. split; done.
Defined.

Lemma X16_witness_leaf_with_room :
  exists root' pm',
    insertPage 1 (ep_tp (ep twoPageEntry)) (len [4%nat; 5%nat]) 6%nat (freshManager 8)
    = Ok (set_root root' (ep_tp (ep twoPageEntry)), pm') /\
    childPages root' !! len [4%nat; 5%nat] = Some 6%nat.
Proof.
  assert (HNP : forall r : ref, (r < 4)%nat -> (4 <= r < 8)%nat -> False) by (intros; lia).
  assert (HF : 0 < numPageEntries < 2 ^ 64) by (split; reflexivity).
  assert (Hwf : wf_root (fun r => (r < 4)%nat) (fun r => (4 <= r < 8)%nat)
                  (root (ep_tp (ep twoPageEntry))) [4%nat; 5%nat]).
  { right. apply wf_leaf; simpl; try done; try lia.
    - exact (dense_insert_last _ [4%nat] 5%nat (dense_insert_last ∅ [] 4%nat dense_empty)).
    - repeat constructor; lia. }
  destruct (X16_insertPage_appends_to_a_leaf (fun r => (r < 4)%nat)
              (fun r => (4 <= r < 8)%nat) 0 (ep_tp (ep twoPageEntry)) (freshManager 8)
              6%nat [4%nat; 5%nat] HNP HF)
    as (root' & pm' & Hrun & _ & _ & Hslot & _).
  - reflexivity.
  - exact Hwf.
  - reflexivity.
  - lia.
  - exact small_heap_ok.
  - exists root', pm'. split; done.
Defined.

End ScenarioSmall.

(** ** The cursor: [Write], [Seek] back and [Read] *)

Section Cursor.
Context {C : Constants} {SR : ShortRead}.

Lemma seek_same_pages (e e' : Entry) (offset cp co : Z) :
  entry_pages e = entry_pages e' -> seek e offset cp co = seek e' offset cp co.
Proof. intros H. unfold seek. by rewrite H. Qed.

Lemma seek_inside_pos (e : Entry) (k cp co cp' co' : Z) :
  0 < pageSize -> len (entry_pages e) * pageSize < 2 ^ 63 ->
  0 <= cp < len (entry_pages e) -> 0 <= co < pageSize -> 0 <= k <= pageSize - co ->
  seek e k cp co = Ok (cp', co') ->
  cp' * pageSize + co' = cp * pageSize + co + k /\
  0 <= cp' <= len (entry_pages e) /\ 0 <= co' < pageSize.
Proof.
  intros HPS Hb Hcp Hco Hk. rewrite seek_inside by done.
  destruct (co + k <? pageSize) eqn:E1.
  - intros [= <- <-]. lia.
  - destruct (cp + 1 <? len (entry_pages e)) eqn:E2; intros [= <- <-]; [lia |].
    assert (Hl : len (entry_pages e) = cp + 1) by lia. rewrite Hl. lia.
Qed.

Lemma seek_back (e : Entry) (k cp co cp' co' : Z) :
  0 < pageSize -> len (entry_pages e) * pageSize < 2 ^ 63 ->
  0 <= cp < len (entry_pages e) -> 0 <= co < pageSize -> 0 <= k <= pageSize - co ->
  0 <= cp' <= len (entry_pages e) -> 0 <= co' < pageSize ->
  cp' * pageSize + co' = cp * pageSize + co + k ->
  seek e (- k) cp' co' = Ok (cp, co) /\
  add64 (mul64 cp pageSize) co = cp * pageSize + co.
Proof.
  intros HPS Hb Hcp Hco Hk Hcp' Hco' Hpos.
  pose proof (seek_spec e (- k) cp' co' HPS) as (_ & _ & Hin).
  assert (Hle : (cp + 1) * pageSize <= len (entry_pages e) * pageSize) by nia.
  assert (Hle' : 0 <= cp' * pageSize <= len (entry_pages e) * pageSize) by nia.
  assert (Hle0 : 0 <= cp * pageSize) by nia.
  assert (Hp : add64 (add64 (mul64 cp' pageSize) co') (- k) = cp * pageSize + co).
  { unfold add64, mul64.
    rewrite (wrap_int64_small (cp' * pageSize)) by (unfold in_int64; lia).
    rewrite (wrap_int64_small (cp' * pageSize + co')) by (unfold in_int64; lia).
    rewrite wrap_int64_small by (unfold in_int64; lia). lia. }
  cbv zeta in Hin. rewrite Hp in Hin.
  assert (Hd : (cp * pageSize + co) / pageSize = cp).
  { rewrite Z.div_add_l by lia. rewrite Z.div_small by lia. lia. }
  assert (Hm : (cp * pageSize + co) mod pageSize = co).
  { rewrite Z.add_comm, Z.mod_add by lia. apply Z.mod_small. lia. }
  rewrite Hd, Hm in Hin. split; [apply Hin; lia |].
  unfold add64, mul64.
  rewrite (wrap_int64_small (cp * pageSize)) by (unfold in_int64; lia).
  apply wrap_int64_small. unfold in_int64. lia.
Qed.

(** X17.  [Write] of a non-empty [p] that stays inside the used part of the
    page under the cursor succeeds with [n = len(p)], changes nothing of
    the entry but the cursor, and moves the cursor [len(p)] bytes on.
    [Seek(-len(p), SeekCurrent)] then returns the old position and restores
    the old cursor, and [Read] of as many bytes there returns [p] and leaves
    the cursor where [Write] left it. *)
Theorem X17_Write_Seek_back_Read (fuel : nat) (e : Entry) (pm : PageManager)
    (p q : list Z) (page : ref) (pg : physicalPage) :
  0 < pageSize -> len (entry_pages e) * pageSize < 2 ^ 63 ->
  index (entry_pages e) (cursorPage e) = Some page -> pm_heap pm !! page = Some pg ->
  0 <= cursorOff e -> p <> [] -> cursorOff e + len p <= usedSize pg ->
  usedSize pg <= pageSize -> length q = length p ->
  exists e1 pm',
    Write (S (S fuel)) e p pm = Ok (len p, None, e1, pm') /\
    ep e1 = ep e /\
    cursorPage e1 * pageSize + cursorOff e1
    = cursorPage e * pageSize + cursorOff e + len p /\
    Seek e1 (- len p) SeekCurrent
    = (Ok (cursorPage e * pageSize + cursorOff e), e) /\
    Read (S (S fuel)) e q pm' = Ok (len p, None, p, e1).
Proof.
  destruct e as [epg co cp]. cbn [cursorPage cursorOff].
  set (e := {| ep := epg; cursorOff := co; cursorPage := cp |}).
  intros HPS Hb Hidx Hpg Hco Hne Hfit Hused Hq.
  pose proof (index_Some_lt _ _ _ Hidx) as Hcp.
  assert (Hlp : 0 < len p).
  { unfold len. destruct p; [done | simpl; lia]. }
  destruct (seek e (len p) cp co) as [[cp' co'] | | |] eqn:Hseek1.
  2-4: rewrite seek_inside in Hseek1 by lia; discriminate.
  destruct (seek_inside_pos e (len p) cp co cp' co' HPS Hb) as (Hpos & Hcp' & Hco');
    [lia | lia | lia | done |].
  assert (Hn : Z.max 0 (Z.min (len (drop (Z.to_nat 0) p)) (pageSize - co)) = len p).
  { change (Z.to_nat 0) with 0%nat. rewrite drop_0. lia. }
  assert (Hu : Z.max (usedSize pg) (co + len p) = usedSize pg) by lia.
  set (pm' := set_usedSize page (usedSize pg)
                (set_file (file_write (pm_file pm) (fileOff pg + co) p) pm)).
  set (e1 := {| ep := epg; cursorOff := co'; cursorPage := cp' |}).
  exists e1, pm'. split_and!.
  - unfold Write, write. cbn [cursorPage cursorOff e].
    fold e.
    rewrite (write_loop_write (S fuel) p cp co e (len p) 0 [] 0 false cp co pm page pg);
      [| lia | right; by eapply mustAppend_inside | lia | done | done].
    cbv zeta. rewrite Hn, Hu, Hseek1.
    change (Z.to_nat 0) with 0%nat. rewrite drop_0.
    rewrite take_ge by (unfold len; lia). fold pm'.
    rewrite write_loop_done by lia. cbn [bind].
    unfold ep_addPages.
    assert (E : (0 + (usedSize pg - usedSize pg) =? 0) = true) by lia. rewrite E.
    cbn [bind wr_n wr_err wr_e wr_pm wr_cursorOff wr_cursorPage].
    unfold e1, e. destruct epg as [tp ic]. reflexivity.
  - reflexivity.
  - exact Hpos.
  - destruct (seek_back e (len p) cp co cp' co' HPS Hb) as [Hs Ha]; try lia.
    unfold Seek.
    change (seek_base e1 SeekCurrent) with (cp', co'). cbv iota beta.
    rewrite (seek_same_pages e1 e) by reflexivity.
    rewrite Hs. cbn [cursorPage cursorOff ep e1]. rewrite Ha. reflexivity.
  - assert (Hpg' : pm_heap pm' !! page = Some {| fileOff := fileOff pg; usedSize := usedSize pg |}).
    { unfold pm'. rewrite heap_set_usedSize.
      destruct (decide (page = page)) as [_ | Hx]; [| done]. simpl pm_heap. by rewrite Hpg. }
    unfold Read, read. cbn [cursorPage cursorOff e]. fold e.
    assert (E0 : (len (entry_pages e) =? 0) = false) by lia. rewrite E0.
    cbn [read_loop].
    assert (Hlq : len q = len p) by (unfold len; by rewrite Hq).
    assert (E1 : (len q >? 0) && negb (cp >=? len (entry_pages e)) = true).
    { apply andb_true_iff. split; [lia |]. apply negb_true_iff. lia. }
    rewrite E1, Hidx.
    assert (Hlr : len (replicate (length q) 0) = len p).
    { unfold len. rewrite length_replicate. by rewrite Hq. }
    rewrite Hlr.
    rewrite (pp_readAt_ok page _ _ _ pm' Hpg') by (cbn [usedSize]; lia). cbn [fileOff].
    rewrite Hseek1.
    assert (Hdata : file_read (pm_file pm') (fileOff pg + co) (len p) = p).
    { unfold pm'. simpl pm_file. rewrite file_read_write by lia.
      replace (len p - len p) with 0 by lia. unfold file_read. simpl. apply app_nil_r. }
    rewrite Hdata.
    assert (E2 : (0 + len p >? len q) = false) by lia. rewrite E2.
    assert (Hp' : take (Z.to_nat 0) q
                  ++ take (Z.to_nat (len p)) (p ++ drop (Z.to_nat (len p)) (replicate (length q) 0))
                  ++ drop (Z.to_nat (0 + len p)) q = p).
    { change (Z.to_nat 0) with 0%nat. rewrite take_0. simpl app.
      unfold len. rewrite Z.add_0_l, Nat2Z.id.
      rewrite take_app_length. rewrite drop_ge by lia. apply app_nil_r. }
    rewrite Hp'.
    destruct fuel as [| fuel']; cbn [read_loop].
    all: assert (E3 : (len q - len p >? 0) && negb (cp' >=? len (entry_pages e)) = false)
           by (apply andb_false_iff; left; lia).
    all: rewrite E3.
    all: assert (E4 : (0 + len p =? 0) = false) by lia.
    all: rewrite E4; cbn [bind rd_n rd_err rd_p rd_cursorOff rd_cursorPage ep e].
    all: unfold e1; f_equal; f_equal; f_equal; f_equal; lia.
Qed.

End Cursor.

(** ** What [unmarshalPageTable] accepts *)

Section Unmarshal.
Context {C : Constants} {SR : ShortRead}.

Lemma Uint64_nonneg (b : list Z) :
  Forall (fun x => 0 <= x < 256) b -> 0 <= Binary.Uint64 b.
Proof.
  induction 1 as [| x b Hx _ IH]; simpl; [done |].
  apply Z.lor_nonneg. split; [lia |]. by apply Z.shiftl_nonneg.
Qed.

Lemma upto_lookup (n : Z) (i : nat) (x : Z) :
  upto n !! i = Some x -> x = Z.of_nat i.
Proof.
  unfold upto. rewrite list_lookup_fmap.
  destruct (seq 0 (Z.to_nat n) !! i) as [j |] eqn:E; [| done].
  apply lookup_seq in E as [-> _]. by intros [= <-].
Qed.

(** X18.  When [unmarshalPageTable] returns entries, the buffer has its
    eight bytes of header, the header counts the entries, there are no more
    of them than a page table can hold, all their slots lie inside the
    buffer, and each entry is the varint of its slot; an entry zero comes
    from a slot that holds a varint, never from one that failed to decode. *)
Theorem X18_unmarshalPageTable_accepts_only_sound_tables (data offs : list Z) :
  Forall (fun b => 0 <= b < 256) data -> numPageEntries < 2 ^ 61 ->
  unmarshalPageTable data = Ok offs ->
  8 <= len data /\
  len offs = Binary.Uint64 (slice data 0 8) /\
  len offs <= numPageEntries /\
  8 + 8 * len offs <= len data /\
  forall (i : nat) (o : Z), offs !! i = Some o ->
    exists n : Z,
      Binary.Varint (slice data (8 + 8 * Z.of_nat i) (8 + 8 * Z.of_nat i + 8)) = (o, n) /\
      (o = 0 -> 0 < n).
Proof.
  intros Hbytes HF H. unfold unmarshalPageTable in H.
  destruct (len data <? 8) eqn:E1; [discriminate |].
  apply Z.ltb_ge in E1.
  assert (Hn0 : 0 <= Binary.Uint64 (slice data 0 8)).
  { apply Uint64_nonneg. unfold slice. by apply Forall_take, Forall_drop. }
  set (n := Binary.Uint64 (slice data 0 8)) in *.
  destruct (n >? numPageEntries) eqn:E2; [discriminate |].
  assert (Hn : n <= numPageEntries) by lia.
  destruct (len (drop 8 data) <? wrap_uint64 (n * 8)) eqn:E3; [discriminate |].
  apply Z.ltb_ge in E3.
  rewrite wrap_uint64_small in E3 by lia.
  assert (Hd : len (drop 8 data) = len data - 8).
  { unfold len in *. rewrite length_drop. lia. }
  rewrite Hd in E3.
  apply mapM_length in H.
  assert (Hlen : len offs = n).
  { apply Forall2_length in H. unfold upto in H. rewrite length_map, length_seq in H.
    unfold len. lia. }
  split_and!; try lia.
  intros i o Hi.
  destruct (Forall2_lookup_r _ _ _ _ _ H Hi) as (x & Hx & Hfx).
  apply upto_lookup in Hx as ->.
  destruct (Binary.Varint (slice data (8 + 8 * Z.of_nat i) (8 + 8 * Z.of_nat i + 8)))
    as [o' n'] eqn:EV.
  destruct ((o' =? 0) && (n' <=? 0)) eqn:E4; [discriminate |].
  injection Hfx as ->. exists n'. split; [done |].
  intros ->. apply andb_false_iff in E4 as [E4 | E4]; lia.
Qed.

End Unmarshal.

Section Scenario4.
#[local] Existing Instance scenarioConstants.
#[local] Existing Instance eofAtEnd.

Lemma X17_witness_three_bytes :
  exists e1 pm',
    Write 2 onePageEntry [1; 2; 3] (onePageManager 5) = Ok (len [1; 2; 3], None, e1, pm') /\
    ep e1 = ep onePageEntry /\
    cursorPage e1 * pageSize + cursorOff e1
    = cursorPage onePageEntry * pageSize + cursorOff onePageEntry + len [1; 2; 3] /\
    Seek e1 (- len [1; 2; 3]) SeekCurrent
    = (Ok (cursorPage onePageEntry * pageSize + cursorOff onePageEntry), onePageEntry) /\
    Read 2 onePageEntry [0; 0; 0] pm' = Ok (len [1; 2; 3], None, [1; 2; 3], e1).
Proof.
  apply (X17_Write_Seek_back_Read 0 onePageEntry (onePageManager 5)
           [1; 2; 3] [0; 0; 0] 4%nat {| fileOff := 16384; usedSize := 10 |}).
  - reflexivity.
  - reflexivity.
  - reflexivity.
  - vm_compute. reflexivity.
  - simpl. lia.
  - discriminate.
  - vm_compute. discriminate.
  - vm_compute. discriminate.
  - reflexivity.
Defined.

Lemma X18_witness_one_entry :
  let data := Binary.PutUint64 1 ++ [128; 128; 2; 0; 0; 0; 0; 0] in
  8 <= len data /\
  len [16384] = Binary.Uint64 (slice data 0 8) /\
  len [16384] <= numPageEntries /\
  8 + 8 * len [16384] <= len data /\
  forall (i : nat) (o : Z), [16384] !! i = Some o ->
    exists n : Z,
      Binary.Varint (slice data (8 + 8 * Z.of_nat i) (8 + 8 * Z.of_nat i + 8)) = (o, n) /\
      (o = 0 -> 0 < n).
Proof.
  intros data.
  apply (X18_unmarshalPageTable_accepts_only_sound_tables data [16384]).
  - change data with [1; 0; 0; 0; 0; 0; 0; 0; 128; 128; 2; 0; 0; 0; 0; 0].
    repeat constructor; lia.
  - reflexivity.
  - vm_compute. reflexivity.
Defined.

End Scenario4.

(** ** What [freePage] keeps *)

Section FreePageKeeps.
Context {C : Constants} {SR : ShortRead}.

(** X19.  A recycler with no page at all answers [freePage] with the error
    "ran out of free pages".  With an empty buffer and a page in its tree,
    [freePage] returns a page whose [usedSize] is zero afterwards and which
    the page list of the recycler no longer holds, and the recycler is
    well-formed again: the remaining pages are distinct, count as full, and
    the size of the recycler is their number times [pageSize]. *)
Theorem X19_freePage_keeps_the_recycler_well_formed (N P : ref -> Prop)
    (rp : recyclingPage) (pm : PageManager) :
  0 < pageSize -> 0 < numPageEntries < 2 ^ 64 ->
  wf_recycler N P rp pm -> pagesToFree rp = [] ->
  (pages (rp_tp rp) = [] -> forall fuel, freePage fuel rp pm = Err ErrNoFreePages) /\
  (pages (rp_tp rp) <> [] ->
   exists fuel0 p rp' pm',
     (forall fuel, (fuel0 <= fuel)%nat -> freePage fuel rp pm = Ok (p, rp', pm')) /\
     last (pages (rp_tp rp)) = Some p /\
     used pm' p = 0 /\
     (p ∉ pages (rp_tp rp')) /\
     wf_recycler N P rp' pm').
Proof.
  intros HPS [HF0 HF] Hwf Hbuf. split.
  - intros Hnil fuel. unfold freePage, availablePages. by rewrite Hbuf, Hnil.
  - intros Hne.
    destruct (pages (rp_tp rp)) as [| x l] eqn:Hpages using rev_ind; [done |].
    clear IHl.
    destruct (freePage_tree N P HPS HF rp pm l x Hwf Hbuf Hpages)
      as (fuel0 & rp' & pm' & Hrun & Hp & _ & Hused & Hwf' & _).
    exists fuel0, x, rp', pm'. split_and!; try done.
    + apply last_snoc.
    + rewrite Hp. destruct Hwf as (_ & _ & _ & _ & Hnd & _).
      rewrite Hpages in Hnd. apply NoDup_app in Hnd as (_ & Hd & _).
      intros Hin. apply (Hd x Hin). by apply list_elem_of_singleton.
Qed.

End FreePageKeeps.

Section Scenario5.
#[local] Existing Instance scenarioConstants.
#[local] Existing Instance eofAtEnd.

Lemma onePageRecycler_wf :
  wf_recycler (fun r => (r < 4)%nat) (fun r => (4 <= r < 5)%nat)
    onePageRecycler (fullPageManager 5).
Proof.
  split_and!.
  - intros r H1 H2. lia.
  - right. apply wf_leaf; simpl; try done; try lia.
    + exact (dense_insert_last ∅ [] 4%nat dense_empty).
    + repeat constructor; lia.
  - apply (heap_ok_same _ _ (freshManager 5)); [apply same_offsets_set_usedSize |].
    apply freshManager_heap_ok; [done | done | |]; intros r Hr; lia.
  - simpl. lia.
  - simpl. repeat constructor. set_solver.
  - repeat constructor.
  - reflexivity.
  - reflexivity.
Qed.

Lemma X19_witness_one_page :
  exists fuel0 p rp' pm',
    (forall fuel, (fuel0 <= fuel)%nat ->
       freePage fuel onePageRecycler (fullPageManager 5) = Ok (p, rp', pm')) /\
    last (pages (rp_tp onePageRecycler)) = Some p /\
    used pm' p = 0 /\
    (p ∉ pages (rp_tp rp')).
Proof.
  assert (HPS : 0 < pageSize) by reflexivity.
  assert (HF : 0 < numPageEntries < 2 ^ 64) by (split; reflexivity).
  destruct (X19_freePage_keeps_the_recycler_well_formed _ _ _ _ HPS HF onePageRecycler_wf
              eq_refl) as [_ H].
  destruct (H ltac:(discriminate)) as (fuel0 & p & rp' & pm' & Hrun & Hl & Hu & Hn & _).
  exists fuel0, p, rp', pm'. split_and!; done.
Defined.

End Scenario5.

Section Scenario6.
#[local] Existing Instance scenarioConstants.
#[local] Existing Instance eofAtEnd.



End Scenario6.
